(** * Ocelloids services: matching engine, sender criteria and switchboard

    A shallow embedding of
    - [src/services/matching/engine.ts] (the [MatchingEngine] that joins the
      sent and the received leg of an XCM message),
    - [src/services/monitoring/ops/criteria.ts] (the sender and message
      criteria and their evaluation), and
    - [packages/server/src/services/monitoring/switchboard.ts] (the
      subscription registry and the notification fan-out),
    followed by the properties of the specification stated over it. *)

From Stdlib Require Import Ascii String.
From stdpp Require Import gmap strings list fin_maps.

Open Scope string_scope.
Open Scope list_scope.

Set Warnings "-register-all".

(** ** The matching engine ([engine.ts]) *)

Module Engine.

(** [XcmMessageSent] and [XcmMessageReceived] are declared in
    [monitoring/types.ts]; the engine reads [messageHash], [recipient] and
    [chainId] only. The remaining fields travel unchanged and are kept as one
    opaque [body]. *)
Record XcmMessageSent := {
  sent_messageHash : string;
  sent_recipient : string;
  sent_chainId : string;
  sent_body : string
}.

Record XcmMessageReceived := {
  recv_messageHash : string;
  recv_chainId : string;
  recv_body : string
}.

(** [new XcmMessageNotify(outMsg, inMsg)]: the notification joins both legs. *)
Record XcmMessageNotify := {
  notify_out : XcmMessageSent;
  notify_in : XcmMessageReceived
}.

#[global] Instance XcmMessageSent_eq_dec : EqDecision XcmMessageSent.
Proof. solve_decision. Defined.
#[global] Instance XcmMessageReceived_eq_dec : EqDecision XcmMessageReceived.
Proof. solve_decision. Defined.
#[global] Instance XcmMessageNotify_eq_dec : EqDecision XcmMessageNotify.
Proof. solve_decision. Defined.

(** The two [log.info] lines of the handlers. *)
Inductive LogLine :=
| LogMatched (chainId ck : string)
| LogStored (chainId ck : string).

(** The engine's mutable state: the two sublevels, the notifications emitted
    on the [Notification] event so far (oldest first) and the log. *)
Record State := {
  outbound : gmap string XcmMessageSent;
  inbound : gmap string XcmMessageReceived;
  emitted : list XcmMessageNotify;
  log : list LogLine
}.

Definition init : State :=
  {| outbound := ∅; inbound := ∅; emitted := []; log := [] |}.

(** [`${outMsg.messageHash}:${outMsg.recipient}`] *)
Definition outKey (outMsg : XcmMessageSent) : string :=
  sent_messageHash outMsg +:+ ":" +:+ sent_recipient outMsg.

(** [`${inMsg.messageHash}:${inMsg.chainId}`] *)
Definition inKey (inMsg : XcmMessageReceived) : string :=
  recv_messageHash inMsg +:+ ":" +:+ recv_chainId inMsg.

(** [#notify]: builds the joined message and emits it. *)
Definition notify (outMsg : XcmMessageSent) (inMsg : XcmMessageReceived)
    (st : State) : State :=
  {| outbound := outbound st;
     inbound := inbound st;
     emitted := emitted st ++ [ {| notify_out := outMsg; notify_in := inMsg |} ];
     log := log st |}.

(** [onOutboundMessage]. The body runs under the engine mutex, so it is one
    atomic step. [#inbound.get(ck)] rejects when the key is absent, which is
    the [catch] branch. *)
Definition onOutboundMessage (outMsg : XcmMessageSent) (st : State) : State :=
  let ck := outKey outMsg in
  match inbound st !! ck with
  | Some inMsg =>
      notify outMsg inMsg
        {| outbound := outbound st;
           inbound := delete ck (inbound st);
           emitted := emitted st;
           log := log st ++ [LogMatched (sent_chainId outMsg) ck] |}
  | None =>
      {| outbound := <[ck := outMsg]> (outbound st);
         inbound := inbound st;
         emitted := emitted st;
         log := log st ++ [LogStored (sent_chainId outMsg) ck] |}
  end.

(** [onInboundMessage], the mirror image on the other sublevel. *)
Definition onInboundMessage (inMsg : XcmMessageReceived) (st : State) : State :=
  let ck := inKey inMsg in
  match outbound st !! ck with
  | Some outMsg =>
      notify outMsg inMsg
        {| outbound := delete ck (outbound st);
           inbound := inbound st;
           emitted := emitted st;
           log := log st ++ [LogMatched (recv_chainId inMsg) ck] |}
  | None =>
      {| outbound := outbound st;
         inbound := <[ck := inMsg]> (inbound st);
         emitted := emitted st;
         log := log st ++ [LogStored (recv_chainId inMsg) ck] |}
  end.

(** An observation handed to the engine, and a run over a sequence of them. *)
Inductive Leg :=
| Sent (outMsg : XcmMessageSent)
| Received (inMsg : XcmMessageReceived).

Definition handle (l : Leg) (st : State) : State :=
  match l with
  | Sent o => onOutboundMessage o st
  | Received i => onInboundMessage i st
  end.

Definition run (ls : list Leg) (st : State) : State :=
  foldl (fun s l => handle l s) st ls.

(** The confirmation key a leg is filed under. *)
Definition leg_key (l : Leg) : string :=
  match l with
  | Sent o => outKey o
  | Received i => inKey i
  end.

(** What a handler adds to the emitted notifications. *)
Definition newly_emitted (before after : State) : list XcmMessageNotify :=
  drop (length (emitted before)) (emitted after).

(** Concrete legs used by the examples: message [0xAA] from parachain 1000
    to parachain 2004. *)
Definition sample_sent : XcmMessageSent :=
  {| sent_messageHash := "0xAA";
     sent_recipient := "urn:ocn:polkadot:2004";
     sent_chainId := "urn:ocn:polkadot:1000";
     sent_body := "sent at #1" |}.

Definition sample_received : XcmMessageReceived :=
  {| recv_messageHash := "0xAA";
     recv_chainId := "urn:ocn:polkadot:2004";
     recv_body := "received at #7" |}.

End Engine.

(** ** Sender and message criteria ([ops/criteria.ts]) *)

Module Criteria.

(** The documents handed to a query: strings, numbers, arrays and objects.
    An object lists its own properties in insertion order. *)
Inductive Json :=
| JStr (s : string)
| JNum (n : Z)
| JArr (items : list Json)
| JObj (fields : list (string * Json)).

(** Property read [o[k]]. *)
Fixpoint obj_get (k : string) (fields : list (string * Json)) : option Json :=
  match fields with
  | [] => None
  | (k', v) :: rest => if String.eqb k' k then Some v else obj_get k rest
  end.

(** Property write [o[k] = v]: an existing property keeps its place. *)
Fixpoint obj_set (k : string) (v : Json) (fields : list (string * Json))
    : list (string * Json) :=
  match fields with
  | [] => [(k, v)]
  | (k', v') :: rest =>
      if String.eqb k' k then (k', v) :: rest else (k', v') :: obj_set k v rest
  end.

(** [Object.assign(target, ...sources)]: every own property of every source
    is written to the target, in order. *)
Definition assign1 (target source : list (string * Json)) : list (string * Json) :=
  foldl (fun t kv => obj_set kv.1 kv.2 t) target source.

Definition Object_assign (target : list (string * Json))
    (sources : list (list (string * Json))) : list (string * Json) :=
  foldl assign1 target sources.

(** A query as [criteria.ts] writes it: a query object is the conjunction of
    its entries ([{}] has none), an entry is either [$or: [...]] or
    [path: { $in: [...] }]. *)
Inductive Criteria :=
| Query (entries : list Criteria)
| Or (alts : list Criteria)
| In (path : string) (vals : list string).

(** The evaluation of a query, [ControlQuery.value.test(document)], belongs
    to the query library and is not part of [criteria.ts]; the four
    definitions below model it from the spec's description of a control
    query: a boolean combination of field tests, where [$in] tests the
    membership of the value found at a dotted path. *)

(** [path.split('.')] *)
Fixpoint split_on (sep : Ascii.ascii) (s : string) : list string :=
  match s with
  | EmptyString => [EmptyString]
  | String c rest =>
      if Ascii.eqb c sep then EmptyString :: split_on sep rest
      else match split_on sep rest with
           | [] => [String c EmptyString]
           | w :: ws => String c w :: ws
           end
  end.

(** Modelled from the spec: the value a dotted path selects in a document.
    A field of an object selects that property; a path that crosses an array
    ranges over the array's elements and collects what they select; a
    missing field selects nothing. *)
Fixpoint resolve (v : Json) (path : list string) {struct v} : option Json :=
  match path with
  | [] => Some v
  | f :: rest =>
      match v with
      | JObj fields =>
          (fix get (fs : list (string * Json)) : option Json :=
             match fs with
             | [] => None
             | (k, x) :: fs' => if String.eqb k f then resolve x rest else get fs'
             end) fields
      | JArr items =>
          Some (JArr
            ((fix each (xs : list Json) : list Json :=
                match xs with
                | [] => []
                | x :: xs' =>
                    match resolve x path with
                    | Some y => y :: each xs'
                    | None => each xs'
                    end
                end) items))
      | JStr _ | JNum _ => None
      end
  end.

(** Modelled from the spec: [$in] on one value. Only a string can be equal
    to one of the listed strings. *)
Definition is_in (vals : list string) (v : Json) : bool :=
  match v with
  | JStr s => bool_decide (s ∈ vals)
  | JNum _ | JArr _ | JObj _ => false
  end.

(** Modelled from the spec: the field test [path: { $in: vals }] on what the
    path selects. Nothing selected matches no string; an array matches when
    one of its elements does. *)
Definition op_in (lhs : option Json) (vals : list string) : bool :=
  match lhs with
  | None => false
  | Some (JArr items) => existsb (is_in vals) items
  | Some v => is_in vals v
  end.

(** Modelled from the spec: [query.test(doc)]. A query object holds when
    all its entries hold, [$or] when one alternative holds. *)
Fixpoint test (c : Criteria) (doc : Json) {struct c} : bool :=
  match c with
  | Query entries => forallb (fun e => test e doc) entries
  | Or alts => existsb (fun a => test a doc) alts
  | In path vals => op_in (resolve doc (split_on "."%char path)) vals
  end.

(** [ControlQuery]: a holder of the current query, replaced by [change]. *)
Record ControlQuery := { value : Criteria }.

Definition ControlQuery_from (c : Criteria) : ControlQuery := {| value := c |}.
Definition change (q : ControlQuery) (c : Criteria) : ControlQuery := {| value := c |}.

(** [senders: string[] | '*'] *)
Inductive Senders :=
| SendersAny
| SendersList (senders : list string).

(** [sendersCriteria] *)
Definition sendersCriteria (senders : Senders) : Criteria :=
  match senders with
  | SendersList senders =>
      Query [ Or [ Query [In "extrinsic.signer.id" senders];
                   Query [In "extrinsic.signer.publicKey" senders];
                   Query [In "extrinsic.extraSigners.id" senders];
                   Query [In "extrinsic.extraSigners.publicKey" senders] ] ]
  | SendersAny => Query []
  end.

(** [messageCriteria] *)
Definition messageCriteria (recipients : list string) : Criteria :=
  Query [In "recipient" recipients].

(** The codec values [matchSenders] reads. [toPrimitive()] of an address is
    an object whose properties are strings (an account address, a hex string)
    or numbers (an account index); [value.toHex()] is the raw public key. *)
Inductive Prim :=
| PStr (s : string)
| PNum (n : Z).

Definition prim_json (p : Prim) : Json :=
  match p with
  | PStr s => JStr s
  | PNum n => JNum n
  end.

Record Address := {
  toPrimitive : list (string * Prim);
  value_toHex : string
}.

Record ExtraSigner := {
  signer_type : string;
  signer_address : Address
}.

Record ExtrinsicWithId := {
  signer : Address;
  extraSigners : list ExtraSigner
}.

Definition primitive_object (a : Address) : list (string * Json) :=
  map (fun kv => (kv.1, prim_json kv.2)) (toPrimitive a).

(** [Object.assign({}, xt.signer.toPrimitive(), { publicKey: ... })] *)
Definition signerDoc (a : Address) : list (string * Json) :=
  Object_assign [] [ primitive_object a; [("publicKey", JStr (value_toHex a))] ].

(** [Object.assign({}, signer.address.toPrimitive(), { type, publicKey })] *)
Definition extraSignerDoc (s : ExtraSigner) : list (string * Json) :=
  Object_assign []
    [ primitive_object (signer_address s);
      [("type", JStr (signer_type s));
       ("publicKey", JStr (value_toHex (signer_address s)))] ].

Definition sendersDoc (xt : ExtrinsicWithId) : Json :=
  JObj [("extrinsic",
         JObj [("signer", JObj (signerDoc (signer xt)));
               ("extraSigners",
                JArr (map (fun s => JObj (extraSignerDoc s)) (extraSigners xt)))])].

(** [matchSenders]: an undefined extrinsic never matches. *)
Definition matchSenders (query : ControlQuery) (xt : option ExtrinsicWithId) : bool :=
  match xt with
  | None => false
  | Some xt => test (value query) (sendersDoc xt)
  end.

(** [matchMessage] *)
Definition matchMessage (query : ControlQuery) (recipient : string) : bool :=
  test (value query) (JObj [("recipient", JStr recipient)]).

(** The membership test of one field of one object, as the four branches of
    [sendersCriteria] read it. *)
Definition field_in (k : string) (vals : list string)
    (obj : list (string * Json)) : bool :=
  op_in (obj_get k obj) vals.

(** [xt] carries one of [senders] as signer or extra signer, by address or by
    public key. *)
Definition sender_among (senders : list string) (xt : ExtrinsicWithId) : bool :=
  field_in "id" senders (signerDoc (signer xt))
  || field_in "publicKey" senders (signerDoc (signer xt))
  || existsb (fun s => field_in "id" senders (extraSignerDoc s)) (extraSigners xt)
  || existsb (fun s => field_in "publicKey" senders (extraSignerDoc s)) (extraSigners xt).

(** Values that are not containers, and objects that hold only such values. *)
Definition scalar (v : Json) : Prop :=
  match v with
  | JStr _ | JNum _ => True
  | JArr _ | JObj _ => False
  end.

Definition scalars (fields : list (string * Json)) : Prop :=
  Forall (λ kv, scalar kv.2) fields.

(** Two accounts used by the examples. *)
Definition acctA : Address :=
  {| toPrimitive := [("id", PStr "5GrwvaEF5zXb26Fz9rcQpDWS57CtERHpNehXCPcNoHGKutQY")];
     value_toHex := "0xd43593c715fdd31c61141abd04a99fd6822c8558854ccde39a5684e7a56da27d" |}.

Definition acctB : Address :=
  {| toPrimitive := [("id", PStr "5FHneW46xGXgs5mUiveU4sbTyGBzmstUspZC92UhjJM694ty")];
     value_toHex := "0x8eaf04151687736326c9fea17e25fc5287613693c912909cb226aa4794f26a48" |}.

End Criteria.

(** ** The switchboard ([switchboard.ts]) *)

Module Switchboard.
Import Criteria.

(** *** Data *)

Inductive XcmNotificationType := Sent | Received | Relayed | Timeout | Hop.

#[global] Instance XcmNotificationType_eq_dec : EqDecision XcmNotificationType.
Proof. solve_decision. Defined.

(** [events?: '*' | XcmNotificationType[]] *)
Inductive Events :=
| EventsAny
| EventsOf (types : list XcmNotificationType).

Record Subscription := {
  id : string;
  origin : string;
  senders : Senders;
  destinations : list string;
  events : option Events;
  ephemeral : bool;
  outboundTTL : Z
}.

(** The fields of [XcmNotifyMessage] the fan-out reads; the waypoint contexts
    are carried as one opaque value. [sender] has the type [matchSenders]
    takes. *)
Record XcmNotifyMessage := {
  subscriptionId : string;
  type : XcmNotificationType;
  sender : option ExtrinsicWithId;
  waypoint : string
}.

(** An Rx subscription is identified by a handle. *)
Record RxSubscriptionWithId := {
  chainId : string;
  sub : nat
}.

#[global] Instance RxSubscriptionWithId_eq_dec : EqDecision RxSubscriptionWithId.
Proof. solve_decision. Defined.

Record RxSubscriptionHandler := {
  descriptor : Subscription;
  sendersControl : ControlQuery;
  messageControl : ControlQuery;
  originSubs : list RxSubscriptionWithId;
  destinationSubs : list RxSubscriptionWithId;
  relaySub : option RxSubscriptionWithId
}.

Record SubscriptionStats := {
  stats_ephemeral : Z;
  stats_persistent : Z
}.

Record SwitchboardOptions := {
  subscriptionMaxPersistent : option Z;
  subscriptionMaxEphemeral : option Z
}.

Inductive SubscribeErrorCodes := TOO_MANY_SUBSCRIBERS.

(** The stream an observer leg is attached to. *)
Inductive Protocol :=
| OutboundDMP | OutboundDMPByEvent | OutboundHRMP | OutboundUMP
| InboundUMP | InboundDMP | InboundHRMP
| RelayXcm.

Record Observer := {
  obs_subscription : string;
  obs_stream : option string;
  obs_protocol : Protocol
}.

(** Calls into the collaborators the switchboard is constructed with: the
    subscription store ([#db.insert], [#db.remove]), the matching engine
    ([#engine.clearPendingStates]) and the shared block streams an observer
    subscribes to. Each of them may reject or throw. *)
Inductive External :=
| DbInsert (qs : Subscription)
| DbRemove (id : string)
| ClearPendingStates (id : string)
| Observe (o : Observer).

Inductive Error :=
| SubscribeError (code : SubscribeErrorCodes) (message : string)
| TypeError (message : string)
| FatalError (message : string)
| ExternalError (call : External).

Inductive Level := Debug | Info | Warn | Err.

(** Everything the switchboard does to the outside, in order. *)
Inductive Effect :=
| Called (call : External)
| Unsubscribed (sub : nat)
| Logged (level : Level) (text : string) (args : list string)
| Notified (descriptor : Subscription) (msg : XcmNotifyMessage).

(** Modelled from the spec: the surroundings of the switchboard. The
    ingress consumer flags a subset of the networks as relay chains
    ([isRelay], [getRelayIds]); [fails] tells which calls into a collaborator
    reject. *)
Record World := {
  isRelay : string → bool;
  getRelayIds : list string;
  fails : External → bool
}.

Record State := {
  subs : gmap string RxSubscriptionHandler;
  stats : SubscriptionStats;
  maxEphemeral : Z;
  maxPersistent : Z;
  observers : gmap nat Observer;
  nextSub : nat;
  db : gmap string Subscription;
  trace : list Effect
}.

(** [constructor]: no subscriptions, zeroed statistics, caps defaulting to
    [10_000]. *)
Definition constructor (options : SwitchboardOptions) : State :=
  {| subs := ∅;
     stats := {| stats_ephemeral := 0; stats_persistent := 0 |};
     maxEphemeral := default 10000%Z (subscriptionMaxEphemeral options);
     maxPersistent := default 10000%Z (subscriptionMaxPersistent options);
     observers := ∅;
     nextSub := 0;
     db := ∅;
     trace := [] |}.

Definition set_subs (f : gmap string RxSubscriptionHandler → gmap string RxSubscriptionHandler)
    (s : State) : State :=
  {| subs := f (subs s); stats := stats s;
     maxEphemeral := maxEphemeral s; maxPersistent := maxPersistent s;
     observers := observers s; nextSub := nextSub s; db := db s; trace := trace s |}.

Definition set_stats (f : SubscriptionStats → SubscriptionStats) (s : State) : State :=
  {| subs := subs s; stats := f (stats s);
     maxEphemeral := maxEphemeral s; maxPersistent := maxPersistent s;
     observers := observers s; nextSub := nextSub s; db := db s; trace := trace s |}.

Definition set_observers (f : gmap nat Observer → gmap nat Observer) (s : State) : State :=
  {| subs := subs s; stats := stats s;
     maxEphemeral := maxEphemeral s; maxPersistent := maxPersistent s;
     observers := f (observers s); nextSub := nextSub s; db := db s; trace := trace s |}.

Definition set_nextSub (n : nat) (s : State) : State :=
  {| subs := subs s; stats := stats s;
     maxEphemeral := maxEphemeral s; maxPersistent := maxPersistent s;
     observers := observers s; nextSub := n; db := db s; trace := trace s |}.

Definition set_db (f : gmap string Subscription → gmap string Subscription) (s : State) : State :=
  {| subs := subs s; stats := stats s;
     maxEphemeral := maxEphemeral s; maxPersistent := maxPersistent s;
     observers := observers s; nextSub := nextSub s; db := f (db s); trace := trace s |}.

Definition add_trace (es : list Effect) (s : State) : State :=
  {| subs := subs s; stats := stats s;
     maxEphemeral := maxEphemeral s; maxPersistent := maxPersistent s;
     observers := observers s; nextSub := nextSub s; db := db s;
     trace := trace s ++ es |}.

Definition set_descriptor (d : Subscription) (h : RxSubscriptionHandler) : RxSubscriptionHandler :=
  {| descriptor := d; sendersControl := sendersControl h; messageControl := messageControl h;
     originSubs := originSubs h; destinationSubs := destinationSubs h; relaySub := relaySub h |}.

Definition set_sendersControl (q : ControlQuery) (h : RxSubscriptionHandler) : RxSubscriptionHandler :=
  {| descriptor := descriptor h; sendersControl := q; messageControl := messageControl h;
     originSubs := originSubs h; destinationSubs := destinationSubs h; relaySub := relaySub h |}.

Definition set_messageControl (q : ControlQuery) (h : RxSubscriptionHandler) : RxSubscriptionHandler :=
  {| descriptor := descriptor h; sendersControl := sendersControl h; messageControl := q;
     originSubs := originSubs h; destinationSubs := destinationSubs h; relaySub := relaySub h |}.

Definition set_destinationSubs (l : list RxSubscriptionWithId) (h : RxSubscriptionHandler)
    : RxSubscriptionHandler :=
  {| descriptor := descriptor h; sendersControl := sendersControl h;
     messageControl := messageControl h;
     originSubs := originSubs h; destinationSubs := l; relaySub := relaySub h |}.

Definition set_relaySub (r : option RxSubscriptionWithId) (h : RxSubscriptionHandler)
    : RxSubscriptionHandler :=
  {| descriptor := descriptor h; sendersControl := sendersControl h;
     messageControl := messageControl h;
     originSubs := originSubs h; destinationSubs := destinationSubs h; relaySub := r |}.

(** *** Computations: state passing with exceptions *)

Inductive Result (A : Type) :=
| Ok (a : A)
| Throw (e : Error).
Arguments Ok {A} a.
Arguments Throw {A} e.

(** A method of the switchboard: it runs on the current state and either
    returns or throws; what it did before throwing stays done. *)
Definition M (A : Type) : Type := State → Result A * State.

#[global] Instance M_ret : MRet M := λ A a s, (Ok a, s).

#[global] Instance M_bind : MBind M := λ A B f m s,
  match m s with
  | (Ok a, s') => f a s'
  | (Throw e, s') => (Throw e, s')
  end.

Definition get : M State := λ s, (Ok s, s).
Definition modify (f : State → State) : M unit := λ s, (Ok tt, f s).
Definition throw {A} (e : Error) : M A := λ s, (Throw e, s).

(** [try { body } catch (e) { handler(e) }] *)
Definition try_catch {A} (body : M A) (handler : Error → M A) : M A := λ s,
  match body s with
  | (Ok a, s') => (Ok a, s')
  | (Throw e, s') => handler e s'
  end.

(** [xs.forEach(f)] *)
Fixpoint forEach {A} (xs : list A) (f : A → M unit) : M unit :=
  match xs with
  | [] => mret tt
  | x :: xs' => f x ;; forEach xs' f
  end.

Definition effect (e : Effect) : M unit := modify (add_trace [e]).

Definition log (level : Level) (text : string) (args : list string) : M unit :=
  effect (Logged level text args).

(** [sub.unsubscribe()] *)
Definition rx_unsubscribe (s : RxSubscriptionWithId) : M unit :=
  effect (Unsubscribed (sub s)) ;;
  modify (set_observers (delete (sub s))).

(** The destructuring [const { ... } = this.#subs[id]], which throws a
    [TypeError] on [undefined]. *)
Definition destructure_undefined : string :=
  "Cannot destructure property of 'this.#subs[id]' as it is undefined.".

Definition destructure (i : string) : M RxSubscriptionHandler :=
  st ← get;
  match subs st !! i with
  | Some h => mret h
  | None => throw (TypeError destructure_undefined)
  end.

Section Methods.
Context (w : World).

(** A call into a collaborator: recorded, then it resolves or rejects. *)
Definition external (c : External) : M unit :=
  effect (Called c) ;;
  if fails w c then throw (ExternalError c) else mret tt.

(** [observable.pipe(...).subscribe(observer)] *)
Definition rx_subscribe (o : Observer) : M nat :=
  external (Observe o) ;;
  st ← get;
  modify (set_observers (<[nextSub st := o]>)) ;;
  modify (set_nextSub (S (nextSub st))) ;;
  mret (nextSub st).

(** Modelled from the spec: [#db.insert(qs)] and [#db.remove(id)] of the
    subscription store, a keyed store of descriptors with an unconditional
    insert and an idempotent remove. *)
Definition db_insert (qs : Subscription) : M unit :=
  external (DbInsert qs) ;;
  modify (set_db (<[id qs := qs]>)).

Definition db_remove (i : string) : M unit :=
  external (DbRemove i) ;;
  modify (set_db (delete i)).

(** [#shouldMonitorRelay] *)
Definition shouldMonitorRelay (qs : Subscription) : bool :=
  match events qs with
  | None => true
  | Some EventsAny => true
  | Some (EventsOf types) => bool_decide (Relayed ∈ types)
  end
  && negb (isRelay w (origin qs))
  && existsb (fun d => negb (isRelay w d)) (destinations qs).

(** [subs.find((s) => s.chainId === chainId)], read for its truth value. *)
Definition find_chain (c : string) (l : list RxSubscriptionWithId) : bool :=
  existsb (λ s, bool_decide (chainId s = c)) l.

(** One [subs.push({ chainId, sub: ....subscribe(observer) })] inside
    [try { ... } catch (error) { subs.forEach(({ sub }) => sub.unsubscribe()); throw error }];
    [acc] is the local array [subs]. *)
Definition push_subscribed (acc : list RxSubscriptionWithId) (c : string) (o : Observer)
    : M (list RxSubscriptionWithId) :=
  try_catch
    (s ← rx_subscribe o; mret (acc ++ [ {| chainId := c; sub := s |} ]))
    (λ e, forEach acc rx_unsubscribe ;; throw e).

(** [#monitorOrigins] *)
Definition monitorOrigins (qs : Subscription)
    : M (list RxSubscriptionWithId * ControlQuery * ControlQuery) :=
  let c := origin qs in
  st ← get;
  if match subs st !! id qs with
     | Some h => find_chain c (originSubs h)
     | None => false
     end
  then throw (FatalError "Fatal: duplicated origin monitor")
  else
    let sendersControl := ControlQuery_from (sendersCriteria (senders qs)) in
    let messageControl := ControlQuery_from (messageCriteria (destinations qs)) in
    let leg p := {| obs_subscription := id qs; obs_stream := Some c; obs_protocol := p |} in
    subs2 ←
      (if isRelay w c then
         log Info "[%s] subscribe outbound DMP (%s)" [c; id qs] ;;
         subs1 ← push_subscribed [] c (leg OutboundDMP);
         log Info "[%s] subscribe outbound DMP - by event (%s)" [c; id qs] ;;
         push_subscribed subs1 c (leg OutboundDMPByEvent)
       else
         log Info "[%s] subscribe outbound HRMP (%s)" [c; id qs] ;;
         subs1 ← push_subscribed [] c (leg OutboundHRMP);
         log Info "[%s] subscribe outbound UMP (%s)" [c; id qs] ;;
         push_subscribed subs1 c (leg OutboundUMP));
    mret (subs2, sendersControl, messageControl).

(** The [for (const dest of destinations)] loop of [#monitorDestinations];
    [acc] is the local array [subs]. *)
Fixpoint monitorDestinations_loop (qs : Subscription) (dests : list string)
    (acc : list RxSubscriptionWithId) : M (list RxSubscriptionWithId) :=
  match dests with
  | [] => mret acc
  | dest :: rest =>
      st ← get;
      if match subs st !! id qs with
         | Some h => find_chain dest (destinationSubs h)
         | None => false
         end
      then monitorDestinations_loop qs rest acc
      else
        let leg p := {| obs_subscription := id qs; obs_stream := Some dest;
                        obs_protocol := p |} in
        acc' ←
          (if isRelay w dest then
             log Info "[%s] subscribe inbound UMP (%s)" [dest; id qs] ;;
             push_subscribed acc dest (leg InboundUMP)
           else if isRelay w (origin qs) then
             log Info "[%s] subscribe inbound DMP (%s)" [dest; id qs] ;;
             push_subscribed acc dest (leg InboundDMP)
           else
             log Info "[%s] subscribe inbound HRMP (%s)" [dest; id qs] ;;
             push_subscribed acc dest (leg InboundHRMP));
        monitorDestinations_loop qs rest acc'
  end.

(** [#monitorDestinations] *)
Definition monitorDestinations (qs : Subscription) : M (list RxSubscriptionWithId) :=
  monitorDestinations_loop qs (destinations qs) [].

(** [#monitorRelay]: the observer is attached to the stream of the first
    relay id; the returned [chainId] is the origin. *)
Definition monitorRelay (qs : Subscription) : M RxSubscriptionWithId :=
  let c := origin qs in
  st ← get;
  (if match subs st !! id qs with
      | Some h => bool_decide (is_Some (relaySub h))
      | None => false
      end
   then log Debug "Relay subscription already exists." []
   else mret tt) ;;
  let relayIds := getRelayIds w in
  log Info "[%s] subscribe relay %s xcm events (%s)" [c; default "undefined" (head relayIds); id qs] ;;
  s ← rx_subscribe {| obs_subscription := id qs; obs_stream := head relayIds;
                      obs_protocol := RelayXcm |};
  mret {| chainId := c; sub := s |}.

(** [#monitor]. The [catch] of the first [try] unsubscribes
    [origMonitor.subs], which is still empty when [#monitorOrigins] is the
    one that threw. *)
Definition monitor (qs : Subscription) : M unit :=
  '(origSubs, sendersControl, messageControl) ← monitorOrigins qs;
  destSubs ← try_catch (monitorDestinations qs)
               (λ e, forEach origSubs rx_unsubscribe ;; throw e);
  relaySub ←
    (if shouldMonitorRelay qs then
       try_catch (r ← monitorRelay qs; mret (Some r))
         (λ e, log Err "Error on relay subscription (%s)" [id qs] ;; mret None)
     else mret None);
  modify (set_subs (<[id qs :=
    {| descriptor := qs;
       sendersControl := sendersControl;
       messageControl := messageControl;
       originSubs := origSubs;
       destinationSubs := destSubs;
       relaySub := relaySub |}]>)) ;;
  if ephemeral qs
  then modify (set_stats (λ t, {| stats_ephemeral := stats_ephemeral t + 1;
                                  stats_persistent := stats_persistent t |}))
  else modify (set_stats (λ t, {| stats_ephemeral := stats_ephemeral t;
                                  stats_persistent := stats_persistent t + 1 |})).

(** [subscribe] *)
Definition subscribe (qs : Subscription) : M unit :=
  st ← get;
  if (maxEphemeral st <=? stats_ephemeral (stats st))%Z
     || (maxPersistent st <=? stats_persistent (stats st))%Z
  then throw (SubscribeError TOO_MANY_SUBSCRIBERS "too many subscriptions")
  else
    (if negb (ephemeral qs) then db_insert qs else mret tt) ;;
    monitor qs ;;
    log Info "[%s] new subscription: %j" [origin qs; id qs].

(** [unsubscribe] *)
Definition unsubscribe (i : string) : M unit :=
  st ← get;
  match subs st !! i with
  | None => log Warn "unsubscribe from a non-existent subscription %s" [i]
  | Some h =>
      try_catch
        (log Info "[%s] unsubscribe %s" [origin (descriptor h); i] ;;
         forEach (originSubs h) rx_unsubscribe ;;
         forEach (destinationSubs h) rx_unsubscribe ;;
         match relaySub h with
         | Some r => rx_unsubscribe r
         | None => mret tt
         end ;;
         modify (set_subs (delete i)) ;;
         external (ClearPendingStates i) ;;
         if ephemeral (descriptor h)
         then modify (set_stats (λ t, {| stats_ephemeral := stats_ephemeral t - 1;
                                         stats_persistent := stats_persistent t |}))
         else
           modify (set_stats (λ t, {| stats_ephemeral := stats_ephemeral t;
                                      stats_persistent := stats_persistent t - 1 |})) ;;
           db_remove i)
        (λ e, log Err "Error unsubscribing %s" [i])
  end.

(** [updateSenders] *)
Definition updateSenders (i : string) : M unit :=
  h ← destructure i;
  modify (set_subs (<[i :=
    set_sendersControl (change (sendersControl h) (sendersCriteria (senders (descriptor h)))) h]>)).

(** [#updateDestinationSubscriptions] *)
Definition updateDestinationSubscriptions (i : string) : M (list RxSubscriptionWithId) :=
  h ← destructure i;
  new ← monitorDestinations (descriptor h);
  let updatedSubs := destinationSubs h ++ new in
  let removed :=
    filter (λ s, chainId s ∉ destinations (descriptor h)) updatedSubs in
  forEach removed rx_unsubscribe ;;
  mret (filter (λ s, s ∉ removed) updatedSubs).

(** [updateDestinations] *)
Definition updateDestinations (i : string) : M unit :=
  h ← destructure i;
  modify (set_subs (<[i :=
    set_messageControl
      (change (messageControl h) (messageCriteria (destinations (descriptor h)))) h]>)) ;;
  updatedSubs ← updateDestinationSubscriptions i;
  modify (set_subs (alter (set_destinationSubs updatedSubs) i)).

(** [updateEvents] *)
Definition updateEvents (i : string) : M unit :=
  h ← destructure i;
  if shouldMonitorRelay (descriptor h) && bool_decide (relaySub h = None) then
    try_catch
      (r ← monitorRelay (descriptor h);
       modify (set_subs (alter (set_relaySub (Some r)) i)))
      (λ e, log Err "Error on relay subscription (%s)" [i])
  else
    match relaySub h with
    | Some r =>
        if negb (shouldMonitorRelay (descriptor h)) then
          rx_unsubscribe r ;;
          modify (set_subs (alter (set_relaySub None) i))
        else mret tt
    | None => mret tt
    end.

(** [updateSubscription] *)
Definition updateSubscription (sub : Subscription) : M unit :=
  st ← get;
  match subs st !! id sub with
  | Some h => modify (set_subs (<[id sub := set_descriptor sub h]>))
  | None => log Warn "trying to update an unknown subscription %s" [id sub]
  end.

(** [descriptor.events === undefined || descriptor.events === '*' ||
    descriptor.events.includes(msg.type)] *)
Definition events_admit (ev : option Events) (t : XcmNotificationType) : bool :=
  match ev with
  | None => true
  | Some EventsAny => true
  | Some (EventsOf types) => bool_decide (t ∈ types)
  end.

(** [#onXcmWaypointReached], the callback the engine emits to. *)
Definition onXcmWaypointReached (msg : XcmNotifyMessage) : M unit :=
  st ← get;
  match subs st !! subscriptionId msg with
  | Some h =>
      if events_admit (events (descriptor h)) (type msg)
         && matchSenders (sendersControl h) (sender msg)
      then effect (Notified (descriptor h) msg)
      else mret tt
  | None =>
      log Warn "Unable to find descriptor for subscription %s" [subscriptionId msg]
  end.

End Methods.

(** The notifications handed to the [NotifierHub] between two states. *)
Definition notifications (es : list Effect) : list (Subscription * XcmNotifyMessage) :=
  omap (λ e, match e with Notified d m => Some (d, m) | _ => None end) es.

(** Running a method: the state it leaves, and what it added to the trace. *)
Definition exec {A} (m : M A) (st : State) : State := (m st).2.

Definition new_effects (before after : State) : list Effect :=
  drop (length (trace before)) (trace after).

(** *** Notions used to state the properties *)

(** The delivered notifications of one fan-out step. *)
Definition delivered (msg : XcmNotifyMessage) (st : State)
    : list (Subscription * XcmNotifyMessage) :=
  notifications (new_effects st (exec (onXcmWaypointReached msg) st)).

(** The state after [sub.unsubscribe()] on one leg, and on a list of legs. *)
Definition detach1 (s : RxSubscriptionWithId) (st : State) : State :=
  set_observers (delete (sub s)) (add_trace [Unsubscribed (sub s)] st).

Fixpoint detach (l : list RxSubscriptionWithId) (st : State) : State :=
  match l with
  | [] => st
  | s :: l' => detach l' (detach1 s st)
  end.

(** The legs of a handler, in the order [unsubscribe] detaches them. *)
Definition legs (h : RxSubscriptionHandler) : list RxSubscriptionWithId :=
  originSubs h ++ destinationSubs h ++ option_list (relaySub h).

(** The state [unsubscribe] reaches when it calls the engine, and the one it
    leaves. *)
Definition unsubscribe_cleared (i : string) (h : RxSubscriptionHandler) (st : State) : State :=
  add_trace [Called (ClearPendingStates i)]
    (set_subs (delete i)
       (detach (legs h)
          (add_trace [Logged Info "[%s] unsubscribe %s" [origin (descriptor h); i]] st))).

Definition unsubscribe_final (w : World) (i : string) (h : RxSubscriptionHandler)
    (st : State) : State :=
  let s1 := unsubscribe_cleared i h st in
  let failed := add_trace [Logged Err "Error unsubscribing %s" [i]] in
  if fails w (ClearPendingStates i) then failed s1
  else if ephemeral (descriptor h) then
    set_stats (λ t, {| stats_ephemeral := stats_ephemeral t - 1;
                       stats_persistent := stats_persistent t |}) s1
  else
    let s2 := add_trace [Called (DbRemove i)]
                (set_stats (λ t, {| stats_ephemeral := stats_ephemeral t;
                                    stats_persistent := stats_persistent t - 1 |}) s1) in
    if fails w (DbRemove i) then failed s2 else set_db (delete i) s2.

(** What [unsubscribe] still does after it has called the engine. *)
Definition unsubscribe_tail (w : World) (i : string) (h : RxSubscriptionHandler)
    : list Effect :=
  let failed := [Logged Err "Error unsubscribing %s" [i]] in
  if fails w (ClearPendingStates i) then failed
  else if ephemeral (descriptor h) then []
  else Called (DbRemove i) :: (if fails w (DbRemove i) then failed else []).

(** The observer [#monitorRelay] attaches for a descriptor. *)
Definition relay_observer (w : World) (qs : Subscription) : Observer :=
  {| obs_subscription := id qs; obs_stream := head (getRelayIds w);
     obs_protocol := RelayXcm |}.

(** Registering a new Rx subscription under the next handle. *)
Definition attach (o : Observer) (st : State) : State :=
  set_nextSub (S (nextSub st)) (set_observers (<[nextSub st := o]>) st).

(** What [#monitorRelay] logs before it subscribes. *)
Definition monitorRelay_logged (w : World) (qs : Subscription) (st : State) : State :=
  add_trace
    [Logged Info "[%s] subscribe relay %s xcm events (%s)"
       [origin qs; default "undefined" (head (getRelayIds w)); id qs]]
    (if match subs st !! id qs with
        | Some h => bool_decide (is_Some (relaySub h))
        | None => false
        end
     then add_trace [Logged Debug "Relay subscription already exists." []] st
     else st).

(** What [updateEvents] does to a registered subscription, by cases. *)
Definition updateEvents_final (w : World) (i : string) (h : RxSubscriptionHandler)
    (st : State) : State :=
  let ro := relay_observer w (descriptor h) in
  if shouldMonitorRelay w (descriptor h) then
    match relaySub h with
    | Some _ => st
    | None =>
        let s1 := add_trace [Called (Observe ro)] (monitorRelay_logged w (descriptor h) st) in
        if fails w (Observe ro)
        then add_trace [Logged Err "Error on relay subscription (%s)" [i]] s1
        else set_subs
               (alter (set_relaySub
                         (Some {| chainId := origin (descriptor h); sub := nextSub st |})) i)
               (attach ro s1)
    end
  else
    match relaySub h with
    | Some r => set_subs (alter (set_relaySub None) i) (detach1 r st)
    | None => st
    end.

(** A method keeps a relation between the state it starts from and the one
    it leaves; for a preorder this follows the structure of the method. *)
Definition keeps (R : State → State → Prop) {A} (m : M A) : Prop :=
  ∀ s, R s (m s).2.

(** The effects that are calls to the subscription store. *)
Definition store_call (e : Effect) : Prop :=
  match e with
  | Called (DbInsert _) | Called (DbRemove _) => True
  | _ => False
  end.

(** From [s] to [s'] the store keeps its contents and is not called. *)
Definition store_untouched (s s' : State) : Prop :=
  db s' = db s ∧ ∃ es, trace s' = trace s ++ es ∧ Forall (λ e, ¬ store_call e) es.

(** The caps of [subscribe]. *)
Definition at_cap (st : State) : bool :=
  (maxEphemeral st <=? stats_ephemeral (stats st))%Z
  || (maxPersistent st <=? stats_persistent (stats st))%Z.

(** The state in which [subscribe] starts [#monitor] for a descriptor that
    is not ephemeral. *)
Definition persisted (qs : Subscription) (st : State) : State :=
  set_db (<[id qs := qs]>) (add_trace [Called (DbInsert qs)] st).

(** What follows the store in [subscribe]. *)
Definition monitor_and_log (w : World) (qs : Subscription) : M unit :=
  monitor w qs ;; log Info "[%s] new subscription: %j" [origin qs; id qs].

(** An effect that hands a message of subscription [i] to the notifier. *)
Definition notifies (i : string) (e : Effect) : Prop :=
  match e with
  | Notified _ m => subscriptionId m = i
  | _ => False
  end.

(** From [s] to [s'], an id that is not registered stays unregistered and
    nothing is delivered for it. *)
Definition stays_unsubscribed (i : string) (s s' : State) : Prop :=
  subs s !! i = None →
  subs s' !! i = None
  ∧ ∃ es, trace s' = trace s ++ es ∧ Forall (λ e, ¬ notifies i e) es.

(** The operations of the switchboard, as a caller or the engine invokes
    them one after the other; an operation that throws leaves what it did
    and the next one runs on that state. *)
Inductive Op :=
| OpSubscribe (qs : Subscription)
| OpUnsubscribe (i : string)
| OpUpdateSubscription (sub : Subscription)
| OpUpdateSenders (i : string)
| OpUpdateDestinations (i : string)
| OpUpdateEvents (i : string)
| OpWaypointReached (msg : XcmNotifyMessage).

Definition perform (w : World) (op : Op) : M unit :=
  match op with
  | OpSubscribe qs => subscribe w qs
  | OpUnsubscribe i => unsubscribe w i
  | OpUpdateSubscription sub => updateSubscription sub
  | OpUpdateSenders i => updateSenders i
  | OpUpdateDestinations i => updateDestinations w i
  | OpUpdateEvents i => updateEvents w i
  | OpWaypointReached msg => onXcmWaypointReached msg
  end.

Fixpoint perform_all (w : World) (ops : list Op) (st : State) : State :=
  match ops with
  | [] => st
  | op :: rest => perform_all w rest (exec (perform w op) st)
  end.

(** [op] registers a subscription under the id [i]. *)
Definition subscribes (i : string) (op : Op) : Prop :=
  match op with
  | OpSubscribe qs => id qs = i
  | _ => False
  end.

(** *** A small network used by the examples: one relay chain and two
    parachains, with collaborators that never reject. *)
Definition sample_world : World :=
  {| isRelay := λ c, bool_decide (c = "urn:ocn:polkadot:0");
     getRelayIds := ["urn:ocn:polkadot:0"];
     fails := λ _, false |}.

Definition default_options : SwitchboardOptions :=
  {| subscriptionMaxPersistent := None; subscriptionMaxEphemeral := None |}.

Definition sample_subscription : Subscription :=
  {| id := "s1";
     origin := "urn:ocn:polkadot:1000";
     senders := SendersAny;
     destinations := ["urn:ocn:polkadot:2004"];
     events := Some EventsAny;
     ephemeral := false;
     outboundTTL := 21600000 |}.

(** The same subscription with its senders narrowed to [acctA]. *)
Definition sample_subscription_listed : Subscription :=
  {| id := "s1";
     origin := "urn:ocn:polkadot:1000";
     senders := SendersList ["5GrwvaEF5zXb26Fz9rcQpDWS57CtERHpNehXCPcNoHGKutQY"];
     destinations := ["urn:ocn:polkadot:2004"];
     events := Some EventsAny;
     ephemeral := false;
     outboundTTL := 21600000 |}.

(** The switchboard after [subscribe(sample_subscription)]. *)
Definition sample_subscribed : State :=
  exec (subscribe sample_world sample_subscription) (constructor default_options).

(** A [Received] notification for [s1] whose sender is [acctB]. *)
Definition sample_received_from_B : XcmNotifyMessage :=
  {| subscriptionId := "s1";
     type := Received;
     sender := Some {| signer := acctB; extraSigners := [] |};
     waypoint := "0xAA" |}.

(** A [Received] notification for [s1] whose sender is [acctA]. *)
Definition sample_received_from_A : XcmNotifyMessage :=
  {| subscriptionId := "s1";
     type := Received;
     sender := Some {| signer := acctA; extraSigners := [] |};
     waypoint := "0xAA" |}.

(** A [Sent] notification for [s1] whose sender is unknown. *)
Definition sample_sent_by_unknown : XcmNotifyMessage :=
  {| subscriptionId := "s1";
     type := Sent;
     sender := None;
     waypoint := "0xAA" |}.

End Switchboard.

(** ** Further notions: the matching engine *)

Module EngineNotions.
Import Engine.

(** No confirmation key is pending on both sides. *)
Definition disjoint_stores (st : State) : Prop :=
  ∀ k, outbound st !! k = None ∨ inbound st !! k = None.

(** Every pending entry is filed under its own confirmation key. *)
Definition well_keyed (st : State) : Prop :=
  (∀ k o, outbound st !! k = Some o → outKey o = k)
  ∧ (∀ k i, inbound st !! k = Some i → inKey i = k).

(** A notification joins two legs of one confirmation key. *)
Definition joins_one_key (n : XcmMessageNotify) : Prop :=
  outKey (notify_out n) = inKey (notify_in n).

(** The string holds no [':']. *)
Fixpoint colon_free (s : string) : bool :=
  match s with
  | EmptyString => true
  | String c rest => negb (Ascii.eqb c ":"%char) && colon_free rest
  end.

Definition is_sent (l : Leg) : bool :=
  match l with
  | Sent _ => true
  | Received _ => false
  end.

(** The number of pending entries on both sides. *)
Definition pending (st : State) : nat :=
  size (outbound st) + size (inbound st).

(** A second sent leg for the key of [sample_sent], observed in a later block. *)
Definition sample_sent_again : XcmMessageSent :=
  {| sent_messageHash := "0xAA";
     sent_recipient := "urn:ocn:polkadot:2004";
     sent_chainId := "urn:ocn:polkadot:1000";
     sent_body := "sent at #2" |}.

(** A received leg of another message, on another chain. *)
Definition sample_received_other : XcmMessageReceived :=
  {| recv_messageHash := "0xBB";
     recv_chainId := "urn:ocn:polkadot:2000";
     recv_body := "received at #9" |}.

End EngineNotions.

(** ** Further notions: the sender criteria *)

Module CriteriaNotions.
Import Criteria.

(** The value of the last property named [k] that a codec primitive lists,
    which is the one [Object.assign] leaves in the document. *)
Fixpoint last_property (k : string) (props : list (string * Prim)) : option Prim :=
  match props with
  | [] => None
  | (k', v) :: rest =>
      match last_property k rest with
      | Some v' => Some v'
      | None => if String.eqb k' k then Some v else None
      end
  end.

(** The account address an [Address] shows as its [id], when it has one. *)
Definition address_id (a : Address) : option string :=
  match last_property "id" (toPrimitive a) with
  | Some (PStr s) => Some s
  | _ => None
  end.

(** The signer and the extra signers of an extrinsic. *)
Definition signers (xt : ExtrinsicWithId) : list Address :=
  signer xt :: map signer_address (extraSigners xt).

(** [a] is listed in [senders], by its public key or by its address. *)
Definition listed (senders : list string) (a : Address) : Prop :=
  value_toHex a ∈ senders ∨ ∃ s, address_id a = Some s ∧ s ∈ senders.

(** An extrinsic signed by [acctA] with [acctB] as an extra signer. *)
Definition sample_extrinsic : ExtrinsicWithId :=
  {| signer := acctA;
     extraSigners := [ {| signer_type := "proxy"; signer_address := acctB |} ] |}.

End CriteriaNotions.

(** ** Further notions: the switchboard *)

Module SwitchboardNotions.
Import Criteria Switchboard.
#[local] Open Scope nat_scope.

(** The subscription id an operation is about; the fan-out is about none. *)
Definition op_id (op : Op) : option string :=
  match op with
  | OpSubscribe qs => Some (id qs)
  | OpUnsubscribe i => Some i
  | OpUpdateSubscription sub => Some (id sub)
  | OpUpdateSenders i => Some i
  | OpUpdateDestinations i => Some i
  | OpUpdateEvents i => Some i
  | OpWaypointReached _ => None
  end.

(** From [s] to [s'] the handler registered under [i] is the same. *)
Definition handler_kept (i : string) (s s' : State) : Prop :=
  subs s' !! i = subs s !! i.


(** From [s] to [s'] the caps and the counters are the same. *)
Definition counters_kept (s s' : State) : Prop :=
  stats s' = stats s
  ∧ maxEphemeral s' = maxEphemeral s ∧ maxPersistent s' = maxPersistent s.

(** From [s] to [s'] the caps are the same and no counter has grown. *)
Definition no_growth (s s' : State) : Prop :=
  maxEphemeral s' = maxEphemeral s ∧ maxPersistent s' = maxPersistent s
  ∧ (stats_ephemeral (stats s') ≤ stats_ephemeral (stats s))%Z
  ∧ (stats_persistent (stats s') ≤ stats_persistent (stats s))%Z.

(** The counter a descriptor is counted in, incremented. *)
Definition counted (qs : Subscription) (t : SubscriptionStats) : SubscriptionStats :=
  if ephemeral qs
  then {| stats_ephemeral := stats_ephemeral t + 1; stats_persistent := stats_persistent t |}
  else {| stats_ephemeral := stats_ephemeral t; stats_persistent := stats_persistent t + 1 |}.

(** No handle from the next one on is in use. *)
Definition fresh (st : State) : Prop :=
  ∀ n, nextSub st ≤ n → observers st !! n = None.

(** Leg [x] is attached in [st], with an observer that [P] accepts. *)
Definition attached (P : RxSubscriptionWithId → Observer → Prop) (st : State)
    (x : RxSubscriptionWithId) : Prop :=
  ∃ o, observers st !! sub x = Some o ∧ P x o.

(** The observer works for subscription [i]. *)
Definition tagged (i : string) : RxSubscriptionWithId → Observer → Prop :=
  λ _ o, obs_subscription o = i.

(** Every handler is registered under the id of its descriptor, and holds
    legs with distinct handles, each attached for that subscription. *)
Definition sound (st : State) : Prop :=
  fresh st
  ∧ ∀ i h, subs st !! i = Some h →
      id (descriptor h) = i
      ∧ NoDup (sub <$> legs h)
      ∧ Forall (attached (tagged i) st) (legs h).

(** The legs [acc] are those attached from handle [n0] on. *)
Definition tracked (n0 : nat) (P : RxSubscriptionWithId → Observer → Prop)
    (acc : list RxSubscriptionWithId) (s : State) : Prop :=
  n0 ≤ nextSub s
  ∧ fresh s
  ∧ NoDup (sub <$> acc)
  ∧ (∀ k, n0 ≤ k → is_Some (observers s !! k) → k ∈ sub <$> acc)
  ∧ Forall (λ x, n0 ≤ sub x ∧ attached P s x) acc.

(** From [s] to [s'] the registry, the counters and the store are the same,
    and so is every handle below [n0]. *)
Definition older_kept (n0 : nat) (s s' : State) : Prop :=
  subs s' = subs s ∧ stats s' = stats s ∧ db s' = db s
  ∧ maxEphemeral s' = maxEphemeral s ∧ maxPersistent s' = maxPersistent s
  ∧ ∀ k, k < n0 → observers s' !! k = observers s !! k.

(** The observers [#monitorOrigins] attaches to the origin, the first and
    the second, and the one [#monitorDestinations] attaches to a
    destination. *)
Definition origin_observer (w : World) (qs : Subscription) (second : bool) : Observer :=
  {| obs_subscription := id qs;
     obs_stream := Some (origin qs);
     obs_protocol :=
       if isRelay w (origin qs)
       then (if second then OutboundDMPByEvent else OutboundDMP)
       else (if second then OutboundUMP else OutboundHRMP) |}.

Definition destination_observer (w : World) (qs : Subscription) (dest : string) : Observer :=
  {| obs_subscription := id qs;
     obs_stream := Some dest;
     obs_protocol :=
       if isRelay w dest then InboundUMP
       else if isRelay w (origin qs) then InboundDMP
       else InboundHRMP |}.

(** [this.#subs[id]?.destinationSubs.find((s) => s.chainId === dest)], read
    for its truth value. *)
Definition monitored_destination (st : State) (qs : Subscription) (dest : string) : bool :=
  match subs st !! id qs with
  | Some h => find_chain dest (destinationSubs h)
  | None => false
  end.

(** The destinations of a descriptor for which [#monitorDestinations]
    subscribes. *)
Definition new_destinations (st : State) (qs : Subscription) : list string :=
  filter (λ d, monitored_destination st qs d = false) (destinations qs).

(** The leg watches its own chain as a destination of [qs]. *)
Definition watches_destination (w : World) (qs : Subscription)
    : RxSubscriptionWithId → Observer → Prop :=
  λ x o, o = destination_observer w qs (chainId x).

(** The leg holds handle [n0] with the first observer of the origin, or the
    next handle with the second. *)
Definition watches_origin (w : World) (qs : Subscription) (n0 : nat)
    : RxSubscriptionWithId → Observer → Prop :=
  λ x o, chainId x = origin qs
         ∧ ((sub x = n0 ∧ o = origin_observer w qs false)
            ∨ (sub x = S n0 ∧ o = origin_observer w qs true)).

(** The leg is attached with the relay observer of [qs]. *)
Definition watches_relay (w : World) (qs : Subscription)
    : RxSubscriptionWithId → Observer → Prop :=
  λ _ o, o = relay_observer w qs.

(** What [#monitor] has done when it returns: [h] is registered under the
    id of [qs] and counted; its legs are the handles in use from the former
    next handle on, each attached for [qs]; the handles below are as they
    were. *)
Definition monitored (w : World) (qs : Subscription) (s : State)
    (h : RxSubscriptionHandler) (s' : State) : Prop :=
  subs s' = <[id qs := h]> (subs s)
  ∧ stats s' = counted qs (stats s)
  ∧ db s' = db s
  ∧ maxEphemeral s' = maxEphemeral s ∧ maxPersistent s' = maxPersistent s
  ∧ (∀ k, k < nextSub s → observers s' !! k = observers s !! k)
  ∧ tracked (nextSub s) (tagged (id qs)) (legs h) s'
  ∧ descriptor h = qs
  ∧ sendersControl h = ControlQuery_from (sendersCriteria (senders qs))
  ∧ messageControl h = ControlQuery_from (messageCriteria (destinations qs))
  ∧ originSubs h = [ {| chainId := origin qs; sub := nextSub s |};
                     {| chainId := origin qs; sub := S (nextSub s) |} ]
  ∧ Forall (attached (watches_origin w qs (nextSub s)) s') (originSubs h)
  ∧ chainId <$> destinationSubs h = new_destinations s qs
  ∧ Forall (attached (watches_destination w qs) s') (destinationSubs h)
  ∧ Forall (attached (watches_relay w qs) s') (option_list (relaySub h)).

(** The destination legs [#updateDestinationSubscriptions] unsubscribes,
    and the ones it keeps, out of the legs held and the new ones. *)
Definition removed_legs (qs : Subscription) (updatedSubs : list RxSubscriptionWithId)
    : list RxSubscriptionWithId :=
  filter (λ x, chainId x ∉ destinations qs) updatedSubs.

Definition kept_legs (qs : Subscription) (updatedSubs : list RxSubscriptionWithId)
    : list RxSubscriptionWithId :=
  filter (λ x, x ∉ removed_legs qs updatedSubs) updatedSubs.

(** The handler with the message control that [updateDestinations] sets. *)
Definition with_destinations (h : RxSubscriptionHandler) : RxSubscriptionHandler :=
  set_messageControl
    (change (messageControl h) (messageCriteria (destinations (descriptor h)))) h.

(** A second subscription, ephemeral, from the relay chain. *)
Definition sample_subscription_2 : Subscription :=
  {| id := "s2";
     origin := "urn:ocn:polkadot:0";
     senders := SendersAny;
     destinations := ["urn:ocn:polkadot:1000"; "urn:ocn:polkadot:2004"];
     events := None;
     ephemeral := true;
     outboundTTL := 21600000 |}.

(** The first subscription again, from another origin. *)
Definition sample_subscription_moved : Subscription :=
  {| id := "s1";
     origin := "urn:ocn:polkadot:2000";
     senders := SendersAny;
     destinations := ["urn:ocn:polkadot:2004"];
     events := Some EventsAny;
     ephemeral := false;
     outboundTTL := 21600000 |}.

(** The first subscription with another destination. *)
Definition sample_subscription_rerouted : Subscription :=
  {| id := "s1";
     origin := "urn:ocn:polkadot:1000";
     senders := SendersAny;
     destinations := ["urn:ocn:polkadot:2000"];
     events := Some EventsAny;
     ephemeral := false;
     outboundTTL := 21600000 |}.

(** The sample network with an inbound HRMP stream that rejects its
    observers. *)
Definition deaf_world : World :=
  {| isRelay := isRelay sample_world;
     getRelayIds := getRelayIds sample_world;
     fails := λ c, match c with
                   | Observe o =>
                       match obs_protocol o with InboundHRMP => true | _ => false end
                   | _ => false
                   end |}.


End SwitchboardNotions.

(** ** The distributed ingress consumer: the networks it knows *)

Module Ingress.
Import Switchboard.

(** A [NetworkEntry], as the consumer reads it: [network.id] and
    [network.isRelay]. *)
Record NetworkEntry := {
  net_id : string;
  net_isRelay : bool;
}.

(** [#networks: NetworkRecord], a JS object keyed by network id: its keys
    are listed in the order of their first assignment. *)
Definition NetworkRecord := list (string * NetworkEntry).

(** [networks[c]] *)
Fixpoint lookup_network (c : string) (nets : NetworkRecord) : option NetworkEntry :=
  match nets with
  | [] => None
  | (k, v) :: rest => if decide (k = c) then Some v else lookup_network c rest
  end.

(** [networks[c] = v]: in place for a key that is there, at the end for a
    new one. *)
Fixpoint assign (c : string) (v : NetworkEntry) (nets : NetworkRecord) : NetworkRecord :=
  match nets with
  | [] => [(c, v)]
  | (k, v') :: rest => if decide (k = c) then (k, v) :: rest else (k, v') :: assign c v rest
  end.

Inductive Effect :=
| LogRead (i : string) (relay : bool)
| SetTimeout
| TelemetryIngressConsumerError (what : string)
| LogError.

Record Consumer := {
  networks : NetworkRecord;
  effects : list Effect;
}.

Definition constructor : Consumer := {| networks := []; effects := [] |}.

Definition add_effects (es : list Effect) (c : Consumer) : Consumer :=
  {| networks := networks c; effects := effects c ++ es |}.

(** [getChainIds] *)
Definition getChainIds (c : Consumer) : list string := (networks c).*1.

(** [getRelayIds] *)
Definition getRelayIds (c : Consumer) : list string :=
  (filter (λ kv, net_isRelay kv.2 = true) (networks c)).*1.

(** [isRelay]: [undefined] for a network that is not known. *)
Definition isRelay (c : Consumer) (chainId : string) : option bool :=
  net_isRelay <$> lookup_network chainId (networks c).


(** The loop of [#networksFromRedis] over the members of the set; a member
    that [JSON.parse] rejects is [None], and ends the loop by a throw. The
    result tells whether the loop came to its end. *)
Fixpoint read_members (members : list (option NetworkEntry)) (c : Consumer)
    : bool * Consumer :=
  match members with
  | [] => (true, c)
  | None :: _ => (false, c)
  | Some network :: rest =>
      read_members rest
        (match lookup_network (net_id network) (networks c) with
         | None =>
             {| networks := assign (net_id network) network (networks c);
                effects := effects c ++ [LogRead (net_id network) (net_isRelay network)] |}
         | Some _ => c
         end)
  end.

(** [#networksFromRedis], on the reply of [smembers], which is [None] when
    the call rejects. The result tells whether it returned. *)
Definition networksFromRedis (reply : option (list (option NetworkEntry))) (c : Consumer)
    : bool * Consumer :=
  let thrown c' :=
    (false, add_effects [TelemetryIngressConsumerError "readNetworks"; LogError] c') in
  match reply with
  | None => thrown c
  | Some members =>
      match read_members members c with
      | (true, c') => (true, add_effects [SetTimeout] c')
      | (false, c') => thrown c'
      end
  end.

(** The consumer after the replies of a series of refreshes, from its
    construction. *)
Definition refreshed (replies : list (option (list (option NetworkEntry)))) : Consumer :=
  foldl (λ c reply, (networksFromRedis reply c).2) constructor replies.

(** Every entry is filed under its own id, and no id twice. *)
Definition well_filed (nets : NetworkRecord) : Prop :=
  NoDup nets.*1 ∧ Forall (λ kv, net_id kv.2 = kv.1) nets.

(** The networks logged as read, in order. *)
Definition logged_reads (c : Consumer) : list string :=
  omap (λ e, match e with LogRead i _ => Some i | _ => None end) (effects c).


(** The switchboard's view of the network through a consumer; [isRelay] is
    read for its truth value. *)
Definition world_of (c : Consumer) (fails : External → bool) : World :=
  {| Switchboard.isRelay := λ chainId, default false (isRelay c chainId);
     Switchboard.getRelayIds := getRelayIds c;
     Switchboard.fails := fails |}.

(** The sets of networks of two refreshes. *)
Definition sample_reply : list (option NetworkEntry) :=
  [ Some {| net_id := "urn:ocn:polkadot:0"; net_isRelay := true |};
    Some {| net_id := "urn:ocn:polkadot:1000"; net_isRelay := false |} ].


End Ingress.

(** * Properties *)

(** ** The matching engine *)

Module EngineFacts.
Import Engine.

Lemma newly_emitted_app (st st' : State) (ns : list XcmMessageNotify) :
  emitted st' = emitted st ++ ns → newly_emitted st st' = ns.
Proof.
  intros E. unfold newly_emitted. rewrite E. apply drop_app_length.
Qed.

(** The two branches of each handler, as equations. *)
Lemma onOutboundMessage_stores (o : XcmMessageSent) (st : State) :
  inbound st !! outKey o = None →
  onOutboundMessage o st =
    {| outbound := <[outKey o := o]> (outbound st);
       inbound := inbound st;
       emitted := emitted st;
       log := log st ++ [LogStored (sent_chainId o) (outKey o)] |}.
Proof. intros H. unfold onOutboundMessage. by rewrite H. Qed.

Lemma onOutboundMessage_matches (o : XcmMessageSent) (i : XcmMessageReceived) (st : State) :
  inbound st !! outKey o = Some i →
  onOutboundMessage o st =
    {| outbound := outbound st;
       inbound := delete (outKey o) (inbound st);
       emitted := emitted st ++ [ {| notify_out := o; notify_in := i |} ];
       log := log st ++ [LogMatched (sent_chainId o) (outKey o)] |}.
Proof. intros H. unfold onOutboundMessage. by rewrite H. Qed.

Lemma onInboundMessage_stores (i : XcmMessageReceived) (st : State) :
  outbound st !! inKey i = None →
  onInboundMessage i st =
    {| outbound := outbound st;
       inbound := <[inKey i := i]> (inbound st);
       emitted := emitted st;
       log := log st ++ [LogStored (recv_chainId i) (inKey i)] |}.
Proof. intros H. unfold onInboundMessage. by rewrite H. Qed.

Lemma onInboundMessage_matches (o : XcmMessageSent) (i : XcmMessageReceived) (st : State) :
  outbound st !! inKey i = Some o →
  onInboundMessage i st =
    {| outbound := delete (inKey i) (outbound st);
       inbound := inbound st;
       emitted := emitted st ++ [ {| notify_out := o; notify_in := i |} ];
       log := log st ++ [LogMatched (recv_chainId i) (inKey i)] |}.
Proof. intros H. unfold onInboundMessage. by rewrite H. Qed.

(** Both legs of one message compute the same confirmation key. *)
Lemma same_key (o : XcmMessageSent) (i : XcmMessageReceived) :
  sent_messageHash o = recv_messageHash i →
  recv_chainId i = sent_recipient o →
  inKey i = outKey o.
Proof. intros Hh Hc. unfold inKey, outKey. by rewrite Hh, Hc. Qed.

(** Sent first, then received. *)
Lemma match_in_order (st : State) (o : XcmMessageSent) (i : XcmMessageReceived) :
  inKey i = outKey o →
  inbound st !! outKey o = None →
  let st' := run [Sent o; Received i] st in
  emitted st' = emitted st ++ [ {| notify_out := o; notify_in := i |} ]
  ∧ outbound st' !! outKey o = None
  ∧ inbound st' = inbound st.
Proof.
  intros Hk Hin. cbn.
  rewrite (onOutboundMessage_stores o st Hin).
  rewrite (onInboundMessage_matches o i); cbn.
  - rewrite Hk. by rewrite lookup_delete_eq.
  - rewrite Hk. by rewrite lookup_insert_eq.
Qed.

(** Received first, then sent. *)
Lemma match_out_of_order (st : State) (o : XcmMessageSent) (i : XcmMessageReceived) :
  inKey i = outKey o →
  outbound st !! outKey o = None →
  let st' := run [Received i; Sent o] st in
  emitted st' = emitted st ++ [ {| notify_out := o; notify_in := i |} ]
  ∧ inbound st' !! outKey o = None
  ∧ outbound st' = outbound st.
Proof.
  intros Hk Hout. cbn.
  rewrite (onInboundMessage_stores i st) by (by rewrite Hk).
  rewrite (onOutboundMessage_matches o i); cbn.
  - by rewrite lookup_delete_eq.
  - rewrite Hk. by rewrite lookup_insert_eq.
Qed.

(** C1. For a sent and a received observation with the same [messageHash]
    whose receiving chain is the sent message's recipient, started from a
    state in which the leg handled second has no stale counterpart waiting
    under their key: whichever leg is handled first, exactly one notification
    is emitted, it joins both contexts, and afterwards the stored counterpart
    is deleted and neither the outbound nor the inbound sublevel holds an
    entry under the key. *)
Theorem C1_pair_matched_once_in_either_order
    (st : State) (o : XcmMessageSent) (i : XcmMessageReceived) (legs : list Leg) :
  sent_messageHash o = recv_messageHash i →
  recv_chainId i = sent_recipient o →
  (legs = [Sent o; Received i] ∧ inbound st !! outKey o = None)
  ∨ (legs = [Received i; Sent o] ∧ outbound st !! outKey o = None) →
  inKey i = outKey o
  ∧ newly_emitted st (run legs st) = [ {| notify_out := o; notify_in := i |} ]
  ∧ outbound (run legs st) !! outKey o = None
  ∧ inbound (run legs st) !! outKey o = None.
Proof.
  intros Hh Hc Hlegs.
  pose proof (same_key o i Hh Hc) as Hk. split; [done |].
  destruct Hlegs as [[-> Hin] | [-> Hout]].
  - destruct (match_in_order st o i Hk Hin) as (He & Ho & Hi).
    split; [by apply newly_emitted_app |]. split; [done |]. by rewrite Hi.
  - destruct (match_out_of_order st o i Hk Hout) as (He & Hi & Ho).
    split; [by apply newly_emitted_app |]. split; [by rewrite Ho | done].
Qed.

(** The out-of-order scenario of the spec, on the empty store. *)
Lemma C1_witness :
  inKey sample_received = outKey sample_sent
  ∧ newly_emitted init (run [Received sample_received; Sent sample_sent] init)
    = [ {| notify_out := sample_sent; notify_in := sample_received |} ]
  ∧ outbound (run [Received sample_received; Sent sample_sent] init)
      !! outKey sample_sent = None
  ∧ inbound (run [Received sample_received; Sent sample_sent] init)
      !! outKey sample_sent = None.
Proof.
  apply (C1_pair_matched_once_in_either_order init sample_sent sample_received);
    [reflexivity | reflexivity | right; split; reflexivity].
Defined.

(** C2 as stated fails: a sent leg handled first emits nothing at all. *)
Lemma C2_counterexample :
  ¬ ∃ n, newly_emitted init (onOutboundMessage sample_sent init) = [n].
Proof. intros [n Hn]. vm_compute in Hn. discriminate Hn. Qed.

(** C2, amended. A sent leg handled while no received counterpart is stored
    under its key emits no notification: the engine only stores it as the
    pending outbound entry. The one notification the engine emits for a sent
    leg is the matched one, emitted when the received counterpart is already
    stored. *)
Theorem C2_sent_leg_is_stored_silently (st : State) (o : XcmMessageSent) :
  match inbound st !! outKey o with
  | None =>
      newly_emitted st (onOutboundMessage o st) = []
      ∧ outbound (onOutboundMessage o st) = <[outKey o := o]> (outbound st)
      ∧ inbound (onOutboundMessage o st) = inbound st
  | Some i =>
      newly_emitted st (onOutboundMessage o st) = [ {| notify_out := o; notify_in := i |} ]
      ∧ outbound (onOutboundMessage o st) = outbound st
      ∧ inbound (onOutboundMessage o st) = delete (outKey o) (inbound st)
  end.
Proof.
  destruct (inbound st !! outKey o) as [i|] eqn:E.
  - rewrite (onOutboundMessage_matches o i st E); cbn.
    split; [by apply newly_emitted_app | done].
  - rewrite (onOutboundMessage_stores o st E); cbn.
    split; [apply newly_emitted_app; cbn; by rewrite app_nil_r | done].
Qed.

(** C3 as stated fails: after the pair has been matched, observing the sent
    leg again changes the pending store, and the received leg observed again
    after it is matched a second time. *)
Lemma C3_counterexample :
  let matched := run [Sent sample_sent; Received sample_received] init in
  emitted matched = [ {| notify_out := sample_sent; notify_in := sample_received |} ]
  ∧ outbound matched !! outKey sample_sent = None
  ∧ outbound (handle (Sent sample_sent) matched) !! outKey sample_sent = Some sample_sent
  ∧ newly_emitted matched (run [Sent sample_sent; Received sample_received] matched)
      = [ {| notify_out := sample_sent; notify_in := sample_received |} ].
Proof. vm_compute. done. Qed.

(** C3, amended. The engine keeps no record of matched keys. Once a pair has
    been matched, so that neither sublevel holds its key, one further
    observation of either leg for that key emits no notification, but it is
    stored as a new pending entry in the leg's own sublevel and the other
    sublevel is left as it is. *)
Theorem C3_observation_after_match_is_stored
    (st : State) (o : XcmMessageSent) (i : XcmMessageReceived)
    (legs : list Leg) (again : Leg) :
  sent_messageHash o = recv_messageHash i →
  recv_chainId i = sent_recipient o →
  outbound st !! outKey o = None →
  inbound st !! outKey o = None →
  legs = [Sent o; Received i] ∨ legs = [Received i; Sent o] →
  leg_key again = outKey o →
  let matched := run legs st in
  newly_emitted matched (handle again matched) = []
  ∧ match again with
    | Sent o' =>
        outbound (handle again matched) = <[outKey o := o']> (outbound matched)
        ∧ inbound (handle again matched) = inbound matched
    | Received i' =>
        inbound (handle again matched) = <[outKey o := i']> (inbound matched)
        ∧ outbound (handle again matched) = outbound matched
    end.
Proof.
  intros Hh Hc Hout Hin Hlegs Hagain matched.
  pose proof (same_key o i Hh Hc) as Hk.
  assert (outbound matched !! outKey o = None ∧ inbound matched !! outKey o = None)
    as [Ho Hi].
  { subst matched. destruct Hlegs as [-> | ->].
    - destruct (match_in_order st o i Hk Hin) as (_ & Ho & Hi'). by rewrite Hi'.
    - destruct (match_out_of_order st o i Hk Hout) as (_ & Hi & Ho'). by rewrite Ho'. }
  destruct again as [o' | i']; cbn in Hagain; cbn.
  - rewrite <- Hagain in Hi.
    rewrite (onOutboundMessage_stores o' matched Hi); cbn. rewrite Hagain.
    split; [apply newly_emitted_app; cbn; by rewrite app_nil_r | done].
  - rewrite <- Hagain in Ho.
    rewrite (onInboundMessage_stores i' matched Ho); cbn. rewrite Hagain.
    split; [apply newly_emitted_app; cbn; by rewrite app_nil_r | done].
Qed.

(** The sent leg observed again after the in-order match on the empty store. *)
Lemma C3_witness :
  let matched := run [Sent sample_sent; Received sample_received] init in
  newly_emitted matched (handle (Sent sample_sent) matched) = []
  ∧ outbound (handle (Sent sample_sent) matched)
      = <[outKey sample_sent := sample_sent]> (outbound matched)
  ∧ inbound (handle (Sent sample_sent) matched) = inbound matched.
Proof.
  apply (C3_observation_after_match_is_stored init sample_sent sample_received
           [Sent sample_sent; Received sample_received] (Sent sample_sent));
    [reflexivity | reflexivity | reflexivity | reflexivity
    | left; reflexivity | reflexivity].
Defined.

End EngineFacts.

(** ** The sender criteria *)

Module CriteriaFacts.
Import Criteria.

(** *** Path resolution *)

Lemma resolve_object (fields : list (string * Json)) (f : string) (rest : list string) :
  resolve (JObj fields) (f :: rest) =
    match obj_get f fields with
    | Some x => resolve x rest
    | None => None
    end.
Proof.
  cbn. induction fields as [| [k x] fields IH]; [done |].
  cbn. destruct (String.eqb k f); [done | apply IH].
Qed.

Lemma resolve_array (items : list Json) (f : string) (rest : list string) :
  resolve (JArr items) (f :: rest) =
    Some (JArr (omap (λ x, resolve x (f :: rest)) items)).
Proof.
  reflexivity.
Qed.

Lemma resolve_field (fields : list (string * Json)) (f : string) :
  resolve (JObj fields) [f] = obj_get f fields.
Proof. rewrite resolve_object. by destruct (obj_get f fields) as [[]|]. Qed.

(** *** Objects built from codec primitives hold scalars only *)

Lemma obj_set_scalars (k : string) (v : Json) (fields : list (string * Json)) :
  scalar v → scalars fields → scalars (obj_set k v fields).
Proof.
  intros Hv. induction 1 as [| [k' v'] fields Hkv Hrest IH]; cbn.
  - by repeat constructor.
  - destruct (String.eqb k' k); constructor; auto.
Qed.

Lemma assign1_scalars (target source : list (string * Json)) :
  scalars target → scalars source → scalars (assign1 target source).
Proof.
  intros Ht Hs. revert target Ht.
  induction Hs as [| [k v] source Hkv Hrest IH]; intros target Ht; [done |].
  cbn. apply IH. by apply obj_set_scalars.
Qed.

Lemma primitive_object_scalars (a : Address) : scalars (primitive_object a).
Proof.
  unfold primitive_object, scalars. apply Forall_map, Forall_forall.
  intros [k []] _; exact I.
Qed.

Lemma extraSignerDoc_scalars (s : ExtraSigner) : scalars (extraSignerDoc s).
Proof.
  unfold extraSignerDoc, Object_assign. cbn -[assign1].
  repeat apply assign1_scalars; try apply primitive_object_scalars;
    by repeat constructor.
Qed.

Lemma obj_get_scalar (k : string) (fields : list (string * Json)) (v : Json) :
  scalars fields → obj_get k fields = Some v → scalar v.
Proof.
  induction 1 as [| [k' v'] fields Hkv Hrest IH]; cbn; [done |].
  destruct (String.eqb k' k); [| done]. by intros [= <-].
Qed.

(** *** [$in] *)

Lemma is_in_nil (v : Json) : is_in [] v = false.
Proof.
  by destruct v.
Qed.

Lemma op_in_nil (lhs : option Json) : op_in lhs [] = false.
Proof.
  destruct lhs as [[| | items |]|]; cbn; try done.
  induction items as [| x items IH]; [done |]. cbn. by rewrite is_in_nil.
Qed.

Lemma op_in_scalar (v : Json) (vals : list string) :
  scalar v → op_in (Some v) vals = is_in vals v.
Proof. by destruct v. Qed.

(** A field test across an array of objects is the disjunction of the field
    tests on its elements. *)
Lemma op_in_array_of_objects (k : string) (vals : list string)
    (objs : list (list (string * Json))) :
  Forall scalars objs →
  op_in (resolve (JArr (map JObj objs)) [k]) vals = existsb (field_in k vals) objs.
Proof.
  rewrite resolve_array. change (op_in (Some (JArr ?l)) vals) with (existsb (is_in vals) l).
  induction 1 as [| obj objs Hobj Hrest IH]; [done |].
  change (map JObj (obj :: objs)) with (JObj obj :: map JObj objs).
  change (omap ?f (?x :: ?l)) with
    (match f x with Some y => y :: omap f l | None => omap f l end).
  cbv beta. rewrite resolve_field.
  destruct (obj_get k obj) as [v|] eqn:E.
  - change (existsb ?f (?x :: ?l)) with (f x || existsb f l).
    rewrite IH. f_equal. unfold field_in. rewrite E. symmetry. apply op_in_scalar.
    by apply (obj_get_scalar k obj).
  - change (existsb ?f (obj :: ?l)) with (f obj || existsb f l).
    unfold field_in at 1. by rewrite E, IH.
Qed.

Lemma op_in_extraSigners (k : string) (vals : list string) (extras : list ExtraSigner) :
  op_in (resolve (JArr (map (λ s, JObj (extraSignerDoc s)) extras)) [k]) vals =
    existsb (λ s, field_in k vals (extraSignerDoc s)) extras.
Proof.
  rewrite <- (map_map extraSignerDoc JObj).
  rewrite op_in_array_of_objects.
  - induction extras as [| s extras IH]; [done |]. cbn -[extraSignerDoc]. by rewrite IH.
  - apply Forall_map, Forall_forall. intros s _. apply extraSignerDoc_scalars.
Qed.

(** *** Evaluation of the two criteria on the document of [matchSenders] *)

Lemma test_match_any (doc : Json) : test (sendersCriteria SendersAny) doc = true.
Proof. reflexivity. Qed.

Lemma test_senders_list (senders : list string) (xt : ExtrinsicWithId) :
  test (sendersCriteria (SendersList senders)) (sendersDoc xt) = sender_among senders xt.
Proof.
  unfold sendersCriteria, sender_among, sendersDoc.
  cbn -[resolve op_in signerDoc extraSignerDoc].
  rewrite !resolve_object. cbn -[resolve op_in signerDoc extraSignerDoc].
  rewrite !resolve_object. cbn -[resolve op_in signerDoc extraSignerDoc].
  rewrite !resolve_field, !op_in_extraSigners.
  unfold field_in. by rewrite !andb_true_r, orb_false_r, !orb_assoc.
Qed.

Lemma test_senders_nil (doc : Json) :
  test (sendersCriteria (SendersList [])) doc = false.
Proof. cbn -[resolve split_on]. by rewrite !op_in_nil. Qed.

(** C9. [sendersCriteria] maps the wildcard to the empty query, which every
    document passes, and a list of senders to the [$or] of four [$in] tests;
    on the document [matchSenders] builds, that query is the disjunction of
    the membership tests of the signer's [id], the signer's [publicKey] and
    the extra signers' [id] and [publicKey]. The empty list gives a query no
    document passes, so it admits no sender, unlike the wildcard, which
    admits every known sender. *)
Theorem C9_sendersCriteria_wildcard_and_lists :
  (sendersCriteria SendersAny = Query []
   ∧ ∀ doc, test (sendersCriteria SendersAny) doc = true)
  ∧ (∀ senders,
       sendersCriteria (SendersList senders) =
         Query [ Or [ Query [In "extrinsic.signer.id" senders];
                      Query [In "extrinsic.signer.publicKey" senders];
                      Query [In "extrinsic.extraSigners.id" senders];
                      Query [In "extrinsic.extraSigners.publicKey" senders] ] ])
  ∧ (∀ senders xt,
       matchSenders (ControlQuery_from (sendersCriteria (SendersList senders))) (Some xt)
       = field_in "id" senders (signerDoc (signer xt))
         || field_in "publicKey" senders (signerDoc (signer xt))
         || existsb (λ s, field_in "id" senders (extraSignerDoc s)) (extraSigners xt)
         || existsb (λ s, field_in "publicKey" senders (extraSignerDoc s)) (extraSigners xt))
  ∧ (∀ doc, test (sendersCriteria (SendersList [])) doc = false)
  ∧ (∀ xt, matchSenders (ControlQuery_from (sendersCriteria (SendersList []))) xt = false)
  ∧ (∀ xt, matchSenders (ControlQuery_from (sendersCriteria SendersAny)) (Some xt) = true)
  ∧ sendersCriteria (SendersList []) ≠ sendersCriteria SendersAny.
Proof.
  split; [split; [reflexivity | apply test_match_any] |].
  split; [reflexivity |].
  split; [intros senders xt; apply test_senders_list |].
  split; [apply test_senders_nil |].
  split; [intros [xt|]; [apply test_senders_nil | reflexivity] |].
  split; [reflexivity | discriminate].
Qed.

End CriteriaFacts.

(** ** The switchboard *)

Module SwitchboardFacts.
Import Criteria Switchboard.

(** *** Stepping through a method *)

Lemma bind_run {A B} (m : M A) (f : A → M B) (s : State) :
  (m ≫= f) s =
    match m s with
    | (Ok a, s') => f a s'
    | (Throw e, s') => (Throw e, s')
    end.
Proof. reflexivity. Qed.

Lemma new_effects_app (st st' : State) (es : list Effect) :
  trace st' = trace st ++ es → new_effects st st' = es.
Proof. intros E. unfold new_effects. rewrite E. apply drop_app_length. Qed.

Lemma new_effects_same (st st' : State) :
  trace st' = trace st → new_effects st st' = [].
Proof. intros E. apply new_effects_app. by rewrite app_nil_r. Qed.

Lemma destructure_some (i : string) (h : RxSubscriptionHandler) (st : State) :
  subs st !! i = Some h → destructure i st = (Ok h, st).
Proof. intros H. unfold destructure. rewrite bind_run. cbn. by rewrite H. Qed.

Lemma destructure_none (i : string) (st : State) :
  subs st !! i = None → destructure i st = (Throw (TypeError destructure_undefined), st).
Proof. intros H. unfold destructure. rewrite bind_run. cbn. by rewrite H. Qed.

Lemma external_run (w : World) (c : External) (st : State) :
  external w c st =
    if fails w c then (Throw (ExternalError c), add_trace [Called c] st)
    else (Ok tt, add_trace [Called c] st).
Proof. unfold external. rewrite bind_run. cbn. by destruct (fails w c). Qed.

(** *** Fan-out *)

(** What [#onXcmWaypointReached] does, by cases. *)
Lemma onXcmWaypointReached_run (msg : XcmNotifyMessage) (st : State) :
  onXcmWaypointReached msg st =
    match subs st !! subscriptionId msg with
    | Some h =>
        if events_admit (events (descriptor h)) (type msg)
           && matchSenders (sendersControl h) (sender msg)
        then (Ok tt, add_trace [Notified (descriptor h) msg] st)
        else (Ok tt, st)
    | None =>
        (Ok tt, add_trace [Logged Warn "Unable to find descriptor for subscription %s"
                             [subscriptionId msg]] st)
    end.
Proof.
  unfold onXcmWaypointReached. rewrite bind_run. cbn.
  destruct (subs st !! subscriptionId msg) as [h|]; [| done].
  by destruct (events_admit _ _ && matchSenders _ _).
Qed.

Lemma updateSubscription_known (sub : Subscription) (h : RxSubscriptionHandler) (st : State) :
  subs st !! id sub = Some h →
  updateSubscription sub st = (Ok tt, set_subs (<[id sub := set_descriptor sub h]>) st).
Proof. intros H. unfold updateSubscription. rewrite bind_run. cbn. by rewrite H. Qed.

Lemma updateSubscription_unknown (sub : Subscription) (st : State) :
  subs st !! id sub = None →
  updateSubscription sub st =
    (Ok tt, add_trace [Logged Warn "trying to update an unknown subscription %s" [id sub]] st).
Proof. intros H. unfold updateSubscription. rewrite bind_run. cbn. by rewrite H. Qed.

Lemma updateSenders_known (i : string) (h : RxSubscriptionHandler) (st : State) :
  subs st !! i = Some h →
  updateSenders i st =
    (Ok tt, set_subs (<[i := set_sendersControl
                               {| value := sendersCriteria (senders (descriptor h)) |} h]>) st).
Proof.
  intros H. unfold updateSenders. rewrite bind_run, (destructure_some i h st H). done.
Qed.

Lemma delivered_cases (msg : XcmNotifyMessage) (st : State) :
  delivered msg st =
    match subs st !! subscriptionId msg with
    | Some h =>
        if events_admit (events (descriptor h)) (type msg)
           && matchSenders (sendersControl h) (sender msg)
        then [(descriptor h, msg)]
        else []
    | None => []
    end.
Proof.
  unfold delivered, exec. rewrite onXcmWaypointReached_run.
  destruct (subs st !! subscriptionId msg) as [h|].
  - destruct (events_admit _ _ && matchSenders _ _); cbn.
    + by rewrite (new_effects_app st _ [Notified (descriptor h) msg]).
    + by rewrite new_effects_same.
  - cbn.
    by rewrite (new_effects_app st _
                  [Logged Warn "Unable to find descriptor for subscription %s"
                     [subscriptionId msg]]).
Qed.

Lemma events_admit_spec (ev : option Events) (t : XcmNotificationType) :
  events_admit ev t = true ↔
    ev = None ∨ ev = Some EventsAny ∨ ∃ types, ev = Some (EventsOf types) ∧ t ∈ types.
Proof.
  destruct ev as [[| types] |]; cbn.
  - split; [by right; left | done].
  - rewrite bool_decide_eq_true. split.
    + intros Hin. right; right. by exists types.
    + by intros [[=] | [[=] | (types' & [= <-] & Hin)]].
  - split; [by left | done].
Qed.

(** The fan-out for a subscription whose senders have just been updated to
    a list. *)
Lemma delivered_after_senders_update
    (st : State) (msg : XcmNotifyMessage) (sub : Subscription) (listed : list string)
    (h : RxSubscriptionHandler) :
  subs st !! id sub = Some h →
  subscriptionId msg = id sub →
  senders sub = SendersList listed →
  delivered msg (exec (updateSubscription sub ;; updateSenders (id sub)) st) =
    if events_admit (events sub) (type msg)
       && match sender msg with
          | Some xt => sender_among listed xt
          | None => false
          end
    then [(sub, msg)]
    else [].
Proof.
  intros Hh Hid Hsenders.
  unfold exec. rewrite bind_run, (updateSubscription_known sub h st Hh).
  rewrite (updateSenders_known (id sub) (set_descriptor sub h)) by apply lookup_insert_eq.
  rewrite delivered_cases. cbn -[matchSenders sendersCriteria].
  rewrite Hid, insert_insert_eq, lookup_insert_eq. cbn -[matchSenders sendersCriteria].
  rewrite Hsenders.
  destruct (sender msg) as [xt |] eqn:Es; [| done].
  unfold matchSenders. cbn [value]. by rewrite CriteriaFacts.test_senders_list.
Qed.

(** C4. A message emitted by the engine is handed to the notifier if and
    only if its subscription is still registered, the descriptor's [events]
    is undefined, the wildcard or a list that contains the message type, and
    the current senders control admits the message's sender; it is then
    handed over once, with the registered descriptor. In particular, once
    the subscription's senders have been updated to a list, a message whose
    sender is not among them is not handed over, whereas a message of an
    admitted type whose sender is among them is handed over, with the
    updated descriptor. *)
Theorem C4_fanout_rechecks_events_and_senders (st : State) (msg : XcmNotifyMessage) :
  (delivered msg st ≠ [] ↔
     ∃ h, subs st !! subscriptionId msg = Some h
          ∧ (events (descriptor h) = None
             ∨ events (descriptor h) = Some EventsAny
             ∨ ∃ types, events (descriptor h) = Some (EventsOf types) ∧ type msg ∈ types)
          ∧ matchSenders (sendersControl h) (sender msg) = true)
  ∧ (∀ h, subs st !! subscriptionId msg = Some h →
          delivered msg st = [] ∨ delivered msg st = [(descriptor h, msg)])
  ∧ (∀ sub listed h,
       subs st !! id sub = Some h →
       subscriptionId msg = id sub →
       senders sub = SendersList listed →
       (∀ xt, sender msg = Some xt → sender_among listed xt = false) →
       delivered msg (exec (updateSubscription sub ;; updateSenders (id sub)) st) = [])
  ∧ (∀ sub listed h xt,
       subs st !! id sub = Some h →
       subscriptionId msg = id sub →
       senders sub = SendersList listed →
       sender msg = Some xt →
       sender_among listed xt = true →
       (events sub = None
        ∨ events sub = Some EventsAny
        ∨ ∃ types, events sub = Some (EventsOf types) ∧ type msg ∈ types) →
       delivered msg (exec (updateSubscription sub ;; updateSenders (id sub)) st)
         = [(sub, msg)]).
Proof.
  split_and!.
  - rewrite delivered_cases. split.
    + destruct (subs st !! subscriptionId msg) as [h|]; [| done].
      destruct (events_admit _ _) eqn:Ee, (matchSenders _ _) eqn:Em; cbn; try done.
      intros _. exists h. split; [done |]. split; [| done]. by apply events_admit_spec.
    + intros (h & -> & He & ->). apply events_admit_spec in He. by rewrite He.
  - intros h Hh. rewrite delivered_cases, Hh.
    destruct (events_admit _ _ && matchSenders _ _); auto.
  - intros sub listed h Hh Hid Hsenders Hnot.
    rewrite (delivered_after_senders_update st msg sub listed h Hh Hid Hsenders).
    destruct (sender msg) as [xt |] eqn:Es.
    + by rewrite (Hnot xt eq_refl), andb_false_r.
    + by rewrite andb_false_r.
  - intros sub listed h xt Hh Hid Hsenders Hxt Hamong Hev.
    rewrite (delivered_after_senders_update st msg sub listed h Hh Hid Hsenders).
    apply events_admit_spec in Hev. by rewrite Hxt, Hev, Hamong.
Qed.

(** After the senders of [s1] have been narrowed to [acctA], a [Received]
    message signed by [acctB] is suppressed and one signed by [acctA] is
    handed over. *)
Lemma C4_witness :
  delivered sample_received_from_B
    (exec (updateSubscription sample_subscription_listed ;; updateSenders "s1")
       sample_subscribed) = []
  ∧ delivered sample_received_from_A
      (exec (updateSubscription sample_subscription_listed ;; updateSenders "s1")
         sample_subscribed) = [(sample_subscription_listed, sample_received_from_A)].
Proof.
  split.
  - eapply (proj1 (proj2 (proj2 (C4_fanout_rechecks_events_and_senders
                                   sample_subscribed sample_received_from_B)))
              sample_subscription_listed).
    + vm_compute. reflexivity.
    + reflexivity.
    + reflexivity.
    + intros xt [= <-]. vm_compute. reflexivity.
  - eapply (proj2 (proj2 (proj2 (C4_fanout_rechecks_events_and_senders
                                   sample_subscribed sample_received_from_A)))
              sample_subscription_listed).
    + vm_compute. reflexivity.
    + reflexivity.
    + reflexivity.
    + reflexivity.
    + vm_compute. reflexivity.
    + right; left. reflexivity.
Defined.

(** C10. [matchSenders] is [false] on an undefined sender whatever the
    query is, the match-anything query of the wildcard included; hence the
    fan-out hands over no message whose sender is undefined, whatever the
    subscription's senders are. *)
Theorem C10_undefined_sender_is_never_admitted
    (query : ControlQuery) (st : State) (msg : XcmNotifyMessage) :
  matchSenders query None = false
  ∧ matchSenders (ControlQuery_from (sendersCriteria SendersAny)) None = false
  ∧ (sender msg = None → delivered msg st = []).
Proof.
  split; [reflexivity |]. split; [reflexivity |].
  intros Hs. rewrite delivered_cases, Hs.
  destruct (subs st !! subscriptionId msg) as [h|]; [| done].
  cbn. by rewrite andb_false_r.
Qed.

Lemma C10_witness : delivered sample_sent_by_unknown sample_subscribed = [].
Proof.
  apply (C10_undefined_sender_is_never_admitted
           (ControlQuery_from (sendersCriteria SendersAny))
           sample_subscribed sample_sent_by_unknown).
  reflexivity.
Defined.

(** *** Updates of an unknown subscription *)

(** C8, on the code: for an id that is not registered, [updateSubscription]
    only logs a warning, while [updateSenders], [updateDestinations] and
    [updateEvents] throw a [TypeError] from destructuring [undefined] and log
    nothing; none of them changes the rest of the state. *)
Theorem C8_update_of_unknown_id (w : World) (st : State) (sub : Subscription) :
  subs st !! id sub = None →
  updateSubscription sub st =
    (Ok tt, add_trace [Logged Warn "trying to update an unknown subscription %s" [id sub]] st)
  ∧ updateSenders (id sub) st = (Throw (TypeError destructure_undefined), st)
  ∧ updateDestinations w (id sub) st = (Throw (TypeError destructure_undefined), st)
  ∧ updateEvents w (id sub) st = (Throw (TypeError destructure_undefined), st).
Proof.
  intros H. split; [by apply updateSubscription_unknown |].
  unfold updateSenders, updateDestinations, updateEvents.
  rewrite !bind_run, !(destructure_none (id sub) st H). done.
Qed.

Lemma C8_witness :
  updateSenders "s1" (constructor default_options)
    = (Throw (TypeError destructure_undefined), constructor default_options).
Proof.
  apply (C8_update_of_unknown_id sample_world (constructor default_options)
           sample_subscription).
  reflexivity.
Defined.

(** *** Unsubscribing *)

Lemma forEach_rx_unsubscribe (l : list RxSubscriptionWithId) (st : State) :
  forEach l rx_unsubscribe st = (Ok tt, detach l st).
Proof.
  revert st. induction l as [| s l IH]; intros st; [done |].
  cbn [forEach]. rewrite bind_run. change (rx_unsubscribe s st) with (Ok tt, detach1 s st).
  apply IH.
Qed.

Lemma detach_subs l st : subs (detach l st) = subs st.
Proof. revert st. induction l as [| s l IH]; intros st; [done |]. cbn. by rewrite IH. Qed.

Lemma detach_db l st : db (detach l st) = db st.
Proof. revert st. induction l as [| s l IH]; intros st; [done |]. cbn. by rewrite IH. Qed.

Lemma detach_trace l st :
  trace (detach l st) = trace st ++ ((λ s, Unsubscribed (sub s)) <$> l).
Proof.
  revert st. induction l as [| s l IH]; intros st; cbn.
  - by rewrite app_nil_r.
  - rewrite IH. cbn. by rewrite <- app_assoc.
Qed.

Lemma detach_observers l st (x : nat) :
  observers (detach l st) !! x =
    if bool_decide (x ∈ sub <$> l) then None else observers st !! x.
Proof.
  revert st. induction l as [| s l IH]; intros st; [done |].
  cbn [detach]. rewrite IH, fmap_cons. cbn.
  destruct (decide (sub s = x)) as [<- | Hne].
  - rewrite lookup_delete_eq, (bool_decide_eq_true_2 (sub s ∈ sub s :: _)) by left.
    by case_bool_decide.
  - rewrite lookup_delete_ne by done.
    rewrite (bool_decide_ext (x ∈ sub s :: (sub <$> l)) (x ∈ sub <$> l)); [done |].
    rewrite elem_of_cons. intuition congruence.
Qed.

Lemma unsubscribe_unknown (w : World) (i : string) (st : State) :
  subs st !! i = None →
  unsubscribe w i st =
    (Ok tt, add_trace [Logged Warn "unsubscribe from a non-existent subscription %s" [i]] st).
Proof. intros H. unfold unsubscribe. rewrite bind_run. cbn. by rewrite H. Qed.

Lemma detach_app l1 l2 st : detach (l1 ++ l2) st = detach l2 (detach l1 st).
Proof. revert st. induction l1 as [| s l1 IH]; intros st; [done |]. cbn. apply IH. Qed.

Lemma unsubscribe_known (w : World) (i : string) (h : RxSubscriptionHandler) (st : State) :
  subs st !! i = Some h →
  unsubscribe w i st = (Ok tt, unsubscribe_final w i h st).
Proof.
  intros H. unfold unsubscribe. rewrite bind_run. cbn. rewrite H.
  unfold try_catch. rewrite bind_run. cbn.
  rewrite bind_run, forEach_rx_unsubscribe, bind_run, forEach_rx_unsubscribe.
  unfold unsubscribe_final, unsubscribe_cleared, legs. rewrite !detach_app.
  rewrite bind_run.
  set (s0 := detach (destinationSubs h) _).
  assert (match relaySub h with
          | Some r => rx_unsubscribe r
          | None => mret ()
          end s0 = (Ok tt, detach (option_list (relaySub h)) s0)) as ->
    by (by destruct (relaySub h)).
  cbn. rewrite bind_run. cbn. rewrite bind_run, external_run.
  destruct (fails w (ClearPendingStates i)); [done |].
  destruct (ephemeral (descriptor h)); [done |].
  rewrite bind_run. cbn. unfold db_remove. rewrite bind_run, external_run.
  by destruct (fails w (DbRemove i)).
Qed.

Lemma unsubscribe_final_subs w i h st :
  subs (unsubscribe_final w i h st) = delete i (subs st).
Proof.
  unfold unsubscribe_final.
  destruct (fails w (ClearPendingStates i)), (ephemeral (descriptor h)),
    (fails w (DbRemove i)); cbn; by rewrite detach_subs.
Qed.

Lemma unsubscribe_final_observers w i h st (x : nat) :
  observers (unsubscribe_final w i h st) !! x =
    if bool_decide (x ∈ sub <$> legs h) then None else observers st !! x.
Proof.
  unfold unsubscribe_final.
  destruct (fails w (ClearPendingStates i)), (ephemeral (descriptor h)),
    (fails w (DbRemove i)); cbn; by rewrite detach_observers.
Qed.

(** The effects of [unsubscribe], in order: the log line, one
    [unsubscribe()] per leg, the call to the engine, and what follows it. *)
Lemma unsubscribe_final_trace w i h st :
  trace (unsubscribe_final w i h st) =
    trace st
    ++ Logged Info "[%s] unsubscribe %s" [origin (descriptor h); i]
       :: ((λ s, Unsubscribed (sub s)) <$> legs h)
    ++ Called (ClearPendingStates i) :: unsubscribe_tail w i h.
Proof.
  unfold unsubscribe_final, unsubscribe_tail.
  destruct (fails w (ClearPendingStates i)), (ephemeral (descriptor h)),
    (fails w (DbRemove i)); cbn; rewrite detach_trace; cbn;
    rewrite <- ?app_assoc; cbn; rewrite <- ?app_assoc; done.
Qed.

Lemma unsubscribe_final_db w i h st :
  db (unsubscribe_final w i h st) =
    if fails w (ClearPendingStates i) || ephemeral (descriptor h) || fails w (DbRemove i)
    then db st
    else delete i (db st).
Proof.
  unfold unsubscribe_final.
  destruct (fails w (ClearPendingStates i)), (ephemeral (descriptor h)),
    (fails w (DbRemove i)); cbn; by rewrite detach_db.
Qed.

(** *** The relay observer *)

Lemma rx_subscribe_run (w : World) (o : Observer) (st : State) :
  rx_subscribe w o st =
    if fails w (Observe o)
    then (Throw (ExternalError (Observe o)), add_trace [Called (Observe o)] st)
    else (Ok (nextSub st), attach o (add_trace [Called (Observe o)] st)).
Proof.
  unfold rx_subscribe. rewrite bind_run, external_run.
  by destruct (fails w (Observe o)).
Qed.

Lemma monitorRelay_run (w : World) (qs : Subscription) (st : State) :
  monitorRelay w qs st =
    let s1 := monitorRelay_logged w qs st in
    if fails w (Observe (relay_observer w qs))
    then (Throw (ExternalError (Observe (relay_observer w qs))),
          add_trace [Called (Observe (relay_observer w qs))] s1)
    else (Ok {| chainId := origin qs; sub := nextSub st |},
          attach (relay_observer w qs)
            (add_trace [Called (Observe (relay_observer w qs))] s1)).
Proof.
  unfold monitorRelay, monitorRelay_logged. rewrite bind_run. cbn.
  destruct (match subs st !! id qs with Some _ => _ | None => _ end);
    rewrite bind_run; cbn; rewrite bind_run; cbn; rewrite bind_run, rx_subscribe_run;
    fold (relay_observer w qs); by destruct (fails w (Observe (relay_observer w qs))).
Qed.

Lemma monitorRelay_logged_subs w qs st : subs (monitorRelay_logged w qs st) = subs st.
Proof. unfold monitorRelay_logged. by destruct (match subs st !! id qs with Some _ => _ | None => _ end). Qed.

Lemma monitorRelay_logged_nextSub w qs st :
  nextSub (monitorRelay_logged w qs st) = nextSub st.
Proof. unfold monitorRelay_logged. by destruct (match subs st !! id qs with Some _ => _ | None => _ end). Qed.

Lemma monitorRelay_logged_trace w qs st :
  ∃ es, trace (monitorRelay_logged w qs st) = trace st ++ es.
Proof.
  unfold monitorRelay_logged.
  destruct (match subs st !! id qs with Some _ => _ | None => _ end); cbn;
    eexists; by rewrite <- ?app_assoc.
Qed.

(** [#shouldMonitorRelay] in words. *)
Lemma shouldMonitorRelay_spec (w : World) (qs : Subscription) :
  shouldMonitorRelay w qs = true ↔
    (events qs = None ∨ events qs = Some EventsAny
     ∨ ∃ types, events qs = Some (EventsOf types) ∧ Relayed ∈ types)
    ∧ isRelay w (origin qs) = false
    ∧ ∃ d, d ∈ destinations qs ∧ isRelay w d = false.
Proof.
  unfold shouldMonitorRelay. rewrite !andb_true_iff, negb_true_iff, existsb_exists.
  setoid_rewrite negb_true_iff. setoid_rewrite <- list_elem_of_In.
  split.
  - intros ((He & Ho) & Hd). split; [| done].
    destruct (events qs) as [[| types]|]; auto.
    right; right. exists types. split; [done |]. by apply bool_decide_eq_true in He.
  - intros (He & Ho & Hd). split; [split |]; try done.
    destruct He as [-> | [-> | (types & -> & Hin)]]; try done.
    by apply bool_decide_eq_true.
Qed.

Lemma updateEvents_known (w : World) (i : string) (h : RxSubscriptionHandler) (st : State) :
  subs st !! i = Some h →
  updateEvents w i st = (Ok tt, updateEvents_final w i h st).
Proof.
  intros H. unfold updateEvents, updateEvents_final.
  rewrite bind_run, (destructure_some i h st H).
  destruct (shouldMonitorRelay w (descriptor h)) eqn:Es, (relaySub h) as [r|] eqn:Er; cbn;
    try done.
  unfold try_catch. rewrite bind_run, monitorRelay_run. cbn zeta.
  by destruct (fails w (Observe (relay_observer w (descriptor h)))).
Qed.

(** The relay step of [#monitor]: the optional relay subscription it ends
    with, and the state it leaves. *)
Lemma monitor_relay_step (w : World) (qs : Subscription) (st : State) :
  ∃ s3,
    (if shouldMonitorRelay w qs then
       try_catch (r ← monitorRelay w qs; mret (Some r))
         (λ e, log Err "Error on relay subscription (%s)" [id qs] ;; mret None)
     else mret None) st
    = (Ok (if shouldMonitorRelay w qs && negb (fails w (Observe (relay_observer w qs)))
           then Some {| chainId := origin qs; sub := nextSub st |}
           else None), s3)
    ∧ (shouldMonitorRelay w qs = true →
       fails w (Observe (relay_observer w qs)) = false →
       observers s3 !! nextSub st = Some (relay_observer w qs)).
Proof.
  destruct (shouldMonitorRelay w qs); cbn.
  - unfold try_catch. rewrite bind_run, monitorRelay_run. cbn zeta.
    destruct (fails w (Observe (relay_observer w qs))); cbn.
    + eexists. split; [reflexivity | done].
    + eexists. split; [reflexivity |]. intros _ _. unfold attach.
      cbn [observers nextSub set_nextSub set_observers add_trace].
      rewrite monitorRelay_logged_nextSub. apply lookup_insert_eq.
  - eexists. split; [reflexivity | done].
Qed.

Lemma monitor_registers (w : World) (qs : Subscription) (st st' : State) :
  monitor w qs st = (Ok tt, st') →
  ∃ h, subs st' !! id qs = Some h
       ∧ descriptor h = qs
       ∧ (is_Some (relaySub h) ↔
            shouldMonitorRelay w qs = true
            ∧ fails w (Observe (relay_observer w qs)) = false)
       ∧ (∀ r, relaySub h = Some r →
               observers st' !! sub r = Some (relay_observer w qs)).
Proof.
  unfold monitor. rewrite bind_run.
  destruct (monitorOrigins w qs st) as [[[[origSubs sc] mc] | e] s1]; [| done].
  rewrite bind_run. unfold try_catch at 1.
  destruct (monitorDestinations w qs s1) as [[destSubs | e] s2].
  2: { rewrite bind_run, forEach_rx_unsubscribe. done. }
  rewrite bind_run.
  destruct (monitor_relay_step w qs s2) as (s3 & -> & Hlive).
  rewrite bind_run. cbn.
  intros Hst'.
  eexists. split; [| split; [| split]].
  - assert (subs st' = <[id qs := _]> (subs s3)) as ->
      by (destruct (ephemeral qs); by injection Hst' as <-).
    apply lookup_insert_eq.
  - done.
  - cbn. rewrite <- negb_true_iff, <- andb_true_iff.
    destruct (shouldMonitorRelay w qs && negb (fails w (Observe (relay_observer w qs)))).
    + by split; [| eexists].
    + by split; [intros [? [=]] |].
  - cbn. intros r Hr.
    assert (observers st' = observers s3) as ->
      by (destruct (ephemeral qs); by injection Hst' as <-).
    destruct (shouldMonitorRelay w qs), (fails w (Observe (relay_observer w qs)));
      cbn in Hr; try done.
    injection Hr as <-. by apply Hlive.
Qed.

(** C7. [#shouldMonitorRelay] holds when the events are undefined, the
    wildcard or contain [Relayed], the origin is not a relay and some
    destination is not a relay. A relay subscription is only ever held when
    it holds. Where subscribing to the relay stream does not throw (the code
    logs and tolerates a throw), the handler registered by [#monitor] holds a
    relay subscription if and only if the condition holds, and that
    subscription is live; and [updateEvents] restores this for the current
    descriptor: it subscribes and stores the relay leg when it has become
    required, unsubscribes and deletes it when it is no longer required, and
    changes nothing otherwise. *)
Theorem C7_relay_observer_follows_shouldMonitorRelay (w : World) (st : State) :
  (∀ qs,
     shouldMonitorRelay w qs = true ↔
       (events qs = None ∨ events qs = Some EventsAny
        ∨ ∃ types, events qs = Some (EventsOf types) ∧ Relayed ∈ types)
       ∧ isRelay w (origin qs) = false
       ∧ ∃ d, d ∈ destinations qs ∧ isRelay w d = false)
  ∧ (∀ qs st',
       monitor w qs st = (Ok tt, st') →
       ∃ h, subs st' !! id qs = Some h
            ∧ descriptor h = qs
            ∧ (is_Some (relaySub h) → shouldMonitorRelay w qs = true)
            ∧ (fails w (Observe (relay_observer w qs)) = false →
               (is_Some (relaySub h) ↔ shouldMonitorRelay w qs = true))
            ∧ (∀ r, relaySub h = Some r →
                    observers st' !! sub r = Some (relay_observer w qs)))
  ∧ (∀ i h,
       subs st !! i = Some h →
       let required := shouldMonitorRelay w (descriptor h) in
       let st' := exec (updateEvents w i) st in
       updateEvents w i st = (Ok tt, st')
       ∧ ∃ h', subs st' !! i = Some h'
               ∧ descriptor h' = descriptor h
               ∧ (is_Some (relaySub h') → required = true)
               ∧ (fails w (Observe (relay_observer w (descriptor h))) = false →
                  (is_Some (relaySub h') ↔ required = true)
                  ∧ (required = true → relaySub h = None →
                     ∃ r, relaySub h' = Some r
                          ∧ Called (Observe (relay_observer w (descriptor h)))
                              ∈ new_effects st st'
                          ∧ observers st' !! sub r
                              = Some (relay_observer w (descriptor h))))
               ∧ (required = false → ∀ r, relaySub h = Some r →
                  relaySub h' = None
                  ∧ Unsubscribed (sub r) ∈ new_effects st st'
                  ∧ observers st' !! sub r = None)
               ∧ (required = bool_decide (is_Some (relaySub h)) → st' = st)).
Proof.
  split; [apply shouldMonitorRelay_spec |]. split.
  { intros qs st' Hrun.
    destruct (monitor_registers w qs st st' Hrun) as (h & Hh & Hd & Hrelay & Hlive).
    exists h. split_and!; try done.
    - intros Hsome. by apply Hrelay in Hsome as [? _].
    - intros Hok. rewrite Hrelay. intuition. }
  intros i h Hh required st'. subst st'.
  assert (exec (updateEvents w i) st = updateEvents_final w i h st) as ->
    by (unfold exec; by rewrite (updateEvents_known w i h st Hh)).
  split; [by apply updateEvents_known |].
  unfold updateEvents_final. fold required.
  destruct required eqn:Ereq, (relaySub h) as [r|] eqn:Er.
  - exists h. rewrite Er. by split_and!.
  - destruct (fails w (Observe (relay_observer w (descriptor h)))) eqn:Ef.
    + exists h. cbn [subs add_trace]. rewrite monitorRelay_logged_subs, Er.
      by split_and!.
    + eexists. unfold attach. cbn [subs set_subs set_nextSub set_observers add_trace].
      rewrite monitorRelay_logged_subs, lookup_alter_eq, Hh. cbn [fmap option_fmap option_map].
      split_and!; try done.
      intros _. split; [done |]. intros _ _. eexists. split_and!; [reflexivity | |].
      * destruct (monitorRelay_logged_trace w (descriptor h) st) as [es Hes].
        rewrite (new_effects_app st _
                   (es ++ [Called (Observe (relay_observer w (descriptor h)))])).
        -- apply elem_of_app. right. left.
        -- cbn [trace set_subs set_nextSub set_observers add_trace].
           by rewrite Hes, app_assoc.
      * cbn [observers set_subs set_nextSub set_observers add_trace nextSub sub].
        rewrite monitorRelay_logged_nextSub. apply lookup_insert_eq.
  - eexists. cbn [subs set_subs detach1 set_observers add_trace].
    rewrite lookup_alter_eq, Hh. cbn [fmap option_fmap option_map].
    split_and!; try done.
    + by intros [? [=]].
    + intros _. split; [| done]. cbn. split; [by intros [? [=]] | done].
    + intros _ r0 [= <-]. split_and!; [done | | apply lookup_delete_eq].
      rewrite (new_effects_app st _ [Unsubscribed (sub r)]) by done. left.
  - exists h. rewrite Er. by split_and!.
Qed.

(** [#monitor] on the empty switchboard, for a subscription between two
    parachains. *)
Lemma C7_witness :
  ∃ h, subs (exec (monitor sample_world sample_subscription) (constructor default_options))
         !! "s1" = Some h
       ∧ is_Some (relaySub h).
Proof.
  edestruct (proj1 (proj2 (C7_relay_observer_follows_shouldMonitorRelay
                             sample_world (constructor default_options)))
               sample_subscription)
    as (h & Hh & _ & _ & Hrelay & _).
  { vm_compute. reflexivity. }
  exists h. split; [exact Hh |]. apply Hrelay; reflexivity.
Defined.

(** *** What monitoring leaves alone *)

Section Keeps.
Context (R : State → State → Prop) `{!PreOrder R}.

Lemma keeps_ret {A} (a : A) : keeps R (mret a).
Proof. intros s. reflexivity. Qed.

Lemma keeps_throw {A} (e : Error) : keeps R (@throw A e).
Proof. intros s. reflexivity. Qed.

Lemma keeps_get : keeps R get.
Proof. intros s. reflexivity. Qed.

Lemma keeps_bind {A B} (m : M A) (f : A → M B) :
  keeps R m → (∀ a, keeps R (f a)) → keeps R (m ≫= f).
Proof.
  intros Hm Hf s. rewrite bind_run. specialize (Hm s).
  destruct (m s) as [[a | e] s']; cbn in *; [| done].
  etrans; [exact Hm | apply Hf].
Qed.

Lemma keeps_try_catch {A} (m : M A) (handler : Error → M A) :
  keeps R m → (∀ e, keeps R (handler e)) → keeps R (try_catch m handler).
Proof.
  intros Hm Hh s. unfold try_catch. specialize (Hm s).
  destruct (m s) as [[a | e] s']; cbn in *; [done |].
  etrans; [exact Hm | apply Hh].
Qed.

Lemma keeps_forEach {A} (xs : list A) (f : A → M unit) :
  (∀ x, keeps R (f x)) → keeps R (forEach xs f).
Proof.
  intros Hf. induction xs as [| x xs IH]; [apply keeps_ret |].
  apply keeps_bind; [apply Hf | intros _; apply IH].
Qed.

Lemma keeps_if {A} (b : bool) (m1 m2 : M A) :
  keeps R m1 → keeps R m2 → keeps R (if b then m1 else m2).
Proof. by destruct b. Qed.

End Keeps.

#[local] Instance store_untouched_preorder : PreOrder store_untouched.
Proof.
  split.
  - intros s. split; [done |]. exists []. by rewrite app_nil_r.
  - intros s1 s2 s3 [Hd1 (es1 & Ht1 & Hf1)] [Hd2 (es2 & Ht2 & Hf2)].
    split; [congruence |]. exists (es1 ++ es2).
    rewrite Ht2, Ht1, app_assoc. split; [done | by apply Forall_app].
Qed.

Lemma store_untouched_effect (e : Effect) :
  ¬ store_call e → keeps store_untouched (effect e).
Proof. intros He s. split; [done |]. exists [e]. split; [done | by constructor]. Qed.

Lemma store_untouched_fields (f : State → State) :
  (∀ s, db (f s) = db s ∧ trace (f s) = trace s) → keeps store_untouched (modify f).
Proof.
  intros Hf s. destruct (Hf s) as [Hd Ht]. split; [done |].
  exists []. cbn. by rewrite Ht, app_nil_r.
Qed.

Create HintDb untouched discriminated.

(** Follows the structure of a method down to its primitive steps, which
    [leaf] settles. *)
Ltac keeps_structure leaf :=
  repeat first
    [ progress intros
    | apply keeps_bind
    | apply keeps_try_catch
    | apply keeps_forEach
    | apply keeps_if
    | apply keeps_ret
    | apply keeps_throw
    | apply keeps_get
    | match goal with |- PreOrder _ => apply _ end
    | leaf
    | case_match ].

Ltac untouched :=
  keeps_structure
    ltac:(first [ apply store_untouched_fields; intros ?; split; reflexivity
                | apply store_untouched_effect; cbn; tauto ]);
  eauto with untouched.

Lemma rx_unsubscribe_untouched (s : RxSubscriptionWithId) :
  keeps store_untouched (rx_unsubscribe s).
Proof. unfold rx_unsubscribe. untouched. Qed.

Lemma log_untouched level text args : keeps store_untouched (log level text args).
Proof. unfold log. untouched. Qed.

Lemma rx_subscribe_untouched (w : World) (o : Observer) :
  keeps store_untouched (rx_subscribe w o).
Proof. unfold rx_subscribe, external. untouched. Qed.

#[local] Hint Resolve rx_unsubscribe_untouched log_untouched rx_subscribe_untouched : untouched.

Lemma push_subscribed_untouched w acc c o :
  keeps store_untouched (push_subscribed w acc c o).
Proof. unfold push_subscribed. untouched. Qed.

#[local] Hint Resolve push_subscribed_untouched : untouched.

Lemma monitorOrigins_untouched w qs : keeps store_untouched (monitorOrigins w qs).
Proof. unfold monitorOrigins. untouched. Qed.

Lemma monitorDestinations_untouched w qs : keeps store_untouched (monitorDestinations w qs).
Proof.
  unfold monitorDestinations. generalize (@nil RxSubscriptionWithId).
  induction (destinations qs) as [| dest rest IH]; intros acc; cbn [monitorDestinations_loop];
    untouched.
Qed.

Lemma monitorRelay_untouched w qs : keeps store_untouched (monitorRelay w qs).
Proof. unfold monitorRelay. untouched. Qed.

#[local] Hint Resolve monitorOrigins_untouched monitorDestinations_untouched
  monitorRelay_untouched : untouched.

Lemma monitor_untouched w qs : keeps store_untouched (monitor w qs).
Proof. unfold monitor. untouched. Qed.

(** *** Subscribing *)

Lemma subscribe_run (w : World) (qs : Subscription) (st : State) :
  subscribe w qs st =
    if at_cap st
    then (Throw (SubscribeError TOO_MANY_SUBSCRIBERS "too many subscriptions"), st)
    else if ephemeral qs then monitor_and_log w qs st
    else if fails w (DbInsert qs)
         then (Throw (ExternalError (DbInsert qs)), add_trace [Called (DbInsert qs)] st)
         else monitor_and_log w qs (persisted qs st).
Proof.
  unfold subscribe, at_cap. rewrite bind_run. cbn [get].
  destruct (_ || _); [done |].
  rewrite bind_run. destruct (ephemeral qs); cbn [negb]; [done |].
  unfold db_insert. rewrite bind_run, external_run.
  by destruct (fails w (DbInsert qs)).
Qed.

Lemma monitor_and_log_untouched w qs : keeps store_untouched (monitor_and_log w qs).
Proof. unfold monitor_and_log. pose proof (monitor_untouched w qs). untouched. Qed.

(** C6. [subscribe] throws [SubscribeError] with code
    [TOO_MANY_SUBSCRIBERS], and does nothing else, when the count of
    ephemeral or of persistent subscriptions has reached its cap; the caps
    default to 10000. Below the caps, a descriptor that is not ephemeral is
    inserted into the store first, and monitoring starts from the state that
    holds it: when [subscribe] returns, the store holds the descriptor and
    the insertion is the first and only call to the store. For an ephemeral
    descriptor the store is neither called nor changed. *)
Theorem C6_subscribe_caps_and_persistence (w : World) (st : State) (qs : Subscription) :
  (maxEphemeral (constructor {| subscriptionMaxPersistent := None;
                                subscriptionMaxEphemeral := None |}) = 10000%Z
   ∧ maxPersistent (constructor {| subscriptionMaxPersistent := None;
                                   subscriptionMaxEphemeral := None |}) = 10000%Z)
  ∧ ((maxEphemeral st ≤ stats_ephemeral (stats st)
      ∨ maxPersistent st ≤ stats_persistent (stats st))%Z →
     subscribe w qs st =
       (Throw (SubscribeError TOO_MANY_SUBSCRIBERS "too many subscriptions"), st))
  ∧ (ephemeral qs = false →
     ∀ st', subscribe w qs st = (Ok tt, st') →
       subscribe w qs st = monitor_and_log w qs (persisted qs st)
       ∧ db (persisted qs st) !! id qs = Some qs
       ∧ db st' = <[id qs := qs]> (db st)
       ∧ ∃ es, new_effects st st' = Called (DbInsert qs) :: es
               ∧ Forall (λ e, ¬ store_call e) es)
  ∧ (ephemeral qs = true →
     db (exec (subscribe w qs) st) = db st
     ∧ Forall (λ e, ¬ store_call e) (new_effects st (exec (subscribe w qs) st))).
Proof.
  split; [done |].
  split; [| split].
  - intros Hcap. rewrite subscribe_run.
    assert (at_cap st = true) as ->; [| done].
    unfold at_cap. apply orb_true_iff. rewrite !Z.leb_le. done.
  - intros Heph st'. rewrite subscribe_run, Heph.
    destruct (at_cap st); [done |].
    destruct (fails w (DbInsert qs)); [done |].
    intros Hrun. split; [done |]. split; [apply lookup_insert_eq |].
    destruct (monitor_and_log_untouched w qs (persisted qs st)) as [Hdb (es & Htr & Hes)].
    rewrite Hrun in Hdb, Htr. cbn in Hdb, Htr.
    split; [done |]. exists es. split; [| done].
    apply new_effects_app. by rewrite Htr, <- app_assoc.
  - intros Heph. unfold exec. rewrite subscribe_run, Heph.
    destruct (at_cap st); cbn.
    + split; [done |]. by rewrite new_effects_same.
    + destruct (monitor_and_log_untouched w qs st) as [Hdb (es & Htr & Hes)].
      split; [done |]. by rewrite (new_effects_app _ _ _ Htr).
Qed.

Lemma C6_witness :
  db sample_subscribed = <["s1" := sample_subscription]> ∅.
Proof.
  edestruct (proj2 (proj2 (C6_subscribe_caps_and_persistence
                             sample_world (constructor default_options) sample_subscription)))
    as [Hpersistent _].
  edestruct Hpersistent as (_ & _ & Hdb & _).
  - reflexivity.
  - vm_compute. reflexivity.
  - exact Hdb.
Defined.

(** *** An unsubscribed id stays unsubscribed *)

#[local] Instance stays_unsubscribed_preorder (i : string) : PreOrder (stays_unsubscribed i).
Proof.
  split.
  - intros s Hs. split; [done |]. exists []. by rewrite app_nil_r.
  - intros s1 s2 s3 H12 H23 Hs.
    destruct (H12 Hs) as (Hs2 & es1 & Ht1 & Hf1).
    destruct (H23 Hs2) as (Hs3 & es2 & Ht2 & Hf2).
    split; [done |]. exists (es1 ++ es2).
    rewrite Ht2, Ht1, app_assoc. split; [done | by apply Forall_app].
Qed.

Lemma stays_effect (i : string) (e : Effect) :
  ¬ notifies i e → keeps (stays_unsubscribed i) (effect e).
Proof. intros He s Hs. split; [done |]. exists [e]. split; [done | by constructor]. Qed.

Lemma stays_fields (i : string) (f : State → State) :
  (∀ s, (subs s !! i = None → subs (f s) !! i = None) ∧ trace (f s) = trace s) →
  keeps (stays_unsubscribed i) (modify f).
Proof.
  intros Hf s Hs. destruct (Hf s) as [Hsub Ht]. split; [by apply Hsub |].
  exists []. cbn. by rewrite Ht, app_nil_r.
Qed.

Lemma stays_register (i j : string) (h : RxSubscriptionHandler) :
  j ≠ i → keeps (stays_unsubscribed i) (modify (set_subs (<[j := h]>))).
Proof.
  intros Hne. apply stays_fields. intros s. split; [| done].
  cbn. by rewrite lookup_insert_ne.
Qed.

Lemma stays_delete (i j : string) :
  keeps (stays_unsubscribed i) (modify (set_subs (delete j))).
Proof.
  apply stays_fields. intros s. split; [| done].
  cbn. intros Hs. apply lookup_delete_None. by right.
Qed.

Lemma stays_alter (i j : string) (f : RxSubscriptionHandler → RxSubscriptionHandler) :
  keeps (stays_unsubscribed i) (modify (set_subs (alter f j))).
Proof.
  apply stays_fields. intros s. split; [| done].
  cbn. intros Hs. by apply lookup_alter_None.
Qed.

Create HintDb stays discriminated.

Ltac stays :=
  keeps_structure
    ltac:(first [ apply stays_delete
                | apply stays_alter
                | apply stays_register; assumption
                | apply stays_fields; intros ?; split; [intros ?; assumption | reflexivity]
                | apply stays_effect; cbn; tauto ]);
  eauto with stays.

Lemma rx_unsubscribe_stays i s : keeps (stays_unsubscribed i) (rx_unsubscribe s).
Proof. unfold rx_unsubscribe. stays. Qed.

Lemma log_stays i level text args : keeps (stays_unsubscribed i) (log level text args).
Proof. unfold log. stays. Qed.

Lemma external_stays i w c : keeps (stays_unsubscribed i) (external w c).
Proof. unfold external. stays. Qed.

#[local] Hint Resolve rx_unsubscribe_stays log_stays external_stays : stays.

Lemma rx_subscribe_stays i w o : keeps (stays_unsubscribed i) (rx_subscribe w o).
Proof. unfold rx_subscribe. stays. Qed.

#[local] Hint Resolve rx_subscribe_stays : stays.

Lemma push_subscribed_stays i w acc c o :
  keeps (stays_unsubscribed i) (push_subscribed w acc c o).
Proof. unfold push_subscribed. stays. Qed.

#[local] Hint Resolve push_subscribed_stays : stays.

Lemma monitorOrigins_stays i w qs : keeps (stays_unsubscribed i) (monitorOrigins w qs).
Proof. unfold monitorOrigins. stays. Qed.

Lemma monitorDestinations_stays i w qs :
  keeps (stays_unsubscribed i) (monitorDestinations w qs).
Proof.
  unfold monitorDestinations. generalize (@nil RxSubscriptionWithId).
  induction (destinations qs) as [| dest rest IH]; intros acc; cbn [monitorDestinations_loop];
    stays.
Qed.

Lemma monitorRelay_stays i w qs : keeps (stays_unsubscribed i) (monitorRelay w qs).
Proof. unfold monitorRelay. stays. Qed.

#[local] Hint Resolve monitorOrigins_stays monitorDestinations_stays monitorRelay_stays : stays.

Lemma subscribe_stays i w qs : id qs ≠ i → keeps (stays_unsubscribed i) (subscribe w qs).
Proof. intros Hne. unfold subscribe, monitor, db_insert. stays. Qed.

Lemma unsubscribe_stays i w j : keeps (stays_unsubscribed i) (unsubscribe w j).
Proof. unfold unsubscribe, db_remove. stays. Qed.

Lemma destructure_stays i j : keeps (stays_unsubscribed i) (destructure j).
Proof. unfold destructure. stays. Qed.

#[local] Hint Resolve destructure_stays : stays.

Lemma updateEvents_stays i w j : keeps (stays_unsubscribed i) (updateEvents w j).
Proof. unfold updateEvents. stays. Qed.

(** An update of [j] writes [this.#subs[j]] only after it has read it, so
    [j] is registered where it writes and the unregistered [i] is another id. *)
Lemma updateSubscription_stays i sub : keeps (stays_unsubscribed i) (updateSubscription sub).
Proof.
  intros s. destruct (subs s !! id sub) as [h|] eqn:E.
  - rewrite (updateSubscription_known sub h s E). intros Hs.
    refine (stays_register i (id sub) (set_descriptor sub h) _ s Hs). congruence.
  - rewrite (updateSubscription_unknown sub s E).
    exact (stays_effect i (Logged Warn _ _) (λ H, H) s).
Qed.

Lemma updateSenders_stays i j : keeps (stays_unsubscribed i) (updateSenders j).
Proof.
  intros s. destruct (subs s !! j) as [h|] eqn:E.
  - rewrite (updateSenders_known j h s E). intros Hs.
    refine (stays_register i j (set_sendersControl _ h) _ s Hs). congruence.
  - unfold updateSenders. rewrite bind_run, (destructure_none j s E). reflexivity.
Qed.

Lemma updateDestinations_stays i w j : keeps (stays_unsubscribed i) (updateDestinations w j).
Proof.
  intros s. destruct (subs s !! j) as [h|] eqn:E.
  - intros Hs. assert (j ≠ i) as Hne by congruence.
    assert (keeps (stays_unsubscribed i) (updateDestinations w j)) as Hk
      by (unfold updateDestinations, updateDestinationSubscriptions; stays).
    exact (Hk s Hs).
  - unfold updateDestinations. rewrite bind_run, (destructure_none j s E). reflexivity.
Qed.

Lemma onXcmWaypointReached_stays i msg :
  keeps (stays_unsubscribed i) (onXcmWaypointReached msg).
Proof.
  intros s Hs. rewrite onXcmWaypointReached_run.
  destruct (subs s !! subscriptionId msg) as [h|] eqn:E.
  - destruct (events_admit _ _ && matchSenders _ _);
      [| exact (PreOrder_Reflexive (R := stays_unsubscribed i) s Hs)].
    refine (stays_effect i (Notified (descriptor h) msg) _ s Hs). cbn. congruence.
  - exact (stays_effect i (Logged Warn _ _) (λ H, H) s Hs).
Qed.

Lemma perform_stays i w op :
  ¬ subscribes i op → keeps (stays_unsubscribed i) (perform w op).
Proof.
  destruct op; cbn; intros Hop.
  - by apply subscribe_stays.
  - apply unsubscribe_stays.
  - apply updateSubscription_stays.
  - apply updateSenders_stays.
  - apply updateDestinations_stays.
  - apply updateEvents_stays.
  - apply onXcmWaypointReached_stays.
Qed.

Lemma perform_all_stays i w ops st :
  Forall (λ op, ¬ subscribes i op) ops →
  stays_unsubscribed i st (perform_all w ops st).
Proof.
  intros Hops. revert st. induction Hops as [| op ops Hop Hrest IH]; intros st.
  - reflexivity.
  - cbn [perform_all]. etrans; [by apply perform_stays | apply IH].
Qed.

(** C5. [unsubscribe] of a registered subscription returns without throwing
    and leaves: every origin, destination and relay leg of the handler
    unsubscribed and no longer observing; [clearPendingStates(id)] called on
    the engine; for a subscription that is not ephemeral, the record removed
    from the store (when the engine and the store do not reject the calls);
    and the id removed from the subscription map, so that the fan-out finds
    no descriptor: whatever the switchboard is asked to do afterwards, as
    long as the id is not subscribed again, the id stays unregistered and no
    notification is delivered for it. [unsubscribe] of an id that is not
    registered, a second [unsubscribe] included, only logs a warning. *)
Theorem C5_unsubscribe (w : World) (st : State) (i : string) (h : RxSubscriptionHandler) :
  subs st !! i = Some h →
  let st' := exec (unsubscribe w i) st in
  unsubscribe w i st = (Ok tt, st')
  ∧ (∀ s, s ∈ legs h →
       Unsubscribed (sub s) ∈ new_effects st st' ∧ observers st' !! sub s = None)
  ∧ Called (ClearPendingStates i) ∈ new_effects st st'
  ∧ (ephemeral (descriptor h) = false →
     fails w (ClearPendingStates i) = false → fails w (DbRemove i) = false →
     Called (DbRemove i) ∈ new_effects st st' ∧ db st' !! i = None)
  ∧ subs st' !! i = None
  ∧ (∀ msg, subscriptionId msg = i → delivered msg st' = [])
  ∧ (∀ ops, Forall (λ op, ¬ subscribes i op) ops →
       subs (perform_all w ops st') !! i = None
       ∧ Forall (λ e, ¬ notifies i e) (new_effects st' (perform_all w ops st')))
  ∧ (∀ st0, subs st0 !! i = None →
       unsubscribe w i st0 =
         (Ok tt, add_trace [Logged Warn "unsubscribe from a non-existent subscription %s" [i]]
                   st0)).
Proof.
  intros Hh st'. subst st'.
  assert (exec (unsubscribe w i) st = unsubscribe_final w i h st) as ->
    by (unfold exec; by rewrite (unsubscribe_known w i h st Hh)).
  pose proof (unsubscribe_final_trace w i h st) as Ht.
  apply new_effects_app in Ht.
  assert (subs (unsubscribe_final w i h st) !! i = None) as Hgone
    by (rewrite unsubscribe_final_subs; apply lookup_delete_eq).
  split_and!.
  - by apply unsubscribe_known.
  - intros s Hs. split.
    + rewrite Ht. apply elem_of_cons. right. apply elem_of_app. left.
      by apply (list_elem_of_fmap_2 (λ s, Unsubscribed (sub s))).
    + rewrite unsubscribe_final_observers, bool_decide_eq_true_2; [done |].
      by apply list_elem_of_fmap_2.
  - rewrite Ht. apply elem_of_cons. right. apply elem_of_app. right. left.
  - intros He Hc Hr. split.
    + rewrite Ht. apply elem_of_cons. right. apply elem_of_app. right.
      apply elem_of_cons. right. unfold unsubscribe_tail. rewrite Hc, He. left.
    + rewrite unsubscribe_final_db, Hc, He, Hr. apply lookup_delete_eq.
  - done.
  - intros msg Hmsg. rewrite delivered_cases, Hmsg. by rewrite Hgone.
  - intros ops Hops.
    destruct (perform_all_stays i w ops _ Hops Hgone) as (Hsubs & es & Htr & Hes).
    split; [done |]. by rewrite (new_effects_app _ _ _ Htr).
  - apply unsubscribe_unknown.
Qed.

(** [unsubscribe('s1')] on the switchboard that has subscribed [s1]. *)
Lemma C5_witness :
  subs (exec (unsubscribe sample_world "s1") sample_subscribed) !! "s1" = None
  ∧ db (exec (unsubscribe sample_world "s1") sample_subscribed) !! "s1" = None.
Proof.
  edestruct (C5_unsubscribe sample_world sample_subscribed "s1")
    as (_ & _ & _ & Hdb & Hgone & _).
  { vm_compute. reflexivity. }
  split; [exact Hgone | apply Hdb; reflexivity].
Defined.

End SwitchboardFacts.

(** * Further properties *)

(** ** The matching engine: invariants of a run *)

Module EngineRuns.
Import Engine EngineNotions EngineFacts.

Lemma run_cons (l : Leg) (ls : list Leg) (st : State) :
  run (l :: ls) st = run ls (handle l st).
Proof. reflexivity. Qed.

(** One step, by cases on what the counterpart sublevel holds. *)
Lemma handle_cases (l : Leg) (st : State) :
  match l with
  | Sent o =>
      match inbound st !! outKey o with
      | Some i =>
          outbound (handle l st) = outbound st
          ∧ inbound (handle l st) = delete (outKey o) (inbound st)
          ∧ emitted (handle l st) = emitted st ++ [ {| notify_out := o; notify_in := i |} ]
      | None =>
          outbound (handle l st) = <[outKey o := o]> (outbound st)
          ∧ inbound (handle l st) = inbound st
          ∧ emitted (handle l st) = emitted st
      end
  | Received i =>
      match outbound st !! inKey i with
      | Some o =>
          outbound (handle l st) = delete (inKey i) (outbound st)
          ∧ inbound (handle l st) = inbound st
          ∧ emitted (handle l st) = emitted st ++ [ {| notify_out := o; notify_in := i |} ]
      | None =>
          outbound (handle l st) = outbound st
          ∧ inbound (handle l st) = <[inKey i := i]> (inbound st)
          ∧ emitted (handle l st) = emitted st
      end
  end.
Proof.
  destruct l as [o | i]; cbn.
  - destruct (inbound st !! outKey o) as [i|] eqn:E.
    + by rewrite (onOutboundMessage_matches o i st E).
    + by rewrite (onOutboundMessage_stores o st E).
  - destruct (outbound st !! inKey i) as [o|] eqn:E.
    + by rewrite (onInboundMessage_matches o i st E).
    + by rewrite (onInboundMessage_stores i st E).
Qed.

(** The emitted notifications only grow. *)
Lemma handle_emitted (l : Leg) (st : State) :
  ∃ ns, emitted (handle l st) = emitted st ++ ns ∧ (length ns ≤ 1)%nat.
Proof.
  pose proof (handle_cases l st) as H.
  destruct l as [o | i]; repeat case_match; destruct H as (_ & _ & ->);
    first [ eexists [_]; split; [reflexivity | cbn; lia]
          | exists []; split; [by rewrite app_nil_r | cbn; lia] ].
Qed.

Lemma run_emitted (ls : list Leg) (st : State) :
  ∃ ns, emitted (run ls st) = emitted st ++ ns.
Proof.
  revert st. induction ls as [| l ls IH]; intros st.
  - exists []. by rewrite app_nil_r.
  - rewrite run_cons. destruct (IH (handle l st)) as [ns2 ->].
    destruct (handle_emitted l st) as (ns1 & -> & _).
    exists (ns1 ++ ns2). by rewrite app_assoc.
Qed.

Lemma handle_disjoint (l : Leg) (st : State) :
  disjoint_stores st → disjoint_stores (handle l st).
Proof.
  intros Hd k. pose proof (handle_cases l st) as H.
  destruct l as [o | i]; repeat case_match; destruct H as (-> & -> & _).
  - destruct (decide (k = outKey o)) as [-> |]; [right; apply lookup_delete_eq |].
    rewrite lookup_delete_ne by done. apply Hd.
  - destruct (decide (k = outKey o)) as [-> |]; [by right |].
    rewrite lookup_insert_ne by done. apply Hd.
  - destruct (decide (k = inKey i)) as [-> |]; [left; apply lookup_delete_eq |].
    rewrite lookup_delete_ne by done. apply Hd.
  - destruct (decide (k = inKey i)) as [-> |]; [by left |].
    rewrite lookup_insert_ne by done. apply Hd.
Qed.

(** X1. Along any sequence of observations, a confirmation key is never
    pending on both sides at once: the engine either files a leg or consumes
    its counterpart. *)
Theorem X1_stores_stay_disjoint (ls : list Leg) (st : State) :
  disjoint_stores st → disjoint_stores (run ls st).
Proof.
  revert st. induction ls as [| l ls IH]; intros st Hd; [done |].
  rewrite run_cons. by apply IH, handle_disjoint.
Qed.

Lemma X1_witness :
  disjoint_stores
    (run [Sent sample_sent; Received sample_received_other; Sent sample_sent_again] init).
Proof.
  apply (X1_stores_stay_disjoint
           [Sent sample_sent; Received sample_received_other; Sent sample_sent_again] init).
  intros k. left. apply lookup_empty.
Defined.

Lemma handle_well_keyed (l : Leg) (st : State) :
  well_keyed st →
  well_keyed (handle l st)
  ∧ Forall joins_one_key (newly_emitted st (handle l st)).
Proof.
  intros [Ho Hi]. pose proof (handle_cases l st) as H.
  destruct l as [o | i]; repeat case_match; destruct H as (Eo & Ei & Ee);
    rewrite (newly_emitted_app _ _ _ Ee) || rewrite (newly_emitted_app st _ []) by
      (by rewrite app_nil_r);
    (split; [split |]); rewrite ?Eo, ?Ei; try done.
  - intros k i'. rewrite lookup_delete_Some. intros [_ ?]. by apply Hi.
  - repeat constructor. unfold joins_one_key. cbn. symmetry. by apply Hi.
  - intros k o'. rewrite lookup_insert_Some. intros [[<- <-] | [_ ?]]; [done | by apply Ho].
  - intros k o'. rewrite lookup_delete_Some. intros [_ ?]. by apply Ho.
  - repeat constructor. unfold joins_one_key. cbn. by apply Ho.
  - intros k i'. rewrite lookup_insert_Some. intros [[<- <-] | [_ ?]]; [done | by apply Hi].
Qed.

(** X2. When every pending entry is filed under its own key, it stays so
    along any sequence of observations, and every notification emitted on
    the way joins a sent and a received leg of one and the same confirmation
    key. *)
Theorem X2_notifications_join_one_key (ls : list Leg) (st : State) :
  well_keyed st →
  well_keyed (run ls st)
  ∧ Forall joins_one_key (newly_emitted st (run ls st)).
Proof.
  revert st. induction ls as [| l ls IH]; intros st Hk.
  - split; [done |]. change (run [] st) with st.
    by rewrite (newly_emitted_app st st []) by (by rewrite app_nil_r).
  - rewrite run_cons.
    destruct (handle_well_keyed l st Hk) as [Hk1 Hn1].
    destruct (IH (handle l st) Hk1) as [Hk2 Hn2]. split; [done |].
    destruct (handle_emitted l st) as (ns1 & E1 & _).
    destruct (run_emitted ls (handle l st)) as [ns2 E2].
    rewrite (newly_emitted_app _ _ _ E1) in Hn1.
    rewrite (newly_emitted_app _ _ _ E2) in Hn2.
    rewrite (newly_emitted_app st _ (ns1 ++ ns2)) by (by rewrite E2, E1, app_assoc).
    by apply Forall_app.
Qed.

Lemma X2_witness :
  Forall joins_one_key
    (newly_emitted init
       (run [Received sample_received; Sent sample_sent; Sent sample_sent_again] init)).
Proof.
  apply (X2_notifications_join_one_key
           [Received sample_received; Sent sample_sent; Sent sample_sent_again] init).
  split; intros k x; cbn [init outbound inbound]; rewrite lookup_empty; discriminate.
Defined.

Lemma append_empty (s : string) : "" +:+ s = s.
Proof. reflexivity. Qed.

Lemma append_String (c : Ascii.ascii) (s t : string) :
  String c s +:+ t = String c (s +:+ t).
Proof. reflexivity. Qed.

(** A key with a colon-free hash splits in one way only. *)
Lemma key_split (h1 h2 r1 r2 : string) :
  colon_free h1 = true → colon_free h2 = true →
  h1 +:+ ":" +:+ r1 = h2 +:+ ":" +:+ r2 →
  h1 = h2 ∧ r1 = r2.
Proof.
  revert h2. induction h1 as [| c1 h1 IH]; intros [| c2 h2];
    repeat (rewrite append_empty || rewrite append_String); cbn [colon_free].
  - intros _ _ [= ->]. done.
  - intros _ Hc [= <- _]. by rewrite Ascii.eqb_refl in Hc.
  - intros Hc _ [= -> _]. by rewrite Ascii.eqb_refl in Hc.
  - intros [_ H1]%andb_true_iff [_ H2]%andb_true_iff [= -> E].
    destruct (IH h2 H1 H2 E) as [-> ->]. done.
Qed.

(** X3. For legs whose message hash holds no [':'] (a hex string), the
    sent and the received leg have the same confirmation key if and only if
    they carry the same message hash and the receiving chain is the sent
    message's recipient. *)
Theorem X3_same_key_iff_same_message (o : XcmMessageSent) (i : XcmMessageReceived) :
  colon_free (sent_messageHash o) = true →
  colon_free (recv_messageHash i) = true →
  inKey i = outKey o ↔
    sent_messageHash o = recv_messageHash i ∧ recv_chainId i = sent_recipient o.
Proof.
  intros Ho Hi. split.
  - unfold inKey, outKey. intros E.
    destruct (key_split _ _ _ _ Hi Ho E) as [-> ->]. done.
  - intros [Hh Hc]. by apply same_key.
Qed.

Lemma X3_witness :
  inKey sample_received = outKey sample_sent ↔
    sent_messageHash sample_sent = recv_messageHash sample_received
    ∧ recv_chainId sample_received = sent_recipient sample_sent.
Proof.
  apply (X3_same_key_iff_same_message sample_sent sample_received); reflexivity.
Defined.

Lemma size_delete_present `{Countable K} {A} (m : gmap K A) (k : K) (x : A) :
  m !! k = Some x → (S (size (delete k m)) = size m)%nat.
Proof.
  intros Hk. rewrite map_size_delete, Hk.
  destruct (size m) eqn:E; [| done].
  apply map_size_empty_iff in E. subst m. by rewrite lookup_empty in Hk.
Qed.

Lemma size_insert_le `{Countable K} {A} (m : gmap K A) (k : K) (x : A) :
  (size (<[k := x]> m) ≤ S (size m))%nat.
Proof. rewrite map_size_insert. destruct (m !! k); cbn; lia. Qed.

Lemma handle_count (l : Leg) (st : State) :
  (2 * length (emitted (handle l st)) + pending (handle l st)
   ≤ 2 * length (emitted st) + pending st + 1)%nat.
Proof.
  pose proof (handle_cases l st) as H. unfold pending.
  destruct l as [o | i]; repeat case_match; destruct H as (-> & -> & ->);
    rewrite ?length_app; cbn [length].
  - pose proof (size_delete_present (inbound st) (outKey o) _ ltac:(eassumption)). lia.
  - pose proof (size_insert_le (outbound st) (outKey o) o). lia.
  - pose proof (size_delete_present (outbound st) (inKey i) _ ltac:(eassumption)). lia.
  - pose proof (size_insert_le (inbound st) (inKey i) i). lia.
Qed.

(** X4. Every notification uses up two observations and every pending entry
    one: after any sequence of observations, twice the number of
    notifications emitted plus the number of pending entries has grown by no
    more than the number of observations handled. *)
Theorem X4_observations_bound_the_engine (ls : list Leg) (st : State) :
  (2 * length (emitted (run ls st)) + pending (run ls st)
   ≤ 2 * length (emitted st) + pending st + length ls)%nat.
Proof.
  revert st. induction ls as [| l ls IH]; intros st; [cbn; lia |].
  rewrite run_cons. specialize (IH (handle l st)).
  pose proof (handle_count l st). cbn [length]. lia.
Qed.

(** X5. Observations of one side only are never matched: while no received
    leg is pending, any number of sent legs emits nothing and leaves the
    inbound side empty (and likewise for received legs alone). *)
Theorem X5_one_side_alone_emits_nothing (ls : list Leg) (st : State) :
  (Forall (λ l, is_sent l = true) ls → inbound st = ∅ →
   emitted (run ls st) = emitted st ∧ inbound (run ls st) = ∅)
  ∧ (Forall (λ l, is_sent l = false) ls → outbound st = ∅ →
     emitted (run ls st) = emitted st ∧ outbound (run ls st) = ∅).
Proof.
  split; intros Hls; revert st;
    induction Hls as [| l ls Hl Hrest IH]; intros st Hempty; try done;
    rewrite run_cons; pose proof (handle_cases l st) as H;
    destruct l as [o | i]; try discriminate Hl;
    rewrite Hempty, lookup_empty in H; destruct H as (Eo & Ei & Ee).
  - destruct (IH (handle (Sent o) st)) as [-> ->]; [by rewrite Ei | done].
  - destruct (IH (handle (Received i) st)) as [-> ->]; [by rewrite Eo | done].
Qed.

Lemma X5_witness :
  emitted (run [Sent sample_sent; Sent sample_sent_again] init) = []
  ∧ inbound (run [Sent sample_sent; Sent sample_sent_again] init) = ∅.
Proof.
  apply (X5_one_side_alone_emits_nothing [Sent sample_sent; Sent sample_sent_again] init).
  - repeat constructor.
  - reflexivity.
Defined.

(** X6. A sent leg observed twice before its counterpart overwrites the
    pending entry: when the received leg arrives, the one notification joins
    it with the later sent leg, and the earlier one is never notified. *)
Theorem X6_later_sent_leg_replaces_the_pending_one
    (st : State) (o1 o2 : XcmMessageSent) (i : XcmMessageReceived) :
  outKey o1 = outKey o2 →
  inKey i = outKey o2 →
  inbound st !! outKey o2 = None →
  newly_emitted st (run [Sent o1; Sent o2; Received i] st)
    = [ {| notify_out := o2; notify_in := i |} ]
  ∧ outbound (run [Sent o1; Sent o2; Received i] st) !! outKey o2 = None
  ∧ inbound (run [Sent o1; Sent o2; Received i] st) = inbound st.
Proof.
  intros H12 Hi Hin.
  rewrite run_cons. cbn [handle].
  rewrite (onOutboundMessage_stores o1 st) by (by rewrite H12).
  destruct (match_in_order
              {| outbound := <[outKey o1 := o1]> (outbound st); inbound := inbound st;
                 emitted := emitted st;
                 log := log st ++ [LogStored (sent_chainId o1) (outKey o1)] |}
              o2 i Hi Hin) as (He & Ho & Hi').
  split; [by apply newly_emitted_app | done].
Qed.

Lemma X6_witness :
  newly_emitted init (run [Sent sample_sent; Sent sample_sent_again; Received sample_received] init)
    = [ {| notify_out := sample_sent_again; notify_in := sample_received |} ].
Proof.
  apply (X6_later_sent_leg_replaces_the_pending_one
           init sample_sent sample_sent_again sample_received); reflexivity.
Defined.

(** The pending stores after one step, as functions of the stores before. *)
Lemma handle_lookup_other (l : Leg) (st : State) (k : string) :
  k ≠ leg_key l →
  outbound (handle l st) !! k = outbound st !! k
  ∧ inbound (handle l st) !! k = inbound st !! k.
Proof.
  intros Hk. pose proof (handle_cases l st) as H.
  destruct l as [o | i]; cbn in Hk; repeat case_match; destruct H as (-> & -> & _);
    by rewrite ?lookup_insert_ne, ?lookup_delete_ne by done.
Qed.

(** X7. The engine assumes no ordering between different messages: two
    observations with different confirmation keys can be handled in either
    order, with the same pending entries afterwards and the same
    notifications emitted (their order aside). *)
Theorem X7_different_keys_commute (l1 l2 : Leg) (st : State) :
  leg_key l1 ≠ leg_key l2 →
  outbound (run [l1; l2] st) = outbound (run [l2; l1] st)
  ∧ inbound (run [l1; l2] st) = inbound (run [l2; l1] st)
  ∧ emitted (run [l1; l2] st) ≡ₚ emitted (run [l2; l1] st).
Proof.
  intros Hne. rewrite !run_cons. change (run [] ?s) with s.
  pose proof (handle_cases l1 st) as H1.
  pose proof (handle_cases l2 st) as H2.
  pose proof (handle_cases l2 (handle l1 st)) as H12.
  pose proof (handle_cases l1 (handle l2 st)) as H21.
  destruct (handle_lookup_other l1 st (leg_key l2)) as [Ho1 Hi1]; [done |].
  destruct (handle_lookup_other l2 st (leg_key l1)) as [Ho2 Hi2]; [done |].
  destruct l1 as [o1 | i1], l2 as [o2 | i2]; cbn [leg_key] in *;
    rewrite ?Ho1, ?Hi1 in H12; rewrite ?Ho2, ?Hi2 in H21;
    repeat case_match; simplify_eq;
    destruct H1 as (Eo1 & Ei1 & Ee1), H2 as (Eo2 & Ei2 & Ee2),
      H12 as (-> & -> & ->), H21 as (-> & -> & ->);
    rewrite Eo1, Ei1, Ee1, Eo2, Ei2, Ee2.
  all: split_and!;
    rewrite <- ?app_assoc;
    first [ done
          | by apply insert_insert_ne
          | by apply delete_delete
          | by apply delete_insert_ne
          | by (symmetry; apply delete_insert_ne)
          | by apply Permutation_app_head, Permutation_app_comm ].
Qed.

Lemma X7_witness :
  outbound (run [Sent sample_sent; Received sample_received_other] init)
    = outbound (run [Received sample_received_other; Sent sample_sent] init)
  ∧ inbound (run [Sent sample_sent; Received sample_received_other] init)
    = inbound (run [Received sample_received_other; Sent sample_sent] init)
  ∧ emitted (run [Sent sample_sent; Received sample_received_other] init)
    ≡ₚ emitted (run [Received sample_received_other; Sent sample_sent] init).
Proof.
  apply (X7_different_keys_commute (Sent sample_sent) (Received sample_received_other) init).
  vm_compute. discriminate.
Defined.

End EngineRuns.

(** ** The criteria: who and what is admitted *)

Module CriteriaMore.
Import Criteria CriteriaNotions CriteriaFacts.

(** X8. A sent message passes the message control built from a list of
    recipients exactly when its recipient is in the list; with an empty list
    nothing passes. *)
Theorem X8_matchMessage_is_membership (recipients : list string) (recipient : string) :
  matchMessage (ControlQuery_from (messageCriteria recipients)) recipient
    = bool_decide (recipient ∈ recipients)
  ∧ matchMessage (ControlQuery_from (messageCriteria [])) recipient = false.
Proof.
  assert (∀ rs, matchMessage (ControlQuery_from (messageCriteria rs)) recipient
                = bool_decide (recipient ∈ rs)) as H.
  { intros rs. unfold matchMessage, messageCriteria. cbn -[resolve op_in].
    rewrite resolve_field. cbn. by rewrite andb_true_r. }
  split; [apply H |]. rewrite H. apply bool_decide_eq_false_2, not_elem_of_nil.
Qed.

(** *** Reading and writing object properties *)

Lemma obj_get_set_eq (k : string) (v : Json) (o : list (string * Json)) :
  obj_get k (obj_set k v o) = Some v.
Proof.
  induction o as [| [k' v'] o IH]; cbn.
  - by rewrite String.eqb_refl.
  - destruct (String.eqb k' k) eqn:E; cbn; rewrite E; [done | apply IH].
Qed.

Lemma obj_get_set_ne (k k' : string) (v : Json) (o : list (string * Json)) :
  k ≠ k' → obj_get k' (obj_set k v o) = obj_get k' o.
Proof.
  intros Hne. induction o as [| [k0 v0] o IH]; cbn.
  - by apply String.eqb_neq in Hne as ->.
  - destruct (String.eqb k0 k) eqn:E; cbn; [| by rewrite IH].
    apply String.eqb_eq in E as ->. by apply String.eqb_neq in Hne as ->.
Qed.

(** [Object.assign] leaves, for every name, the last property of that name
    the source lists, and the target's own where the source lists none. *)
Lemma obj_get_assign1 (k : string) (props : list (string * Prim))
    (target : list (string * Json)) :
  obj_get k (assign1 target (map (λ kv, (kv.1, prim_json kv.2)) props)) =
    match last_property k props with
    | Some p => Some (prim_json p)
    | None => obj_get k target
    end.
Proof.
  revert target. induction props as [| [k' p] props IH]; intros target; [done |].
  cbn [map assign1 foldl fst snd last_property].
  change (foldl ?f ?a ?l) with (assign1 a l). rewrite IH.
  destruct (last_property k props); [done |].
  destruct (String.eqb k' k) eqn:E.
  - apply String.eqb_eq in E as ->. apply obj_get_set_eq.
  - apply String.eqb_neq in E. by apply obj_get_set_ne.
Qed.

(** What the two tested fields of a signer's document hold. *)
Lemma signerDoc_publicKey (a : Address) :
  obj_get "publicKey" (signerDoc a) = Some (JStr (value_toHex a)).
Proof. unfold signerDoc. cbn -[assign1 obj_get]. cbn [assign1 foldl fst snd]. apply obj_get_set_eq. Qed.

Lemma signerDoc_id (a : Address) :
  obj_get "id" (signerDoc a) = prim_json <$> last_property "id" (toPrimitive a).
Proof.
  unfold signerDoc. cbn -[assign1 obj_get]. cbn [assign1 foldl fst snd] .
  rewrite obj_get_set_ne by done. unfold primitive_object.
  rewrite obj_get_assign1. by destruct (last_property "id" (toPrimitive a)).
Qed.

Lemma extraSignerDoc_publicKey (s : ExtraSigner) :
  obj_get "publicKey" (extraSignerDoc s) = Some (JStr (value_toHex (signer_address s))).
Proof.
  unfold extraSignerDoc. cbn -[assign1 obj_get]. cbn [assign1 foldl fst snd].
  apply obj_get_set_eq.
Qed.

Lemma extraSignerDoc_id (s : ExtraSigner) :
  obj_get "id" (extraSignerDoc s)
    = prim_json <$> last_property "id" (toPrimitive (signer_address s)).
Proof.
  unfold extraSignerDoc. cbn -[assign1 obj_get]. cbn [assign1 foldl fst snd].
  rewrite !obj_get_set_ne by done. unfold primitive_object.
  rewrite obj_get_assign1. by destruct (last_property "id" _).
Qed.

Lemma field_in_publicKey (senders : list string) (doc : list (string * Json)) (hex : string) :
  obj_get "publicKey" doc = Some (JStr hex) →
  field_in "publicKey" senders doc = bool_decide (hex ∈ senders).
Proof. intros E. unfold field_in. by rewrite E. Qed.

Lemma field_in_id (senders : list string) (doc : list (string * Json)) (a : Address) :
  obj_get "id" doc = prim_json <$> last_property "id" (toPrimitive a) →
  field_in "id" senders doc = true ↔ ∃ s, address_id a = Some s ∧ s ∈ senders.
Proof.
  intros E. unfold field_in, address_id. rewrite E.
  destruct (last_property "id" (toPrimitive a)) as [[s | n]|]; cbn.
  - rewrite bool_decide_eq_true. split; [by exists s | by intros (? & [= <-] & ?)].
  - split; [done | by intros (? & [=] & _)].
  - split; [done | by intros (? & [=] & _)].
Qed.

Lemma listed_signer (senders : list string) (a : Address) :
  field_in "id" senders (signerDoc a) || field_in "publicKey" senders (signerDoc a) = true
  ↔ listed senders a.
Proof.
  rewrite orb_true_iff, (field_in_id senders _ a (signerDoc_id a)),
    (field_in_publicKey senders _ _ (signerDoc_publicKey a)), bool_decide_eq_true.
  unfold listed. tauto.
Qed.

Lemma listed_extraSigner (senders : list string) (s : ExtraSigner) :
  field_in "id" senders (extraSignerDoc s)
  || field_in "publicKey" senders (extraSignerDoc s) = true
  ↔ listed senders (signer_address s).
Proof.
  rewrite orb_true_iff, (field_in_id senders _ _ (extraSignerDoc_id s)),
    (field_in_publicKey senders _ _ (extraSignerDoc_publicKey s)), bool_decide_eq_true.
  unfold listed. tauto.
Qed.

Lemma sender_among_listed (senders : list string) (xt : ExtrinsicWithId) :
  sender_among senders xt = true ↔ ∃ a, a ∈ signers xt ∧ listed senders a.
Proof.
  unfold sender_among, signers.
  rewrite !orb_true_iff, !existsb_exists.
  setoid_rewrite <- list_elem_of_In.
  split.
  - intros [[[H | H] | (s & Hs & H)] | (s & Hs & H)].
    + exists (signer xt). split; [left |]. apply listed_signer. by rewrite H.
    + exists (signer xt). split; [left |]. apply listed_signer. by rewrite H, orb_true_r.
    + exists (signer_address s). split.
      * right. apply list_elem_of_In, in_map, list_elem_of_In, Hs.
      * apply listed_extraSigner. by rewrite H.
    + exists (signer_address s). split.
      * right. apply list_elem_of_In, in_map, list_elem_of_In, Hs.
      * apply listed_extraSigner. by rewrite H, orb_true_r.
  - intros (a & [-> | Ha]%elem_of_cons & Hl).
    + apply listed_signer, orb_true_iff in Hl. tauto.
    + apply list_elem_of_In, in_map_iff in Ha as (s & <- & Hs%list_elem_of_In).
      apply listed_extraSigner, orb_true_iff in Hl as [H | H]; [left; right | right]; eauto.
Qed.

(** X9. With a list of senders, [matchSenders] admits an extrinsic exactly
    when one of its signers, the signer or an extra signer, is listed by its
    public key in hex or by the account address its primitive form shows as
    [id]; nothing else of the extrinsic is looked at. *)
Theorem X9_matchSenders_admits_listed_signers
    (senders : list string) (xt : ExtrinsicWithId) :
  matchSenders (ControlQuery_from (sendersCriteria (SendersList senders))) (Some xt) = true
  ↔ ∃ a, a ∈ signers xt
         ∧ (value_toHex a ∈ senders ∨ ∃ s, address_id a = Some s ∧ s ∈ senders).
Proof.
  unfold matchSenders. cbn [value ControlQuery_from].
  rewrite test_senders_list. apply sender_among_listed.
Qed.

(** X10. Listing more senders never locks out an extrinsic that was admitted
    before. *)
Theorem X10_more_senders_admit_more
    (senders senders' : list string) (xt : ExtrinsicWithId) :
  (∀ s, s ∈ senders → s ∈ senders') →
  matchSenders (ControlQuery_from (sendersCriteria (SendersList senders))) (Some xt) = true →
  matchSenders (ControlQuery_from (sendersCriteria (SendersList senders'))) (Some xt) = true.
Proof.
  intros Hsub. unfold matchSenders. cbn [value ControlQuery_from].
  rewrite !test_senders_list, !sender_among_listed.
  intros (a & Ha & [Hhex | (s & Hid & Hs)]); exists a; (split; [done |]).
  - left. by apply Hsub.
  - right. exists s. split; [done | by apply Hsub].
Qed.

Lemma X10_witness :
  matchSenders
    (ControlQuery_from
       (sendersCriteria
          (SendersList ["0x8eaf04151687736326c9fea17e25fc5287613693c912909cb226aa4794f26a48";
                        "5GrwvaEF5zXb26Fz9rcQpDWS57CtERHpNehXCPcNoHGKutQY"])))
    (Some sample_extrinsic) = true.
Proof.
  apply (X10_more_senders_admit_more
           ["0x8eaf04151687736326c9fea17e25fc5287613693c912909cb226aa4794f26a48"]).
  - intros s Hs. apply elem_of_cons in Hs as [-> | Hs]; [left | by apply elem_of_nil in Hs].
  - reflexivity.
Defined.

End CriteriaMore.

(** ** The switchboard: what its operations keep *)

Module SwitchboardFrames.
Import Criteria Switchboard SwitchboardNotions SwitchboardFacts.

(** Follows the structure of a method, settling with [leaf] every step
    that [leaf] knows, before looking inside it. *)
Ltac keeps_by leaf :=
  repeat first
    [ progress intros
    | leaf
    | apply keeps_bind
    | apply keeps_try_catch
    | apply keeps_forEach
    | apply keeps_if
    | apply keeps_ret
    | apply keeps_throw
    | apply keeps_get
    | match goal with |- PreOrder _ => apply _ end
    | case_match ].

(** *** Attaching and detaching observers *)

(** What logging, attaching and detaching keep, the methods that only
    attach, detach and log keep as well. *)
Section Legs.
Context (w : World) (R : State → State → Prop) `{!PreOrder R}.
Hypothesis R_effect : ∀ e, keeps R (effect e).
Hypothesis R_observers : ∀ f, keeps R (modify (set_observers f)).
Hypothesis R_nextSub : ∀ n, keeps R (modify (set_nextSub n)).

Lemma log_keeps level text args : keeps R (log level text args).
Proof. apply R_effect. Qed.

Lemma rx_unsubscribe_keeps (s : RxSubscriptionWithId) : keeps R (rx_unsubscribe s).
Proof. unfold rx_unsubscribe. keeps_by ltac:(first [apply R_effect | apply R_observers]). Qed.

Lemma external_keeps (c : External) : keeps R (external w c).
Proof. unfold external. keeps_by ltac:(apply R_effect). Qed.

Lemma rx_subscribe_keeps (o : Observer) : keeps R (rx_subscribe w o).
Proof.
  unfold rx_subscribe, external.
  keeps_by ltac:(first [apply R_effect | apply R_observers | apply R_nextSub]).
Qed.

Lemma push_subscribed_keeps acc c o : keeps R (push_subscribed w acc c o).
Proof.
  unfold push_subscribed.
  keeps_by ltac:(first [apply rx_subscribe_keeps | apply rx_unsubscribe_keeps]).
Qed.

Lemma monitorOrigins_keeps qs : keeps R (monitorOrigins w qs).
Proof.
  unfold monitorOrigins.
  keeps_by ltac:(first [ apply push_subscribed_keeps | apply R_effect ]).
Qed.

Lemma monitorDestinations_loop_keeps qs dests acc :
  keeps R (monitorDestinations_loop w qs dests acc).
Proof.
  revert acc. induction dests as [| dest rest IH]; intros acc; cbn [monitorDestinations_loop];
    keeps_by ltac:(first [ apply IH | apply push_subscribed_keeps | apply R_effect ]).
Qed.

Lemma monitorDestinations_keeps qs : keeps R (monitorDestinations w qs).
Proof. apply monitorDestinations_loop_keeps. Qed.

Lemma monitorRelay_keeps qs : keeps R (monitorRelay w qs).
Proof.
  unfold monitorRelay.
  keeps_by ltac:(first [ apply rx_subscribe_keeps | apply R_effect ]).
Qed.

End Legs.

(** The methods that only attach, detach and log, for a relation whose
    three primitive steps [leaf] settles. *)
Ltac legs_keep leaf :=
  first
    [ apply monitorOrigins_keeps
    | apply monitorDestinations_keeps
    | apply monitorRelay_keeps
    | apply rx_unsubscribe_keeps
    | apply external_keeps ];
  try (match goal with |- PreOrder _ => apply _ end);
  intros; leaf.

(** *** Operations on one subscription leave the others alone *)

#[local] Instance handler_kept_preorder (i : string) : PreOrder (handler_kept i).
Proof.
  split; [by intros s |]. intros s1 s2 s3 H12 H23. unfold handler_kept in *. congruence.
Qed.

Lemma handler_kept_fields (i : string) (f : State → State) :
  (∀ s, subs (f s) !! i = subs s !! i) → keeps (handler_kept i) (modify f).
Proof. intros Hf s. apply Hf. Qed.

Lemma handler_kept_register (i j : string) (h : RxSubscriptionHandler) :
  j ≠ i → keeps (handler_kept i) (modify (set_subs (<[j := h]>))).
Proof. intros Hne. apply handler_kept_fields. intros s. cbn. by rewrite lookup_insert_ne. Qed.

Lemma handler_kept_delete (i j : string) :
  j ≠ i → keeps (handler_kept i) (modify (set_subs (delete j))).
Proof. intros Hne. apply handler_kept_fields. intros s. cbn. by rewrite lookup_delete_ne. Qed.

Lemma handler_kept_alter (i j : string) (f : RxSubscriptionHandler → RxSubscriptionHandler) :
  j ≠ i → keeps (handler_kept i) (modify (set_subs (alter f j))).
Proof. intros Hne. apply handler_kept_fields. intros s. cbn. by rewrite lookup_alter_ne. Qed.

Ltac handler_kept_step :=
  first [ apply handler_kept_register; assumption
        | apply handler_kept_delete; assumption
        | apply handler_kept_alter; assumption
        | apply handler_kept_fields; intros ?; reflexivity ].

Ltac handler_kept :=
  keeps_by ltac:(first [ legs_keep handler_kept_step | handler_kept_step ]).

Lemma subscribe_handler_kept w i qs : id qs ≠ i → keeps (handler_kept i) (subscribe w qs).
Proof. intros Hne. unfold subscribe, db_insert, monitor. handler_kept. Qed.

Lemma unsubscribe_handler_kept w i j : j ≠ i → keeps (handler_kept i) (unsubscribe w j).
Proof. intros Hne. unfold unsubscribe, db_remove. handler_kept. Qed.

Lemma updateDestinations_handler_kept w i j :
  j ≠ i → keeps (handler_kept i) (updateDestinations w j).
Proof.
  intros Hne. unfold updateDestinations, updateDestinationSubscriptions, destructure.
  handler_kept.
Qed.

Lemma updateEvents_handler_kept w i j : j ≠ i → keeps (handler_kept i) (updateEvents w j).
Proof. intros Hne. unfold updateEvents, destructure. handler_kept. Qed.

Lemma perform_handler_kept (w : World) (i : string) (op : Op) :
  op_id op ≠ Some i → keeps (handler_kept i) (perform w op).
Proof.
  destruct op as [qs | j | sub | j | j | j | msg]; cbn [perform op_id]; intros Hne.
  - apply subscribe_handler_kept. congruence.
  - apply unsubscribe_handler_kept. congruence.
  - assert (id sub ≠ i) by congruence. unfold updateSubscription. handler_kept.
  - assert (j ≠ i) by congruence. unfold updateSenders, destructure. handler_kept.
  - apply updateDestinations_handler_kept. congruence.
  - apply updateEvents_handler_kept. congruence.
  - unfold onXcmWaypointReached. handler_kept.
Qed.

(** *** The counters stay within the caps *)

#[local] Instance counters_kept_preorder : PreOrder counters_kept.
Proof.
  split; [by intros s |]. intros s1 s2 s3 (? & ? & ?) (? & ? & ?).
  unfold counters_kept. split_and!; congruence.
Qed.

#[local] Instance no_growth_preorder : PreOrder no_growth.
Proof.
  split; [intros s; unfold no_growth; split_and!; (done || lia) |].
  intros s1 s2 s3 (? & ? & ? & ?) (? & ? & ? & ?).
  unfold no_growth. split_and!; (congruence || lia).
Qed.









(** X11. Whatever the switchboard is asked to do for other subscription
    ids, in any number and order, returning or throwing, and whatever it
    fans out, the handler registered under an id stays the one it was. *)
Theorem X11_operations_on_other_ids_keep_a_handler
    (w : World) (i : string) (ops : list Op) (st : State) :
  Forall (λ op, op_id op ≠ Some i) ops →
  subs (perform_all w ops st) !! i = subs st !! i.
Proof.
  revert st. induction ops as [| op ops IH]; intros st Hops; [done |].
  apply Forall_cons in Hops as [Hop Hops]. cbn [perform_all].
  rewrite IH by done. apply (perform_handler_kept w i op Hop st).
Qed.

Lemma X11_witness :
  subs (perform_all sample_world
          [OpSubscribe sample_subscription_2; OpUpdateDestinations "s2";
           OpWaypointReached sample_received_from_B; OpUnsubscribe "s2"]
          sample_subscribed) !! "s1"
  = subs sample_subscribed !! "s1".
Proof.
  apply X11_operations_on_other_ids_keep_a_handler.
  repeat constructor; cbn; discriminate.
Defined.



End SwitchboardFrames.

(** ** The switchboard: the legs of the handlers *)

Module SwitchboardLegs.
Import Criteria Switchboard SwitchboardNotions SwitchboardFacts.
#[local] Open Scope nat_scope.

(** *** Handles *)

Lemma detach_fields l st :
  subs (detach l st) = subs st ∧ stats (detach l st) = stats st ∧ db (detach l st) = db st
  ∧ maxEphemeral (detach l st) = maxEphemeral st
  ∧ maxPersistent (detach l st) = maxPersistent st
  ∧ nextSub (detach l st) = nextSub st.
Proof.
  revert st. induction l as [| x l IH]; intros st; [done |].
  cbn [detach]. destruct (IH (detach1 x st)) as (-> & -> & -> & -> & -> & ->). done.
Qed.

Lemma older_kept_refl n0 s : older_kept n0 s s.
Proof. by repeat split. Qed.

Lemma older_kept_trans n0 s1 s2 s3 :
  older_kept n0 s1 s2 → older_kept n0 s2 s3 → older_kept n0 s1 s3.
Proof.
  intros (? & ? & ? & ? & ? & H12) (? & ? & ? & ? & ? & H23).
  repeat split; try congruence. intros k Hk. rewrite H23, H12; done.
Qed.

Lemma older_kept_le n0 n1 s s' : n0 ≤ n1 → older_kept n1 s s' → older_kept n0 s s'.
Proof.
  intros Hle (? & ? & ? & ? & ? & H). repeat split; try done. intros k Hk. apply H. lia.
Qed.

Lemma older_kept_add_trace n0 es s : older_kept n0 s (add_trace es s).
Proof. by repeat split. Qed.

Lemma older_kept_attach n0 o s : n0 ≤ nextSub s → older_kept n0 s (attach o s).
Proof.
  intros Hle. repeat split; try done. intros k Hk. cbn.
  apply lookup_insert_ne. lia.
Qed.

Lemma older_kept_detach n0 acc s :
  Forall (λ x, n0 ≤ sub x) acc → older_kept n0 s (detach acc s).
Proof.
  intros Hacc. destruct (detach_fields acc s) as (? & ? & ? & ? & ? & ?).
  repeat split; try done. intros k Hk. rewrite detach_observers.
  case_bool_decide as Hin; [| done].
  apply list_elem_of_fmap in Hin as (x & -> & Hx).
  rewrite Forall_forall in Hacc. specialize (Hacc x Hx). lia.
Qed.

Lemma tracked_same n0 P acc s s' :
  observers s' = observers s → nextSub s' = nextSub s →
  tracked n0 P acc s → tracked n0 P acc s'.
Proof.
  intros Ho Hn (Hle & Hf & Hnd & Honly & Hall).
  unfold tracked, fresh, attached in *. rewrite Ho, Hn. done.
Qed.

Lemma tracked_add_trace n0 P acc es s :
  tracked n0 P acc s → tracked n0 P acc (add_trace es s).
Proof. by apply tracked_same. Qed.

Lemma tracked_below n0 P acc s :
  tracked n0 P acc s → ∀ x, x ∈ acc → n0 ≤ sub x < nextSub s.
Proof.
  intros (Hle & Hf & Hnd & Honly & Hall) x Hx.
  rewrite Forall_forall in Hall. destruct (Hall x Hx) as [Hn0 (o & Ho & _)].
  split; [done |]. destruct (decide (sub x < nextSub s)) as [| Hge]; [done |].
  rewrite Hf in Ho by lia. done.
Qed.

Lemma tracked_nil n0 P s : n0 = nextSub s → fresh s → tracked n0 P [] s.
Proof.
  intros -> Hf. split_and!; [done | done | constructor | | constructor].
  intros k Hk [o Ho]. rewrite Hf in Ho by done. done.
Qed.

Lemma tracked_attach n0 P acc o c s :
  tracked n0 P acc s → P {| chainId := c; sub := nextSub s |} o →
  tracked n0 P (acc ++ [ {| chainId := c; sub := nextSub s |} ]) (attach o s).
Proof.
  intros Ht HP. pose proof (tracked_below _ _ _ _ Ht) as Hbelow.
  destruct Ht as (Hle & Hf & Hnd & Honly & Hall).
  split_and!.
  - cbn. lia.
  - intros n Hn. cbn in *. rewrite lookup_insert_ne by lia. apply Hf. lia.
  - rewrite fmap_app. apply NoDup_app. split_and!; [done | | apply NoDup_singleton].
    intros k Hk. cbn. rewrite list_elem_of_singleton. intros ->.
    apply list_elem_of_fmap in Hk as (x & Hx & Hin). specialize (Hbelow x Hin). lia.
  - intros k Hk. cbn. rewrite fmap_app, elem_of_app. cbn.
    destruct (decide (k = nextSub s)) as [-> | Hne].
    + intros _. right. apply list_elem_of_singleton. done.
    + rewrite lookup_insert_ne by done. intros Hsome. left. by apply Honly.
  - apply Forall_app. split.
    + rewrite Forall_forall in *. intros x Hx. destruct (Hall x Hx) as [Hn0 (o' & Ho' & HP')].
      split; [done |]. exists o'. split; [| done]. cbn.
      rewrite lookup_insert_ne; [done |]. specialize (Hbelow x Hx). lia.
    + constructor; [| constructor]. split; [done |]. exists o. split; [| done].
      cbn. apply lookup_insert_eq.
Qed.

Lemma tracked_detach n0 P P' acc s : tracked n0 P acc s → tracked n0 P' [] (detach acc s).
Proof.
  intros (Hle & Hf & Hnd & Honly & Hall).
  destruct (detach_fields acc s) as (_ & _ & _ & _ & _ & Hn).
  split_and!.
  - by rewrite Hn.
  - intros n Hge. rewrite Hn in Hge. rewrite detach_observers.
    case_bool_decide; [done | by apply Hf].
  - constructor.
  - intros k Hk. rewrite detach_observers. case_bool_decide as Hin; [by intros [? [=]] |].
    intros Hsome. destruct Hin. by apply Honly.
  - constructor.
Qed.

Lemma tracked_weaken n0 (P Q : RxSubscriptionWithId → Observer → Prop) acc s :
  (∀ x o, P x o → Q x o) → tracked n0 P acc s → tracked n0 Q acc s.
Proof.
  intros HPQ (Hle & Hf & Hnd & Honly & Hall). split_and!; try done.
  eapply Forall_impl; [exact Hall |]. intros x [? (o & ? & ?)]. split; [done |].
  exists o. split; [done | by apply HPQ].
Qed.

(** The legs attached from [n0] to [n1], then those attached from [n1] on. *)
Lemma tracked_join n0 P acc acc' s s' :
  tracked n0 P acc s → older_kept (nextSub s) s s' → tracked (nextSub s) P acc' s' →
  tracked n0 P (acc ++ acc') s'.
Proof.
  intros Ht Hk Ht'. pose proof (tracked_below _ _ _ _ Ht) as Hbelow.
  pose proof (tracked_below _ _ _ _ Ht') as Hbelow'.
  destruct Ht as (Hle & Hf & Hnd & Honly & Hall).
  destruct Ht' as (Hle' & Hf' & Hnd' & Honly' & Hall').
  destruct Hk as (_ & _ & _ & _ & _ & Hobs).
  split_and!.
  - lia.
  - done.
  - rewrite fmap_app. apply NoDup_app. split_and!; [done | | done].
    intros k Hk Hk'.
    apply list_elem_of_fmap in Hk as (x & -> & Hx).
    apply list_elem_of_fmap in Hk' as (y & Hxy & Hy).
    specialize (Hbelow x Hx). specialize (Hbelow' y Hy). lia.
  - intros k Hk Hsome. rewrite fmap_app, elem_of_app.
    destruct (decide (nextSub s ≤ k)) as [Hge | Hlt].
    + right. by apply Honly'.
    + left. apply Honly; [done |]. rewrite <- Hobs by lia. done.
  - apply Forall_app. split.
    + rewrite Forall_forall in *. intros x Hx. destruct (Hall x Hx) as [Hn0 (o & Ho & HP)].
      split; [done |]. exists o. split; [| done]. rewrite Hobs; [done |].
      specialize (Hbelow x Hx). lia.
    + eapply Forall_impl; [exact Hall' |]. intros x [? ?]. split; [lia | done].
Qed.

(** *** The methods that attach legs *)

Lemma push_subscribed_run (w : World) acc c o (s : State) :
  push_subscribed w acc c o s =
    if fails w (Observe o)
    then (Throw (ExternalError (Observe o)), detach acc (add_trace [Called (Observe o)] s))
    else (Ok (acc ++ [ {| chainId := c; sub := nextSub s |} ]),
          attach o (add_trace [Called (Observe o)] s)).
Proof.
  unfold push_subscribed, try_catch. rewrite bind_run, rx_subscribe_run.
  destruct (fails w (Observe o)); [| done].
  by rewrite bind_run, forEach_rx_unsubscribe.
Qed.

Lemma tracked_older n0 P acc s : tracked n0 P acc s → Forall (λ x, n0 ≤ sub x) acc.
Proof. intros (_ & _ & _ & _ & Hall). eapply Forall_impl; [exact Hall |]. by intros x [? _]. Qed.

Lemma push_subscribed_tracked (w : World) n0 P acc c o (s : State) :
  tracked n0 P acc s → P {| chainId := c; sub := nextSub s |} o →
  match push_subscribed w acc c o s with
  | (Ok acc', s') =>
      acc' = acc ++ [ {| chainId := c; sub := nextSub s |} ]
      ∧ nextSub s' = S (nextSub s)
      ∧ older_kept n0 s s' ∧ tracked n0 P acc' s'
  | (Throw _, s') => older_kept n0 s s' ∧ tracked n0 P [] s'
  end.
Proof.
  intros Ht HP. rewrite push_subscribed_run.
  pose proof (tracked_add_trace _ _ _ [Called (Observe o)] _ Ht) as Ht'.
  destruct (fails w (Observe o)).
  - split.
    + eapply older_kept_trans; [apply older_kept_add_trace |].
      apply older_kept_detach. eapply tracked_older, Ht'.
    + eapply tracked_detach, Ht'.
  - split_and!; [done | done | |].
    + eapply older_kept_trans; [apply older_kept_add_trace |].
      apply older_kept_attach. apply Ht.
    + by apply (tracked_attach _ _ _ o c _ Ht').
Qed.

(** One [push_subscribed] in the goal: its outcome, by cases. *)
Ltac push_step n0 P H :=
  match goal with
  | |- context [push_subscribed ?w ?acc ?c ?o ?s0] =>
      pose proof (push_subscribed_tracked w n0 P acc c o s0) as H;
      destruct (push_subscribed w acc c o s0) as [[? | ?] ?]
  end.

Lemma monitorOrigins_tracked (w : World) (qs : Subscription) (s : State) :
  fresh s →
  match monitorOrigins w qs s with
  | (Ok (l, sc, mc), s') =>
      l = [ {| chainId := origin qs; sub := nextSub s |};
            {| chainId := origin qs; sub := S (nextSub s) |} ]
      ∧ sc = ControlQuery_from (sendersCriteria (senders qs))
      ∧ mc = ControlQuery_from (messageCriteria (destinations qs))
      ∧ older_kept (nextSub s) s s'
      ∧ tracked (nextSub s) (watches_origin w qs (nextSub s)) l s'
  | (Throw _, s') =>
      older_kept (nextSub s) s s'
      ∧ tracked (nextSub s) (watches_origin w qs (nextSub s)) [] s'
  end.
Proof.
  intros Hf. set (n0 := nextSub s). set (P := watches_origin w qs n0).
  assert (tracked n0 P [] s) as Ht by (by apply tracked_nil).
  assert (P {| chainId := origin qs; sub := n0 |} (origin_observer w qs false)) as HP1
    by (split; [done | by left]).
  assert (P {| chainId := origin qs; sub := S n0 |} (origin_observer w qs true)) as HP2
    by (split; [done | by right]).
  unfold origin_observer in HP1, HP2.
  unfold monitorOrigins. rewrite bind_run. cbn [get].
  destruct (match subs s !! id qs with Some _ => _ | None => _ end);
    [split; [apply older_kept_refl | done] |].
  rewrite bind_run.
  destruct (isRelay w (origin qs)) eqn:Erel;
    (rewrite bind_run; cbn [log effect modify]; rewrite bind_run;
     push_step n0 P H1;
     [ destruct H1 as (-> & Hn1 & Hk1 & Ht1); [by apply tracked_add_trace | done |];
       cbn [app nextSub add_trace] in Hn1, Ht1 |- *; fold n0 in Hn1, Ht1 |- *;
       rewrite bind_run; cbn [log effect modify];
       push_step n0 P H2;
       [ destruct H2 as (-> & Hn2 & Hk2 & Ht2);
           [ by apply tracked_add_trace
           | cbn [nextSub add_trace]; by rewrite Hn1
           | ];
         cbn [nextSub add_trace] in Ht2 |- *; rewrite Hn1 in Ht2 |- *;
         split_and!; [done | done | done | | done];
         eapply older_kept_trans; [| exact Hk2];
         eapply older_kept_trans; [| apply older_kept_add_trace];
         eapply older_kept_trans; [| exact Hk1]; apply older_kept_add_trace
       | destruct H2 as (Hk2 & Ht2);
           [ by apply tracked_add_trace
           | cbn [nextSub add_trace]; by rewrite Hn1
           | ];
         split; [| done];
         eapply older_kept_trans; [| exact Hk2];
         eapply older_kept_trans; [| apply older_kept_add_trace];
         eapply older_kept_trans; [| exact Hk1]; apply older_kept_add_trace ]
     | destruct H1 as (Hk1 & Ht1); [by apply tracked_add_trace | done |];
       split; [| done];
       eapply older_kept_trans; [| exact Hk1]; apply older_kept_add_trace ]).
Qed.

Lemma monitorDestinations_loop_tracked (w : World) (qs : Subscription) n0 dests :
  ∀ acc s,
    tracked n0 (watches_destination w qs) acc s →
    match monitorDestinations_loop w qs dests acc s with
    | (Ok acc', s') =>
        older_kept n0 s s'
        ∧ tracked n0 (watches_destination w qs) acc' s'
        ∧ ∃ new, acc' = acc ++ new
                 ∧ chainId <$> new = filter (λ d, monitored_destination s qs d = false) dests
    | (Throw _, s') =>
        older_kept n0 s s' ∧ tracked n0 (watches_destination w qs) [] s'
    end.
Proof.
  induction dests as [| dest rest IH]; intros acc s Ht; cbn [monitorDestinations_loop].
  { split_and!; [apply older_kept_refl | done |]. exists []. by rewrite app_nil_r. }
  rewrite bind_run. cbn [get].
  rewrite filter_cons. fold (monitored_destination s qs dest).
  destruct (monitored_destination s qs dest) eqn:Emon.
  { rewrite decide_False by done. by apply IH. }
  rewrite decide_True by done.
  rewrite bind_run.
  destruct (isRelay w dest) eqn:Ed; [| destruct (isRelay w (origin qs)) eqn:Eo];
    (rewrite bind_run; cbn [log effect modify];
     push_step n0 (watches_destination w qs) H1;
     [ destruct H1 as (-> & Hn1 & Hk1 & Ht1);
         [ by apply tracked_add_trace
         | unfold watches_destination, destination_observer; cbn; by rewrite ?Ed, ?Eo
         | ];
       match goal with
       | |- context [monitorDestinations_loop w qs rest ?a ?s1] =>
           pose proof (IH a s1 Ht1) as H2;
           destruct (monitorDestinations_loop w qs rest a s1) as [[acc' | e'] s2]
       end;
       [ destruct H2 as (Hk2 & Ht2 & new & -> & Hnew);
         split_and!;
           [ eapply older_kept_trans; [| exact Hk2];
             eapply older_kept_trans; [| exact Hk1]; apply older_kept_add_trace
           | done
           | eexists (_ :: new); split; [by rewrite <- app_assoc |];
             rewrite fmap_cons; cbn [chainId]; f_equal;
             rewrite Hnew; unfold monitored_destination;
             destruct Hk1 as (-> & _); done ]
       | destruct H2 as (Hk2 & Ht2);
         split; [| done];
         eapply older_kept_trans; [| exact Hk2];
         eapply older_kept_trans; [| exact Hk1]; apply older_kept_add_trace ]
     | destruct H1 as (Hk1 & Ht1);
         [ by apply tracked_add_trace
         | unfold watches_destination, destination_observer; cbn; by rewrite ?Ed, ?Eo
         | ];
       split; [| done];
       eapply older_kept_trans; [| exact Hk1]; apply older_kept_add_trace ]).
Qed.

Lemma monitorRelay_tracked (w : World) (qs : Subscription) (s : State) :
  fresh s →
  match monitorRelay w qs s with
  | (Ok x, s') =>
      x = {| chainId := origin qs; sub := nextSub s |}
      ∧ older_kept (nextSub s) s s'
      ∧ tracked (nextSub s) (watches_relay w qs) [x] s'
  | (Throw _, s') =>
      older_kept (nextSub s) s s' ∧ tracked (nextSub s) (watches_relay w qs) [] s'
  end.
Proof.
  intros Hf. rewrite monitorRelay_run. cbn zeta.
  set (s1 := add_trace _ (monitorRelay_logged w qs s)).
  assert (older_kept (nextSub s) s s1 ∧ observers s1 = observers s ∧ nextSub s1 = nextSub s)
    as (Hk & Ho & Hn).
  { unfold s1, monitorRelay_logged.
    destruct (match subs s !! id qs with Some _ => _ | None => _ end);
      (split; [by repeat split | done]). }
  assert (tracked (nextSub s) (watches_relay w qs) [] s1) as Ht.
  { eapply tracked_same; [exact Ho | exact Hn |]. by apply tracked_nil. }
  destruct (fails w (Observe (relay_observer w qs))); [done |].
  split_and!; [done | |].
  - eapply older_kept_trans; [exact Hk |]. apply older_kept_attach. by rewrite Hn.
  - rewrite <- Hn. apply (tracked_attach _ _ [] _ _ s1); [by rewrite Hn | done].
Qed.

Lemma tracked_kept n0 P acc s s' :
  tracked n0 P acc s → older_kept (nextSub s) s s' → Forall (attached P s') acc.
Proof.
  intros Ht (_ & _ & _ & _ & _ & Hobs).
  pose proof (tracked_below _ _ _ _ Ht) as Hbelow.
  destruct Ht as (_ & _ & _ & _ & Hall).
  rewrite Forall_forall in *. intros x Hx. destruct (Hall x Hx) as [_ (o & Ho & HP)].
  exists o. split; [| done]. rewrite Hobs; [done |]. specialize (Hbelow x Hx). lia.
Qed.

Lemma tracked_fresh n0 P acc s : tracked n0 P acc s → fresh s.
Proof. by intros (_ & ? & _). Qed.

Lemma tracked_next n0 P acc s : tracked n0 P acc s → n0 ≤ nextSub s.
Proof. by intros (? & _). Qed.

Lemma watches_origin_tagged w qs n0 x o : watches_origin w qs n0 x o → tagged (id qs) x o.
Proof. by intros [_ [[_ ->] | [_ ->]]]. Qed.

Lemma watches_destination_tagged w qs x o : watches_destination w qs x o → tagged (id qs) x o.
Proof. by intros ->. Qed.

Lemma watches_relay_tagged w qs x o : watches_relay w qs x o → tagged (id qs) x o.
Proof. by intros ->. Qed.

(** The relay step of [#monitor]. *)
Lemma monitor_relay_tracked (w : World) (qs : Subscription) (s : State) :
  fresh s →
  ∃ ro s',
    (if shouldMonitorRelay w qs then
       try_catch (r ← monitorRelay w qs; mret (Some r))
         (λ e, log Err "Error on relay subscription (%s)" [id qs] ;; mret None)
     else mret None) s = (Ok ro, s')
    ∧ older_kept (nextSub s) s s'
    ∧ tracked (nextSub s) (watches_relay w qs) (option_list ro) s'.
Proof.
  intros Hf. destruct (shouldMonitorRelay w qs).
  2: { exists None, s. split_and!; [done | apply older_kept_refl | by apply tracked_nil]. }
  unfold try_catch. rewrite bind_run.
  pose proof (monitorRelay_tracked w qs s Hf) as H.
  destruct (monitorRelay w qs s) as [[x | e] s1].
  - destruct H as (-> & Hk & Ht). eexists (Some _), s1. done.
  - destruct H as (Hk & Ht). eexists None, _. split; [done |]. split.
    + eapply older_kept_trans; [exact Hk | apply older_kept_add_trace].
    + by apply tracked_add_trace.
Qed.

Lemma monitor_outcome (w : World) (qs : Subscription) (s : State) :
  fresh s →
  match monitor w qs s with
  | (Ok _, s') => ∃ h, monitored w qs s h s'
  | (Throw _, s') =>
      older_kept (nextSub s) s s' ∧ tracked (nextSub s) (tagged (id qs)) [] s'
  end.
Proof.
  intros Hf. unfold monitor. rewrite bind_run.
  pose proof (monitorOrigins_tracked w qs s Hf) as Ho.
  destruct (monitorOrigins w qs s) as [[[[O sc] mc] | e] s1].
  2: { destruct Ho as (Hk & Ht). split; [done |].
       eapply tracked_weaken; [apply watches_origin_tagged | exact Ht]. }
  destruct Ho as (HO & -> & -> & Hk1 & Ht1).
  rewrite bind_run. unfold try_catch at 1.
  pose proof (monitorDestinations_loop_tracked w qs (nextSub s1) (destinations qs) [] s1) as Hd.
  fold (monitorDestinations w qs) in Hd.
  pose proof (tracked_fresh _ _ _ _ Ht1) as Hf1.
  pose proof (tracked_next _ _ _ _ Ht1) as Hn1.
  destruct (monitorDestinations w qs s1) as [[D | e] s2].
  2: { destruct Hd as (Hk2 & Ht2); [by apply tracked_nil |].
       rewrite bind_run, forEach_rx_unsubscribe.
       split.
       - eapply older_kept_trans; [exact Hk1 |].
         eapply older_kept_trans; [eapply older_kept_le, Hk2; exact Hn1 |].
         apply older_kept_detach. eapply tracked_older, Ht1.
       - eapply (tracked_detach _ (tagged (id qs))).
         rewrite <- (app_nil_r O).
         eapply tracked_join; [| exact Hk2 |].
         + eapply tracked_weaken; [apply watches_origin_tagged | exact Ht1].
         + eapply tracked_weaken; [apply watches_destination_tagged | exact Ht2]. }
  destruct Hd as (Hk2 & Ht2 & new & HD & Hnew); [by apply tracked_nil |].
  cbn [app] in HD. subst new.
  rewrite bind_run.
  pose proof (tracked_fresh _ _ _ _ Ht2) as Hf2.
  pose proof (tracked_next _ _ _ _ Ht2) as Hn2.
  destruct (monitor_relay_tracked w qs s2 Hf2) as (ro & s3 & -> & Hk3 & Ht3).
  rewrite bind_run. cbn [modify].
  set (h := {| descriptor := qs; originSubs := O; destinationSubs := D; relaySub := ro |}).
  assert (older_kept (nextSub s1) s1 s3) as Hk13.
  { eapply older_kept_trans; [exact Hk2 |]. eapply older_kept_le, Hk3. exact Hn2. }
  assert (tracked (nextSub s) (tagged (id qs)) (legs h) s3) as Ht.
  { unfold legs, h. cbn.
    eapply tracked_join; [| exact Hk13 |].
    - eapply tracked_weaken; [apply watches_origin_tagged | exact Ht1].
    - eapply tracked_join; [| exact Hk3 |].
      + eapply tracked_weaken; [apply watches_destination_tagged | exact Ht2].
      + eapply tracked_weaken; [apply watches_relay_tagged | exact Ht3]. }
  assert (older_kept (nextSub s) s s3) as Hk.
  { eapply older_kept_trans; [exact Hk1 |]. eapply older_kept_le, Hk13. exact Hn1. }
  destruct Hk as (Hsubs & Hstats & Hdb & Hme & Hmp & Hobs).
  assert (∀ sf, observers sf = observers s3 → nextSub sf = nextSub s3 →
                subs sf = <[id qs := h]> (subs s3) → stats sf = counted qs (stats s3) →
                db sf = db s3 → maxEphemeral sf = maxEphemeral s3 →
                maxPersistent sf = maxPersistent s3 →
                monitored w qs s h sf) as Hfinal.
  { intros sf Eo En Es Et Ed Eme Emp.
    assert (∀ P l, Forall (attached P s3) l → Forall (attached P sf) l) as Hsame.
    { intros P l Hl. eapply Forall_impl; [exact Hl |].
      intros x. unfold attached. by rewrite Eo. }
    unfold monitored. split_and!; try congruence; try reflexivity.
    - intros k Hlt. rewrite Eo. by apply Hobs.
    - by eapply tracked_same, Ht.
    - exact HO.
    - apply Hsame. eapply tracked_kept; [exact Ht1 | exact Hk13].
    - cbn [destinationSubs h]. rewrite Hnew. unfold new_destinations, monitored_destination.
      destruct Hk1 as (-> & _). done.
    - apply Hsame. eapply tracked_kept; [exact Ht2 | exact Hk3].
    - apply Hsame. eapply tracked_kept; [exact Ht3 | apply older_kept_refl]. }
  unfold counted in Hfinal.
  destruct (ephemeral qs); cbn [modify]; exists h; by apply Hfinal.
Qed.

(** *** Every handler holds live legs of its own *)

Lemma attached_same P s s' x :
  observers s' = observers s → attached P s x → attached P s' x.
Proof. unfold attached. by intros ->. Qed.

Lemma attached_below P s x : fresh s → attached P s x → sub x < nextSub s.
Proof.
  intros Hf (o & Ho & _). destruct (decide (sub x < nextSub s)) as [| Hge]; [done |].
  rewrite Hf in Ho by lia. done.
Qed.

Lemma attached_older P s s' x :
  fresh s → older_kept (nextSub s) s s' → attached P s x → attached P s' x.
Proof.
  intros Hf (_ & _ & _ & _ & _ & Hobs) Hx. pose proof (attached_below _ _ _ Hf Hx).
  destruct Hx as (o & Ho & HP). exists o. by rewrite Hobs.
Qed.

Lemma attached_detach P s l x :
  sub x ∉ sub <$> l → attached P s x → attached P (detach l s) x.
Proof.
  intros Hx (o & Ho & HP). exists o. rewrite detach_observers.
  by rewrite bool_decide_eq_false_2.
Qed.

Lemma tagged_apart i j s x y :
  attached (tagged i) s x → attached (tagged j) s y → i ≠ j → sub x ≠ sub y.
Proof.
  intros (o & Ho & Hi) (o' & Ho' & Hj) Hne Heq. rewrite Heq in Ho.
  unfold tagged in *. congruence.
Qed.

Lemma sound_same s s' :
  observers s' = observers s → nextSub s' = nextSub s → subs s' = subs s →
  sound s → sound s'.
Proof. unfold sound, fresh, attached. by intros -> -> ->. Qed.

Lemma sound_older s s' :
  sound s → fresh s' → older_kept (nextSub s) s s' → sound s'.
Proof.
  intros [Hf Hs] Hf' Hk. split; [done |]. intros i h Hh.
  destruct Hk as (Hsubs & Hrest). rewrite Hsubs in Hh.
  destruct (Hs i h Hh) as (Hid & Hnd & Hall). split_and!; [done | done |].
  eapply Forall_impl; [exact Hall |]. intros x.
  apply attached_older; [done |]. by split.
Qed.

Lemma sound_constructor (opts : SwitchboardOptions) : sound (constructor opts).
Proof. split; [by intros n _ | intros i h Hh]. cbn in Hh. by rewrite lookup_empty in Hh. Qed.

Lemma monitor_sound (w : World) (qs : Subscription) (s : State) :
  sound s → sound (exec (monitor w qs) s).
Proof.
  intros Hs. pose proof Hs as [Hf Hh]. unfold exec.
  pose proof (monitor_outcome w qs s Hf) as H.
  destruct (monitor w qs s) as [[[] | e] s']; cbn [snd].
  2: { destruct H as (Hk & Ht). eapply sound_older; [done | | done].
       eapply tracked_fresh, Ht. }
  destruct H as (h & Hsubs & _ & Hdb & _ & _ & Hobs & Ht & Hd & _).
  split; [eapply tracked_fresh, Ht |]. intros i h' Hh'. rewrite Hsubs in Hh'.
  destruct (decide (i = id qs)) as [-> | Hne].
  - rewrite lookup_insert_eq in Hh'. injection Hh' as <-.
    destruct Ht as (_ & _ & Hnd & _ & Hall). split_and!; [by rewrite Hd | done |].
    eapply Forall_impl; [exact Hall |]. by intros x [_ ?].
  - rewrite lookup_insert_ne in Hh' by done.
    destruct (Hh i h' Hh') as (Hid & Hnd & Hall). split_and!; [done | done |].
    eapply Forall_impl; [exact Hall |]. intros x Hx.
    pose proof (attached_below _ _ _ Hf Hx). destruct Hx as (o & Ho & HP).
    exists o. by rewrite Hobs.
Qed.

Lemma subscribe_sound (w : World) (qs : Subscription) (s : State) :
  sound s → sound (exec (subscribe w qs) s).
Proof.
  intros Hs. unfold exec. rewrite subscribe_run.
  assert (∀ s0, sound s0 → sound (monitor_and_log w qs s0).2) as Hml.
  { intros s0 Hs0. unfold monitor_and_log. rewrite bind_run.
    pose proof (monitor_sound w qs s0 Hs0) as H. unfold exec in H.
    destruct (monitor w qs s0) as [[[] | e] s']; [| done].
    revert H. by apply sound_same. }
  destruct (at_cap s); [done |].
  destruct (ephemeral qs); [by apply Hml |].
  destruct (fails w (DbInsert qs)).
  - revert Hs. by apply sound_same.
  - apply Hml. revert Hs. by apply sound_same.
Qed.

Lemma unsubscribe_final_nextSub w i h st :
  nextSub (unsubscribe_final w i h st) = nextSub st.
Proof.
  unfold unsubscribe_final, unsubscribe_cleared.
  destruct (fails w (ClearPendingStates i)), (ephemeral (descriptor h)),
    (fails w (DbRemove i)); cbn;
    by destruct (detach_fields (legs h) (add_trace
         [Logged Info "[%s] unsubscribe %s" [origin (descriptor h); i]] st))
      as (_ & _ & _ & _ & _ & ->).
Qed.

(** The legs of two handlers have different handles. *)
Lemma sound_apart s i j h h' x y :
  sound s → subs s !! i = Some h → subs s !! j = Some h' → i ≠ j →
  x ∈ legs h → y ∈ legs h' → sub x ≠ sub y.
Proof.
  intros [_ Hs] Hh Hh' Hne Hx Hy.
  destruct (Hs i h Hh) as (_ & _ & Hall). destruct (Hs j h' Hh') as (_ & _ & Hall').
  rewrite Forall_forall in Hall, Hall'.
  eapply tagged_apart; [by apply Hall | by apply Hall' | done].
Qed.

Lemma unsubscribe_sound (w : World) (i : string) (s : State) :
  sound s → sound (exec (unsubscribe w i) s).
Proof.
  intros Hs. unfold exec. destruct (subs s !! i) as [h |] eqn:Hh.
  2: { rewrite unsubscribe_unknown by done. revert Hs. by apply sound_same. }
  rewrite (unsubscribe_known w i h s Hh). cbn [snd].
  pose proof Hs as [Hf Hall]. split.
  - intros n Hn. rewrite unsubscribe_final_nextSub in Hn.
    rewrite unsubscribe_final_observers. case_bool_decide; [done | by apply Hf].
  - intros j h' Hh'. rewrite unsubscribe_final_subs in Hh'.
    apply lookup_delete_Some in Hh' as [Hne Hh'].
    destruct (Hall j h' Hh') as (Hid & Hnd & Hlegs). split_and!; [done | done |].
    rewrite Forall_forall in *. intros y Hy. destruct (Hlegs y Hy) as (o & Ho & HP).
    exists o. split; [| done]. rewrite unsubscribe_final_observers.
    rewrite bool_decide_eq_false_2; [done |].
    intros Hin. apply list_elem_of_fmap in Hin as (x & Hxy & Hx).
    by eapply (sound_apart s i j h h' x y).
Qed.

(** A handler whose legs are those of the one it replaces. *)
Lemma sound_replace s i h h' :
  sound s → subs s !! i = Some h → id (descriptor h') = i → legs h' = legs h →
  sound (set_subs (<[i := h']>) s).
Proof.
  intros [Hf Hall] Hh Hid Hlegs. split; [done |]. intros j hj Hj. cbn in Hj.
  destruct (decide (j = i)) as [-> | Hne].
  - rewrite lookup_insert_eq in Hj. injection Hj as <-. rewrite Hlegs.
    destruct (Hall i h Hh) as (_ & ? & ?). done.
  - rewrite lookup_insert_ne in Hj by done. by apply Hall.
Qed.

Lemma updateSubscription_sound (sub : Subscription) (s : State) :
  sound s → sound (exec (updateSubscription sub) s).
Proof.
  intros Hs. unfold exec. destruct (subs s !! id sub) as [h |] eqn:Hh.
  - rewrite (updateSubscription_known sub h s Hh). by apply (sound_replace s _ h).
  - rewrite updateSubscription_unknown by done. revert Hs. by apply sound_same.
Qed.

Lemma updateSenders_sound (i : string) (s : State) :
  sound s → sound (exec (updateSenders i) s).
Proof.
  intros Hs. unfold exec. destruct (subs s !! i) as [h |] eqn:Hh.
  - rewrite (updateSenders_known i h s Hh). apply (sound_replace s _ h); try done.
    destruct Hs as [_ Hall]. by destruct (Hall i h Hh) as (? & _).
  - unfold updateSenders. by rewrite bind_run, destructure_none.
Qed.

Lemma onXcmWaypointReached_sound (msg : XcmNotifyMessage) (s : State) :
  sound s → sound (exec (onXcmWaypointReached msg) s).
Proof.
  intros Hs. unfold exec, onXcmWaypointReached. rewrite bind_run. cbn [get].
  destruct (subs s !! subscriptionId msg) as [h |]; [| revert Hs; by apply sound_same].
  destruct (_ && _); [revert Hs; by apply sound_same | done].
Qed.

(** One handler changes; the observers of the other subscriptions stay. *)
Lemma sound_update s s' i h' :
  sound s → fresh s' →
  subs s' !! i = Some h' →
  (∀ j, j ≠ i → subs s' !! j = subs s !! j) →
  id (descriptor h') = i →
  NoDup (sub <$> legs h') →
  Forall (attached (tagged i) s') (legs h') →
  (∀ k o, observers s !! k = Some o → obs_subscription o ≠ i → observers s' !! k = Some o) →
  sound s'.
Proof.
  intros [Hf Hall] Hf' Hi Hothers Hid Hnd Hlegs Hobs. split; [done |]. intros j hj Hj.
  destruct (decide (j = i)) as [-> | Hne].
  - rewrite Hi in Hj. injection Hj as <-. done.
  - rewrite Hothers in Hj by done. destruct (Hall j hj Hj) as (? & ? & Hlj).
    split_and!; [done | done |]. eapply Forall_impl; [exact Hlj |].
    intros y (o & Ho & HP). exists o. split; [| done]. apply Hobs; [done |].
    unfold tagged in HP. congruence.
Qed.

Lemma monitorRelay_logged_observers w qs st :
  observers (monitorRelay_logged w qs st) = observers st.
Proof.
  unfold monitorRelay_logged.
  by destruct (match subs st !! id qs with Some _ => _ | None => _ end).
Qed.

Lemma updateEvents_sound (w : World) (i : string) (s : State) :
  sound s → sound (exec (updateEvents w i) s).
Proof.
  intros Hs. unfold exec. destruct (subs s !! i) as [h |] eqn:Hh.
  2: { unfold updateEvents. by rewrite bind_run, destructure_none. }
  rewrite (updateEvents_known w i h s Hh). cbn [snd]. unfold updateEvents_final.
  pose proof Hs as [Hf Hall]. destruct (Hall i h Hh) as (Hid & Hnd & Hlegs).
  unfold legs in Hnd, Hlegs.
  destruct (shouldMonitorRelay w (descriptor h)), (relaySub h) as [r |] eqn:Hr;
    cbn zeta; try done.
  - set (s1 := add_trace _ (monitorRelay_logged w (descriptor h) s)).
    assert (observers s1 = observers s ∧ nextSub s1 = nextSub s ∧ subs s1 = subs s)
      as (Ho1 & Hn1 & Hs1).
    { unfold s1. cbn [observers nextSub subs add_trace].
      by rewrite monitorRelay_logged_observers, monitorRelay_logged_nextSub,
        monitorRelay_logged_subs. }
    clearbody s1.
    destruct (fails w (Observe (relay_observer w (descriptor h)))).
    { revert Hs. apply sound_same; cbn; done. }
    change (option_list None) with (@nil RxSubscriptionWithId) in Hnd, Hlegs.
    rewrite !app_nil_r in Hnd, Hlegs.
    eapply (sound_update s _ i (set_relaySub (Some _) h)); [done | ..].
    + intros n Hn. cbn in *. rewrite Hn1 in Hn. rewrite lookup_insert_ne by lia.
      rewrite Ho1. apply Hf. lia.
    + cbn. by rewrite lookup_alter_eq, Hs1, Hh.
    + intros j Hne. cbn. by rewrite lookup_alter_ne, Hs1.
    + done.
    + unfold legs. cbn [originSubs destinationSubs relaySub set_relaySub option_list].
      rewrite app_assoc, fmap_app. apply NoDup_app. split_and!; [done | | apply NoDup_singleton].
      intros k Hk. cbn. rewrite list_elem_of_singleton. intros ->.
      apply list_elem_of_fmap in Hk as (x & Hx & Hin).
      rewrite Forall_forall in Hlegs. pose proof (attached_below _ _ _ Hf (Hlegs x Hin)). lia.
    + unfold legs. cbn [originSubs destinationSubs relaySub set_relaySub option_list].
      rewrite app_assoc. apply Forall_app. split.
      * eapply Forall_impl; [exact Hlegs |]. intros x Hx.
        pose proof (attached_below _ _ _ Hf Hx). destruct Hx as (o & Ho & HP).
        exists o. split; [| done]. cbn. rewrite Hn1, Ho1. rewrite lookup_insert_ne by lia. done.
      * constructor; [| constructor]. eexists. split; [cbn; rewrite Hn1; apply lookup_insert_eq |].
        done.
    + intros k o Ho _. cbn. rewrite Hn1, Ho1. rewrite lookup_insert_ne; [done |].
      intros <-. rewrite Hf in Ho by lia. done.
  - change (option_list (Some r)) with [r] in Hnd, Hlegs.
    rewrite app_assoc, fmap_app in Hnd. apply NoDup_app in Hnd as (Hnd & Hdisj & _).
    rewrite app_assoc in Hlegs. apply Forall_app in Hlegs as [Hlegs Hrl].
    rewrite Forall_singleton in Hrl.
    eapply (sound_update s _ i (set_relaySub None h)); [done | ..].
    + intros n Hn. cbn in *. destruct (decide (sub r = n)) as [<- |].
      * apply lookup_delete_eq.
      * rewrite lookup_delete_ne by done. by apply Hf.
    + cbn. by rewrite lookup_alter_eq, Hh.
    + intros j Hne. cbn. by rewrite lookup_alter_ne.
    + done.
    + unfold legs. cbn [originSubs destinationSubs relaySub set_relaySub option_list].
      by rewrite app_nil_r.
    + unfold legs. cbn [originSubs destinationSubs relaySub set_relaySub option_list].
      rewrite app_nil_r. rewrite Forall_forall in *. intros x Hx.
      destruct (Hlegs x Hx) as (o & Ho & HP). exists o. split; [| done]. cbn.
      rewrite lookup_delete_ne; [done |]. intros Heq.
      apply (Hdisj (sub x)); [by apply list_elem_of_fmap_2 |].
      cbn. rewrite list_elem_of_singleton. done.
    + intros k o Ho Htag. cbn. rewrite lookup_delete_ne; [done |]. intros <-.
      destruct Hrl as (o' & Ho' & HP'). unfold tagged in HP'. congruence.
Qed.

(** What [updateDestinations] does to a registered subscription, by the
    outcome of [#monitorDestinations]. *)
Lemma updateDestinations_known (w : World) (i : string) (h : RxSubscriptionHandler)
    (s : State) :
  subs s !! i = Some h →
  updateDestinations w i s =
    match monitorDestinations w (descriptor h) (set_subs (<[i := with_destinations h]>) s) with
    | (Ok new, s2) =>
        let updatedSubs := destinationSubs h ++ new in
        (Ok tt,
         set_subs (alter (set_destinationSubs (kept_legs (descriptor h) updatedSubs)) i)
           (detach (removed_legs (descriptor h) updatedSubs) s2))
    | (Throw e, s2) => (Throw e, s2)
    end.
Proof.
  intros Hh. unfold updateDestinations.
  rewrite bind_run, (destructure_some i h s Hh).
  rewrite bind_run. cbn [modify]. fold (with_destinations h).
  set (s1 := set_subs _ s).
  rewrite bind_run. unfold updateDestinationSubscriptions.
  rewrite bind_run, (destructure_some i (with_destinations h) s1)
    by (unfold s1; cbn; apply lookup_insert_eq).
  rewrite bind_run. cbn [descriptor with_destinations set_messageControl destinationSubs].
  destruct (monitorDestinations w (descriptor h) s1) as [[new | e] s2]; [| done].
  rewrite bind_run, forEach_rx_unsubscribe. done.
Qed.

Lemma NoDup_fmap_eq {A B} (f : A → B) (l : list A) (x y : A) :
  NoDup (f <$> l) → x ∈ l → y ∈ l → f x = f y → x = y.
Proof.
  induction l as [| a l IH]; intros Hnd Hx Hy Hxy; [by apply elem_of_nil in Hx |].
  rewrite fmap_cons in Hnd. apply NoDup_cons in Hnd as [Ha Hnd].
  apply elem_of_cons in Hx as [-> | Hx]; apply elem_of_cons in Hy as [-> | Hy].
  - done.
  - destruct Ha. rewrite Hxy. by apply list_elem_of_fmap_2.
  - destruct Ha. rewrite <- Hxy. by apply list_elem_of_fmap_2.
  - by apply IH.
Qed.

(** The legs of a handler together with new destination legs. *)
Lemma updateDestinations_legs (w : World) (i : string) (h : RxSubscriptionHandler)
    (s s2 : State) (new : list RxSubscriptionWithId) :
  sound s → subs s !! i = Some h →
  monitorDestinations w (descriptor h) (set_subs (<[i := with_destinations h]>) s)
    = (Ok new, s2) →
  older_kept (nextSub s) (set_subs (<[i := with_destinations h]>) s) s2
  ∧ tracked (nextSub s) (watches_destination w (descriptor h)) new s2
  ∧ chainId <$> new
      = filter (λ d, find_chain d (destinationSubs h) = false) (destinations (descriptor h))
  ∧ NoDup (sub <$> originSubs h ++ (destinationSubs h ++ new) ++ option_list (relaySub h))
  ∧ Forall (attached (tagged i) s2)
      (originSubs h ++ (destinationSubs h ++ new) ++ option_list (relaySub h)).
Proof.
  intros Hs Hh Hrun. pose proof Hs as [Hf Hall].
  destruct (Hall i h Hh) as (Hid & Hnd & Hlegs).
  set (s1 := set_subs _ s) in *.
  assert (tracked (nextSub s) (watches_destination w (descriptor h)) [] s1) as Ht0
    by (by apply tracked_nil).
  pose proof (monitorDestinations_loop_tracked w (descriptor h) (nextSub s)
                (destinations (descriptor h)) [] s1 Ht0) as H.
  fold (monitorDestinations w (descriptor h)) in H. rewrite Hrun in H.
  destruct H as (Hk & Ht & new' & Hnew' & Hnew). cbn [app] in Hnew'. subst new'.
  assert (Forall (attached (tagged i) s2) (legs h)) as Hold.
  { eapply Forall_impl; [exact Hlegs |]. intros x Hx.
    eapply (attached_older _ s1); [done | exact Hk |]. done. }
  assert (Forall (attached (tagged i) s2) new) as Hnewlegs.
  { destruct Ht as (_ & _ & _ & _ & Hl). eapply Forall_impl; [exact Hl |].
    intros x [_ (o & Ho & Hw)]. exists o. split; [done |]. unfold tagged.
    rewrite Hw. by cbn. }
  assert (originSubs h ++ (destinationSubs h ++ new) ++ option_list (relaySub h)
          ≡ₚ legs h ++ new) as Hperm.
  { unfold legs. rewrite <- !app_assoc. do 2 f_equiv. apply Permutation_app_comm. }
  split_and!; [done | done | | |].
  - rewrite Hnew. unfold monitored_destination, s1. cbn [subs set_subs].
    by rewrite Hid, lookup_insert_eq.
  - rewrite Hperm, fmap_app. apply NoDup_app. split_and!; [done | | by destruct Ht as (_ & _ & ? & _)].
    intros k Hk1 Hk2.
    apply list_elem_of_fmap in Hk1 as (x & -> & Hx).
    apply list_elem_of_fmap in Hk2 as (y & Hxy & Hy).
    rewrite Forall_forall in Hlegs. pose proof (attached_below _ _ _ Hf (Hlegs x Hx)).
    pose proof (tracked_below _ _ _ _ Ht y Hy). lia.
  - rewrite Hperm. by apply Forall_app.
Qed.

Lemma updateDestinations_sound (w : World) (i : string) (s : State) :
  sound s → sound (exec (updateDestinations w i) s).
Proof.
  intros Hs. unfold exec. destruct (subs s !! i) as [h |] eqn:Hh.
  2: { unfold updateDestinations. by rewrite bind_run, destructure_none. }
  rewrite (updateDestinations_known w i h s Hh).
  pose proof Hs as [Hf Hall]. destruct (Hall i h Hh) as (Hid & Hnd & Hlegs).
  assert (sound (set_subs (<[i := with_destinations h]>) s)) as Hs1
    by (by apply (sound_replace s i h)).
  pose proof (updateDestinations_legs w i h s) as Hok.
  pose proof (monitorDestinations_loop_tracked w (descriptor h) (nextSub s)
                (destinations (descriptor h)) []
                (set_subs (<[i := with_destinations h]>) s)) as Hthrow.
  fold (monitorDestinations w (descriptor h)) in Hthrow.
  destruct (monitorDestinations w (descriptor h) _) as [[new | e] s2]; cbn [snd].
  2: { destruct Hthrow as (Hk & Ht); [by apply tracked_nil |].
       eapply sound_older; [exact Hs1 | eapply tracked_fresh, Ht | exact Hk]. }
  clear Hthrow. destruct (Hok s2 new Hs Hh eq_refl) as (Hk & Ht & _ & Hnd2 & Hl2). clear Hok.
  set (U := destinationSubs h ++ new) in *.
  set (removed := removed_legs (descriptor h) U).
  set (kept := kept_legs (descriptor h) U).
  destruct (detach_fields removed s2) as (Hdsubs & _ & _ & _ & _ & Hdn).
  assert (∀ x, x ∈ removed → x ∈ U) as Hremoved.
  { intros x Hx. unfold removed, removed_legs in Hx. by apply list_elem_of_filter in Hx as [_ ?]. }
  assert (∀ x, x ∈ removed → attached (tagged i) s2 x) as Hrtag.
  { intros x Hx. rewrite Forall_forall in Hl2. apply Hl2.
    rewrite !elem_of_app. right. left. by apply Hremoved. }
  eapply (sound_update _ _ i (set_destinationSubs kept (with_destinations h)));
    [exact Hs1 | ..].
  - intros n Hn. cbn [nextSub set_subs] in Hn. rewrite Hdn in Hn.
    cbn [observers set_subs]. rewrite detach_observers.
    case_bool_decide; [done |]. by apply (tracked_fresh _ _ _ _ Ht).
  - cbn [subs set_subs]. rewrite lookup_alter_eq, Hdsubs.
    destruct Hk as (-> & _). cbn [subs set_subs]. by rewrite lookup_insert_eq.
  - intros j Hne. cbn [subs set_subs]. rewrite lookup_alter_ne by done.
    rewrite Hdsubs. by destruct Hk as (-> & _).
  - done.
  - unfold legs. cbn [originSubs destinationSubs relaySub set_destinationSubs
                      with_destinations set_messageControl].
    eapply sublist_NoDup; [exact Hnd2 |]. apply fmap_sublist.
    apply sublist_app; [done |]. apply sublist_app; [| done]. apply sublist_filter.
  - unfold legs. cbn [originSubs destinationSubs relaySub set_destinationSubs
                      with_destinations set_messageControl].
    rewrite Forall_forall in *. intros x Hx.
    assert (x ∈ originSubs h ++ U ++ option_list (relaySub h) ∧ x ∉ removed) as [HxL Hxr].
    { rewrite !elem_of_app in Hx. rewrite !elem_of_app.
      destruct Hx as [Hx | [Hx | Hx]].
      - split; [by left |]. intros Hr. apply Hremoved in Hr.
        rewrite fmap_app in Hnd2. apply NoDup_app in Hnd2 as (_ & Hdisj & _).
        apply (Hdisj (sub x)); [by apply list_elem_of_fmap_2 |].
        apply list_elem_of_fmap_2. rewrite elem_of_app. by left.
      - unfold kept, kept_legs in Hx. apply list_elem_of_filter in Hx as [Hnr HU].
        split; [right; by left | done].
      - split; [right; by right |]. intros Hr. apply Hremoved in Hr.
        rewrite !fmap_app in Hnd2. apply NoDup_app in Hnd2 as (_ & _ & Hnd2).
        apply NoDup_app in Hnd2 as (_ & Hdisj & _).
        apply (Hdisj (sub x)); by apply list_elem_of_fmap_2. }
    apply (attached_same _ (detach removed s2)); [done |].
    apply attached_detach; [| by apply Hl2].
    intros Hin. apply list_elem_of_fmap in Hin as (y & Hxy & Hy).
    destruct Hxr. replace x with y; [done |]. symmetry.
    eapply (NoDup_fmap_eq sub); [exact Hnd2 | exact HxL | | exact Hxy].
    rewrite !elem_of_app. right. left. by apply Hremoved.
  - intros k o Ho Htag. cbn [observers set_subs] in *. rewrite detach_observers.
    assert (observers s2 !! k = Some o) as Ho2.
    { destruct Hk as (_ & _ & _ & _ & _ & Hobs). rewrite Hobs; [done |].
      destruct (decide (k < nextSub s)) as [| Hge]; [done |].
      rewrite Hf in Ho by lia. done. }
    rewrite bool_decide_eq_false_2; [done |].
    intros Hin. apply list_elem_of_fmap in Hin as (y & -> & Hy).
    destruct (Hrtag y Hy) as (o' & Ho' & HP'). unfold tagged in HP'. congruence.
Qed.

Lemma perform_sound (w : World) (op : Op) (s : State) :
  sound s → sound (exec (perform w op) s).
Proof.
  destruct op; cbn [perform];
    eauto using subscribe_sound, unsubscribe_sound, updateSubscription_sound,
      updateSenders_sound, updateDestinations_sound, updateEvents_sound,
      onXcmWaypointReached_sound.
Qed.

Lemma perform_all_sound (w : World) (ops : list Op) (s : State) :
  sound s → sound (perform_all w ops s).
Proof.
  revert s. induction ops as [| op ops IH]; intros s Hs; [done |].
  cbn [perform_all]. by apply IH, perform_sound.
Qed.

Lemma reachable_sound (w : World) (opts : SwitchboardOptions) (ops : list Op) :
  sound (perform_all w ops (constructor opts)).
Proof. apply perform_all_sound, sound_constructor. Qed.

(** Nothing is attached from the former next handle on: the observers are
    the former ones. *)
Lemma tracked_nil_observers P s s' :
  fresh s → older_kept (nextSub s) s s' → tracked (nextSub s) P [] s' →
  observers s' = observers s.
Proof.
  intros Hf (_ & _ & _ & _ & _ & Hobs) (_ & _ & _ & Honly & _).
  apply map_eq. intros k. destruct (decide (k < nextSub s)) as [Hlt | Hge].
  - by apply Hobs.
  - rewrite (Hf k) by lia. destruct (observers s' !! k) as [o |] eqn:Ho; [| done].
    assert (k ∈ sub <$> []) as Hin by (apply Honly; [lia | by rewrite Ho]).
    by apply elem_of_nil in Hin.
Qed.

(** [subscribe] returns when [#monitor] does, from the state that may hold
    the descriptor in the store; the log line follows. *)
Lemma subscribe_returns (w : World) (qs : Subscription) (s s1 : State) :
  subscribe w qs s = (Ok tt, s1) →
  ∃ s0 s',
    (s0 = s ∨ (ephemeral qs = false ∧ s0 = persisted qs s))
    ∧ monitor w qs s0 = (Ok tt, s')
    ∧ s1 = add_trace [Logged Info "[%s] new subscription: %j" [origin qs; id qs]] s'.
Proof.
  rewrite subscribe_run. destruct (at_cap s); [done |].
  assert (∀ s0, monitor_and_log w qs s0 = (Ok tt, s1) →
                ∃ s', monitor w qs s0 = (Ok tt, s')
                      ∧ s1 = add_trace
                               [Logged Info "[%s] new subscription: %j" [origin qs; id qs]] s')
    as Hml.
  { intros s0. unfold monitor_and_log. rewrite bind_run.
    destruct (monitor w qs s0) as [[[] | e] s']; [| done].
    intros [= <-]. by exists s'. }
  destruct (ephemeral qs).
  - intros H. destruct (Hml s H) as (s' & ? & ?). exists s, s'. by split; [left |].
  - destruct (fails w (DbInsert qs)); [done |].
    intros H. destruct (Hml _ H) as (s' & ? & ?). exists (persisted qs s), s'.
    by split; [right |].
Qed.

Lemma subscribe_throws (w : World) (qs : Subscription) (s s1 : State) (e : Error) :
  subscribe w qs s = (Throw e, s1) →
  s1 = s
  ∨ s1 = add_trace [Called (DbInsert qs)] s
  ∨ ∃ s0, (s0 = s ∨ (ephemeral qs = false ∧ s0 = persisted qs s))
          ∧ monitor w qs s0 = (Throw e, s1).
Proof.
  rewrite subscribe_run. destruct (at_cap s); [intros [= _ <-]; by left |].
  assert (∀ s0, monitor_and_log w qs s0 = (Throw e, s1) → monitor w qs s0 = (Throw e, s1))
    as Hml.
  { intros s0. unfold monitor_and_log. rewrite bind_run.
    by destruct (monitor w qs s0) as [[[] | e'] s']. }
  destruct (ephemeral qs).
  - intros H. right. right. exists s. split; [by left | by apply Hml].
  - destruct (fails w (DbInsert qs)); [intros [= _ <-]; right; by left |].
    intros H. right. right. exists (persisted qs s). split; [by right | by apply Hml].
Qed.

Lemma unsubscribe_final_stats w i h st :
  fails w (ClearPendingStates i) = false →
  stats (unsubscribe_final w i h st) =
    if ephemeral (descriptor h)
    then {| stats_ephemeral := stats_ephemeral (stats st) - 1;
            stats_persistent := stats_persistent (stats st) |}
    else {| stats_ephemeral := stats_ephemeral (stats st);
            stats_persistent := stats_persistent (stats st) - 1 |}.
Proof.
  intros Hc. unfold unsubscribe_final, unsubscribe_cleared. rewrite Hc.
  destruct (detach_fields (legs h) (add_trace
              [Logged Info "[%s] unsubscribe %s" [origin (descriptor h); i]] st))
    as (_ & Hst & _).
  destruct (ephemeral (descriptor h)), (fails w (DbRemove i)); cbn; by rewrite Hst.
Qed.



(** X14. A [subscribe] that throws, in a state the switchboard has reached,
    registers nothing, counts nothing and leaves no observer attached: the
    observers it had attached before the failure are detached again. The
    descriptor of a subscription that is not ephemeral stays in the store
    when the failure came after the insertion. *)
Theorem X14_failed_subscribe_leaves_nothing_attached
    (w : World) (opts : SwitchboardOptions) (ops : list Op)
    (qs : Subscription) (e : Error) (st' : State) :
  let st := perform_all w ops (constructor opts) in
  subscribe w qs st = (Throw e, st') →
  subs st' = subs st
  ∧ stats st' = stats st
  ∧ observers st' = observers st
  ∧ (db st' = db st ∨ (ephemeral qs = false ∧ db st' = <[id qs := qs]> (db st))).
Proof.
  intros st Hrun. pose proof (reachable_sound w opts ops) as [Hf _]. fold st in Hf.
  apply subscribe_throws in Hrun as [-> | [-> | (s0 & Hs0 & Hrun)]];
    [by split_and!; [.. | left] | by split_and!; [.. | left] |].
  assert (fresh s0 ∧ subs s0 = subs st ∧ stats s0 = stats st ∧ observers s0 = observers st
          ∧ nextSub s0 = nextSub st) as (Hf0 & Hsubs & Hstats & Hobs & Hn)
    by (destruct Hs0 as [-> | [_ ->]]; by split_and!).
  pose proof (monitor_outcome w qs s0 Hf0) as H. rewrite Hrun in H.
  destruct H as (Hk & Ht).
  pose proof (tracked_nil_observers _ _ _ Hf0 Hk Ht) as Hobs'.
  destruct Hk as (Hsubs' & Hstats' & Hdb' & _).
  split_and!; [congruence | congruence | congruence |].
  destruct Hs0 as [-> | [Heph ->]]; [by left |]. right. by split.
Qed.

(** On the sample network with the deaf inbound stream, subscribing the
    sample subscription throws and leaves no observer. *)
Lemma X14_witness :
  ∃ e st',
    subscribe deaf_world sample_subscription
      (perform_all deaf_world [] (constructor default_options)) = (Throw e, st')
    ∧ observers st' = observers (perform_all deaf_world [] (constructor default_options)).
Proof.
  epose proof (X14_failed_subscribe_leaves_nothing_attached
                 deaf_world default_options [] sample_subscription _ _) as H.
  cbn zeta in H. edestruct H as (_ & _ & Hobs & _).
  { vm_compute. reflexivity. }
  eexists _, _. split; [vm_compute; reflexivity | exact Hobs].
Defined.

(** X15. When [#monitor] returns, in a state the switchboard has reached, it
    has registered under the id of the descriptor a handler with that
    descriptor and the controls of its senders and destinations, and counted
    it; the handler holds two origin legs, attached to the origin with the
    outbound DMP protocols for a relay origin and with HRMP and UMP
    otherwise; it holds one destination leg for each destination that the
    handler formerly registered under the id (if any) did not monitor, in
    order, each attached to its chain with the inbound protocol that the
    relay status of the destination and of the origin selects; and the
    observers attached before are untouched. *)
Theorem X15_monitor_registers_origin_and_destination_legs
    (w : World) (opts : SwitchboardOptions) (ops : list Op)
    (qs : Subscription) (st' : State) :
  let st := perform_all w ops (constructor opts) in
  monitor w qs st = (Ok tt, st') →
  ∃ h, subs st' = <[id qs := h]> (subs st)
       ∧ stats st' = counted qs (stats st)
       ∧ descriptor h = qs
       ∧ sendersControl h = ControlQuery_from (sendersCriteria (senders qs))
       ∧ messageControl h = ControlQuery_from (messageCriteria (destinations qs))
       ∧ originSubs h = [ {| chainId := origin qs; sub := nextSub st |};
                          {| chainId := origin qs; sub := S (nextSub st) |} ]
       ∧ observers st' !! nextSub st = Some (origin_observer w qs false)
       ∧ observers st' !! S (nextSub st) = Some (origin_observer w qs true)
       ∧ chainId <$> destinationSubs h = new_destinations st qs
       ∧ (∀ x, x ∈ destinationSubs h →
            observers st' !! sub x = Some (destination_observer w qs (chainId x)))
       ∧ (∀ k, k < nextSub st → observers st' !! k = observers st !! k).
Proof.
  intros st Hrun. pose proof (reachable_sound w opts ops) as [Hf _]. fold st in Hf.
  pose proof (monitor_outcome w qs st Hf) as H. rewrite Hrun in H.
  destruct H as (h & Hsubs & Hstats & _ & _ & _ & Hobs & _ & Hd & Hsc & Hmc & HO & Ho & Hnew
                 & Hdest & _).
  exists h. split_and!; try done.
  - rewrite HO in Ho. apply Forall_cons in Ho as [(o & Ho & _ & [[_ ->] | [Hn _]]) _];
      [done | cbn in Hn; lia].
  - rewrite HO in Ho. apply Forall_cons in Ho as [_ Ho].
    apply Forall_cons in Ho as [(o & Ho & _ & [[Hn _] | [_ ->]]) _];
      [cbn in Hn; lia | done].
  - intros x Hx. rewrite Forall_forall in Hdest. by destruct (Hdest x Hx) as (o & Ho' & ->).
Qed.

(** [#monitor] of the second sample subscription on the switchboard that
    holds the first. *)
Lemma X15_witness :
  ∃ st' h,
    monitor sample_world sample_subscription_2
      (perform_all sample_world [OpSubscribe sample_subscription]
         (constructor default_options)) = (Ok tt, st')
    ∧ descriptor h = sample_subscription_2
    ∧ chainId <$> destinationSubs h
      = new_destinations
          (perform_all sample_world [OpSubscribe sample_subscription]
             (constructor default_options)) sample_subscription_2.
Proof.
  epose proof (X15_monitor_registers_origin_and_destination_legs
                 sample_world default_options [OpSubscribe sample_subscription]
                 sample_subscription_2 _) as H.
  cbn zeta in H. edestruct H as (h & _ & _ & Hd & _ & _ & _ & _ & _ & Hnew & _).
  { vm_compute. reflexivity. }
  eexists _, h. split; [vm_compute; reflexivity |]. split; [exact Hd | exact Hnew].
Defined.

(** X16. Subscribing an id that is not registered and unsubscribing it
    again, where the engine accepts [clearPendingStates], gives back the
    registry, the counters and the attached observers that the switchboard
    had before. *)
Theorem X16_subscribe_then_unsubscribe_restores
    (w : World) (opts : SwitchboardOptions) (ops : list Op)
    (qs : Subscription) (st1 : State) :
  let st := perform_all w ops (constructor opts) in
  subs st !! id qs = None →
  subscribe w qs st = (Ok tt, st1) →
  fails w (ClearPendingStates (id qs)) = false →
  let st2 := exec (unsubscribe w (id qs)) st1 in
  subs st2 = subs st ∧ stats st2 = stats st ∧ observers st2 = observers st.
Proof.
  intros st Hnone Hrun Hclear st2. subst st2.
  pose proof (reachable_sound w opts ops) as [Hf _]. fold st in Hf.
  apply subscribe_returns in Hrun as (s0 & s' & Hs0 & Hrun & ->).
  assert (fresh s0 ∧ subs s0 = subs st ∧ stats s0 = stats st ∧ observers s0 = observers st
          ∧ nextSub s0 = nextSub st) as (Hf0 & Hsubs & Hstats & Hobs & Hn)
    by (destruct Hs0 as [-> | [_ ->]]; by split_and!).
  pose proof (monitor_outcome w qs s0 Hf0) as H. rewrite Hrun in H.
  destruct H as (h & Hsubs' & Hstats' & _ & _ & _ & Hobs' & Ht & Hd & _).
  set (s1 := add_trace _ s').
  assert (subs s1 !! id qs = Some h) as Hh
    by (unfold s1; cbn; rewrite Hsubs'; apply lookup_insert_eq).
  unfold exec. rewrite (unsubscribe_known w (id qs) h s1 Hh). cbn [snd].
  split_and!.
  - rewrite unsubscribe_final_subs. unfold s1. cbn. rewrite Hsubs', Hsubs.
    by apply delete_insert_id.
  - rewrite unsubscribe_final_stats by done. unfold s1. cbn.
    rewrite Hd, Hstats', Hstats. unfold counted.
    destruct (stats st) as [e p], (ephemeral qs); cbn; f_equal; lia.
  - apply map_eq. intros k. rewrite unsubscribe_final_observers. unfold s1. cbn.
    pose proof (tracked_below _ _ _ _ Ht) as Hbelow.
    destruct Ht as (_ & _ & _ & Honly & _).
    case_bool_decide as Hin.
    + apply list_elem_of_fmap in Hin as (x & -> & Hx). specialize (Hbelow x Hx).
      symmetry. rewrite <- Hobs. apply Hf0. lia.
    + destruct (decide (k < nextSub s0)) as [Hlt | Hge].
      * rewrite Hobs' by done. by rewrite Hobs.
      * rewrite <- Hobs, (Hf0 k) by lia.
        destruct (observers s' !! k) as [o |] eqn:Ho; [| done].
        destruct Hin. apply Honly; [lia | by rewrite Ho].
Qed.

(** Subscribing the second sample subscription and unsubscribing it again,
    on the switchboard that holds the first. *)
Lemma X16_witness :
  ∃ st1,
    subscribe sample_world sample_subscription_2
      (perform_all sample_world [OpSubscribe sample_subscription]
         (constructor default_options)) = (Ok tt, st1)
    ∧ observers (exec (unsubscribe sample_world (id sample_subscription_2)) st1)
      = observers (perform_all sample_world [OpSubscribe sample_subscription]
                     (constructor default_options)).
Proof.
  epose proof (X16_subscribe_then_unsubscribe_restores
                 sample_world default_options [OpSubscribe sample_subscription]
                 sample_subscription_2 _) as H.
  cbn zeta in H. edestruct H as (_ & _ & Hobs).
  { vm_compute. reflexivity. }
  { vm_compute. reflexivity. }
  { reflexivity. }
  eexists. split; [vm_compute; reflexivity | exact Hobs].
Defined.

Lemma find_chain_true (c : string) (l : list RxSubscriptionWithId) :
  find_chain c l = true ↔ ∃ x, x ∈ l ∧ chainId x = c.
Proof.
  unfold find_chain. rewrite existsb_exists. split.
  - intros (x & Hx & Hc). exists x. split; [by apply list_elem_of_In |].
    by apply bool_decide_eq_true in Hc.
  - intros (x & Hx & Hc). exists x. split; [by apply list_elem_of_In |].
    by apply bool_decide_eq_true.
Qed.

Lemma kept_legs_spec (qs : Subscription) (l : list RxSubscriptionWithId)
    (x : RxSubscriptionWithId) :
  x ∈ kept_legs qs l ↔ x ∈ l ∧ chainId x ∈ destinations qs.
Proof.
  unfold kept_legs, removed_legs. rewrite list_elem_of_filter, list_elem_of_filter.
  split.
  - intros [Hnr Hx]. split; [done |].
    destruct (decide (chainId x ∈ destinations qs)) as [| Hn]; [done |].
    destruct Hnr. by split.
  - intros [Hx Hc]. split; [| done]. by intros [Hn _].
Qed.

(** X17. [updateDestinations] of a registered subscription, in a state the
    switchboard has reached, sets the message control to the criteria of the
    destinations of the descriptor and then brings the destination legs in
    line with them: when it returns, the handler holds destination legs on
    the destinations of the descriptor only, at least one on each of them;
    a leg held before is kept when its chain is still a destination, and is
    detached otherwise; descriptor, senders control, origin legs and relay
    leg are as before. When subscribing to a new destination throws, the
    handler keeps its legs, with the message control already changed, and
    no new observer stays attached. *)
Theorem X17_updateDestinations_follows_the_descriptor
    (w : World) (opts : SwitchboardOptions) (ops : list Op)
    (i : string) (h : RxSubscriptionHandler) :
  let st := perform_all w ops (constructor opts) in
  subs st !! i = Some h →
  match updateDestinations w i st with
  | (Ok _, st') =>
      ∃ h', subs st' !! i = Some h'
            ∧ descriptor h' = descriptor h
            ∧ sendersControl h' = sendersControl h
            ∧ messageControl h'
                = ControlQuery_from (messageCriteria (destinations (descriptor h)))
            ∧ originSubs h' = originSubs h
            ∧ relaySub h' = relaySub h
            ∧ (∀ x, x ∈ destinationSubs h' → chainId x ∈ destinations (descriptor h))
            ∧ (∀ d, d ∈ destinations (descriptor h) →
                 ∃ x, x ∈ destinationSubs h' ∧ chainId x = d)
            ∧ (∀ x, x ∈ destinationSubs h →
                 if decide (chainId x ∈ destinations (descriptor h))
                 then x ∈ destinationSubs h'
                 else observers st' !! sub x = None)
  | (Throw _, st') =>
      subs st' = <[i := with_destinations h]> (subs st)
      ∧ observers st' = observers st
  end.
Proof.
  intros st Hh. pose proof (reachable_sound w opts ops) as Hs. fold st in Hs.
  rewrite (updateDestinations_known w i h st Hh).
  pose proof (updateDestinations_legs w i h st) as Hok.
  pose proof (monitorDestinations_loop_tracked w (descriptor h) (nextSub st)
                (destinations (descriptor h)) []
                (set_subs (<[i := with_destinations h]>) st)) as Hthrow.
  fold (monitorDestinations w (descriptor h)) in Hthrow.
  destruct (monitorDestinations w (descriptor h) _) as [[new | e] s2].
  2: { destruct Hthrow as (Hk & Ht); [apply tracked_nil; [done | apply Hs] |].
       split; [by destruct Hk as (-> & _) |].
       apply (tracked_nil_observers (watches_destination w (descriptor h))
                (set_subs (<[i := with_destinations h]>) st) s2);
         [apply Hs | exact Hk | exact Ht]. }
  clear Hthrow. destruct (Hok s2 new Hs Hh eq_refl) as (Hk & Ht & Hnew & _). clear Hok.
  cbn zeta. set (U := destinationSubs h ++ new).
  exists (set_destinationSubs (kept_legs (descriptor h) U) (with_destinations h)).
  split_and!; try done.
  - cbn [subs set_subs]. rewrite lookup_alter_eq.
    destruct (detach_fields (removed_legs (descriptor h) U) s2) as (-> & _).
    destruct Hk as (-> & _). cbn [subs set_subs]. by rewrite lookup_insert_eq.
  - intros x Hx. cbn in Hx. by apply kept_legs_spec in Hx as [_ ?].
  - intros d Hd. cbn [destinationSubs set_destinationSubs].
    destruct (find_chain d (destinationSubs h)) eqn:Hfound.
    + apply find_chain_true in Hfound as (x & Hx & <-). exists x. split; [| done].
      apply kept_legs_spec. split; [| done]. apply elem_of_app. by left.
    + assert (d ∈ chainId <$> new) as Hin
        by (rewrite Hnew; by apply list_elem_of_filter).
      apply list_elem_of_fmap in Hin as (x & -> & Hx). exists x. split; [| done].
      apply kept_legs_spec. split; [| done]. apply elem_of_app. by right.
  - intros x Hx. cbn [destinationSubs set_destinationSubs observers set_subs].
    case_decide as Hc.
    + apply kept_legs_spec. split; [| done]. apply elem_of_app. by left.
    + rewrite detach_observers, bool_decide_eq_true_2; [done |].
      apply list_elem_of_fmap_2. unfold removed_legs. apply list_elem_of_filter.
      split; [done |]. apply elem_of_app. by left.
Qed.

(** [updateDestinations] of [s1] after its descriptor has been rerouted. *)
Lemma X17_witness :
  ∃ h h',
    subs (perform_all sample_world
            [OpSubscribe sample_subscription;
             OpUpdateSubscription sample_subscription_rerouted]
            (constructor default_options)) !! "s1" = Some h
    ∧ subs (updateDestinations sample_world "s1"
              (perform_all sample_world
                 [OpSubscribe sample_subscription;
                  OpUpdateSubscription sample_subscription_rerouted]
                 (constructor default_options))).2 !! "s1" = Some h'
    ∧ messageControl h'
      = ControlQuery_from (messageCriteria (destinations (descriptor h))).
Proof.
  epose proof (X17_updateDestinations_follows_the_descriptor
                 sample_world default_options
                 [OpSubscribe sample_subscription;
                  OpUpdateSubscription sample_subscription_rerouted] "s1" _) as H.
  cbn zeta in H.
  destruct (updateDestinations sample_world "s1" _) as [[[] | e] st'] eqn:E.
  - edestruct H as (h' & Hh' & _ & _ & Hmc & _); [vm_compute; reflexivity |].
    eexists _, h'. split; [vm_compute; reflexivity |]. split; [exact Hh' | exact Hmc].
  - vm_compute in E. discriminate.
Defined.

(** X18. [subscribe] does not check that the id is free. When it returns
    for an id that is registered (the registered handler then has no origin
    leg on the new origin), in a state the switchboard has reached, the new
    handler replaces the registered one and the subscription is counted
    again; every leg of the replaced handler stays attached for that id, and
    no handler holds its handle any more, so that no later [unsubscribe]
    reaches it through a handler. *)
Theorem X18_subscribing_a_registered_id_again_leaks_legs
    (w : World) (opts : SwitchboardOptions) (ops : list Op)
    (qs : Subscription) (h : RxSubscriptionHandler) (st1 : State) :
  let st := perform_all w ops (constructor opts) in
  subs st !! id qs = Some h →
  subscribe w qs st = (Ok tt, st1) →
  stats st1 = counted qs (stats st)
  ∧ ∀ x, x ∈ legs h →
      (∃ o, observers st1 !! sub x = Some o ∧ obs_subscription o = id qs)
      ∧ ∀ j h', subs st1 !! j = Some h' → sub x ∉ sub <$> legs h'.
Proof.
  intros st Hh Hrun. pose proof (reachable_sound w opts ops) as Hs. fold st in Hs.
  pose proof Hs as [Hf Hall]. destruct (Hall _ h Hh) as (_ & _ & Hlegs).
  rewrite Forall_forall in Hlegs.
  apply subscribe_returns in Hrun as (s0 & s' & Hs0 & Hrun & ->).
  assert (fresh s0 ∧ subs s0 = subs st ∧ stats s0 = stats st ∧ observers s0 = observers st
          ∧ nextSub s0 = nextSub st) as (Hf0 & Hsubs & Hstats & Hobs & Hn)
    by (destruct Hs0 as [-> | [_ ->]]; by split_and!).
  pose proof (monitor_outcome w qs s0 Hf0) as H. rewrite Hrun in H.
  destruct H as (h1 & Hsubs' & Hstats' & _ & _ & _ & Hobs' & Ht & _).
  split; [cbn; by rewrite Hstats', Hstats |].
  intros x Hx. pose proof (Hlegs x Hx) as Hatt.
  pose proof (attached_below _ _ _ Hf Hatt) as Hlt. split.
  - destruct Hatt as (o & Ho & Htag). exists o. split; [| done]. cbn.
    rewrite Hobs' by lia. by rewrite Hobs.
  - intros j h' Hh' Hin. cbn in Hh'. rewrite Hsubs', Hsubs in Hh'.
    apply list_elem_of_fmap in Hin as (y & Hxy & Hy).
    destruct (decide (j = id qs)) as [-> | Hne].
    + rewrite lookup_insert_eq in Hh'. injection Hh' as <-.
      pose proof (tracked_below _ _ _ _ Ht y Hy). lia.
    + rewrite lookup_insert_ne in Hh' by done.
      by apply (sound_apart st (id qs) j h h' x y).
Qed.

(** Subscribing [s1] again from another origin, on the switchboard that
    holds it. *)
Lemma X18_witness :
  ∃ st1,
    subscribe sample_world sample_subscription_moved
      (perform_all sample_world [OpSubscribe sample_subscription]
         (constructor default_options)) = (Ok tt, st1)
    ∧ stats st1
      = counted sample_subscription_moved
          (stats (perform_all sample_world [OpSubscribe sample_subscription]
                    (constructor default_options))).
Proof.
  epose proof (X18_subscribing_a_registered_id_again_leaks_legs
                 sample_world default_options [OpSubscribe sample_subscription]
                 sample_subscription_moved _ _) as H.
  cbn zeta in H. edestruct H as (Hstats & _).
  { vm_compute. reflexivity. }
  { vm_compute. reflexivity. }
  eexists. split; [vm_compute; reflexivity | exact Hstats].
Defined.

End SwitchboardLegs.

(** ** The distributed ingress consumer *)

Module IngressFacts.
Import Switchboard SwitchboardFacts Ingress.

Lemma lookup_network_None (i : string) (nets : NetworkRecord) :
  lookup_network i nets = None ↔ i ∉ nets.*1.
Proof.
  induction nets as [| [k v] nets IH]; cbn.
  - split; [intros _; apply not_elem_of_nil | done].
  - rewrite not_elem_of_cons. case_decide as Hk.
    + split; [done | by intros [? _]].
    + rewrite IH. split; [by intros ? | by intros [_ ?]].
Qed.

Lemma lookup_network_Some (i : string) (v : NetworkEntry) (nets : NetworkRecord) :
  NoDup nets.*1 → lookup_network i nets = Some v ↔ (i, v) ∈ nets.
Proof.
  induction nets as [| [k v'] nets IH]; cbn; intros Hnd.
  - split; [done | by intros ?%elem_of_nil].
  - apply NoDup_cons in Hnd as [Hk Hnd]. rewrite elem_of_cons. case_decide as Hki.
    + subst k. split; [intros [= ->]; by left |].
      intros [[= ->] | Hin]; [done |]. destruct Hk.
      by apply (list_elem_of_fmap_2 fst) in Hin.
    + rewrite (IH Hnd). split; [by right | by intros [[= ? ?] | ?]].
Qed.


Lemma assign_absent (i : string) (v : NetworkEntry) (nets : NetworkRecord) :
  lookup_network i nets = None → assign i v nets = nets ++ [(i, v)].
Proof.
  induction nets as [| [k v'] nets IH]; cbn; [done |].
  case_decide; [done |]. intros Hrest. by rewrite IH.
Qed.

Lemma well_filed_snoc (i : string) (v : NetworkEntry) (nets : NetworkRecord) :
  well_filed nets → lookup_network i nets = None → net_id v = i →
  well_filed (nets ++ [(i, v)]).
Proof.
  intros [Hnd Hall] Hi Hv. apply lookup_network_None in Hi. split.
  - rewrite fmap_app. apply NoDup_app. split_and!; [done | | apply NoDup_singleton].
    intros k Hk. cbn. rewrite list_elem_of_singleton. by intros ->.
  - apply Forall_app. split; [done |]. by constructor.
Qed.

Lemma logged_reads_app (c : Consumer) (es : list Effect) :
  logged_reads (add_effects es c) =
    logged_reads c ++ omap (λ e, match e with LogRead i _ => Some i | _ => None end) es.
Proof. unfold logged_reads. cbn. by rewrite omap_app. Qed.

(** What the loop leaves: the networks it started from, followed by those
    it has read. *)
Lemma read_members_appends (members : list (option NetworkEntry)) (c : Consumer) :
  ∃ more,
    networks (read_members members c).2 = networks c ++ more
    ∧ logged_reads (read_members members c).2 = logged_reads c ++ more.*1
    ∧ (well_filed (networks c) → well_filed (networks c ++ more)).
Proof.
  revert c. induction members as [| [n |] members IH]; intros c; cbn [read_members].
  - exists []. by rewrite !app_nil_r.
  - destruct (lookup_network (net_id n) (networks c)) eqn:Hn; [apply IH |].
    rewrite assign_absent by done.
    destruct (IH {| networks := networks c ++ [(net_id n, n)];
                    effects := effects c ++ [LogRead (net_id n) (net_isRelay n)] |})
      as (more & Hnets & Hlog & Hwf).
    cbn [networks] in Hnets, Hwf.
    exists ((net_id n, n) :: more). split_and!.
    + by rewrite Hnets, <- app_assoc.
    + rewrite Hlog. unfold logged_reads. cbn [effects]. rewrite omap_app. cbn.
      by rewrite <- app_assoc.
    + intros Hc.
      replace (networks c ++ (net_id n, n) :: more)
        with ((networks c ++ [(net_id n, n)]) ++ more) by (by rewrite <- app_assoc).
      apply Hwf. by apply well_filed_snoc.
  - exists []. by rewrite !app_nil_r.
Qed.

Lemma networksFromRedis_appends reply (c : Consumer) :
  ∃ more,
    networks (networksFromRedis reply c).2 = networks c ++ more
    ∧ logged_reads (networksFromRedis reply c).2 = logged_reads c ++ more.*1
    ∧ (well_filed (networks c) → well_filed (networks c ++ more)).
Proof.
  destruct reply as [members |]; cbn.
  2: { exists []. rewrite !app_nil_r. split_and!; try done.
       unfold logged_reads. cbn. rewrite omap_app. cbn. by rewrite app_nil_r. }
  destruct (read_members_appends members c) as (more & Hnets & Hlog & Hwf).
  exists more. destruct (read_members members c) as [[] c']; cbn in *;
    (split_and!; [done | | done]);
    unfold logged_reads in *; cbn; rewrite omap_app; cbn; by rewrite app_nil_r.
Qed.

Lemma refreshed_snoc replies reply :
  refreshed (replies ++ [reply]) = (networksFromRedis reply (refreshed replies)).2.
Proof. unfold refreshed. by rewrite foldl_app. Qed.

Lemma refreshed_well_filed replies :
  well_filed (networks (refreshed replies))
  ∧ logged_reads (refreshed replies) = getChainIds (refreshed replies).
Proof.
  induction replies as [| reply replies IH] using rev_ind.
  - split; [split; constructor | done].
  - rewrite refreshed_snoc. destruct IH as [Hwf Hlog].
    destruct (networksFromRedis_appends reply (refreshed replies)) as (more & Hn & Hl & Hw).
    unfold getChainIds in *. rewrite Hn, Hl, Hlog, fmap_app. split; [by apply Hw | done].
Qed.

Lemma getRelayIds_spec (c : Consumer) (i : string) :
  NoDup (networks c).*1 → i ∈ getRelayIds c ↔ isRelay c i = Some true.
Proof.
  intros Hnd. unfold getRelayIds, isRelay. rewrite list_elem_of_fmap. split.
  - intros ([k v] & -> & Hin). apply list_elem_of_filter in Hin as [Hrel Hin].
    cbn in *. apply (lookup_network_Some _ _ _ Hnd) in Hin. by rewrite Hin, <- Hrel.
  - destruct (lookup_network i (networks c)) as [v |] eqn:Hv; [| done].
    intros [= Hrel]. exists (i, v). split; [done |].
    apply list_elem_of_filter. split; [done |]. by apply lookup_network_Some.
Qed.










(** X22. With the networks of a consumer, whatever it has read, the relay
    leg of a subscription that needs one is attached to a network that is a
    relay, which is neither the origin of the subscription nor any of its
    destinations on a parachain. *)
Theorem X22_the_relay_leg_observes_a_relay
    (replies : list (option (list (option NetworkEntry)))) (fails : External → bool)
    (qs : Subscription) (r : string) :
  let w := world_of (refreshed replies) fails in
  shouldMonitorRelay w qs = true →
  obs_stream (relay_observer w qs) = Some r →
  Switchboard.isRelay w r = true
  ∧ r ≠ origin qs
  ∧ ∀ d, d ∈ destinations qs → Switchboard.isRelay w d = false → d ≠ r.
Proof.
  intros w Hshould Hr. cbn [obs_stream relay_observer] in Hr.
  destruct (refreshed_well_filed replies) as [[Hnd _] _].
  assert (Switchboard.isRelay w r = true) as Hrel.
  { change (default false (isRelay (refreshed replies) r) = true).
    apply head_Some_elem_of in Hr.
    change (r ∈ getRelayIds (refreshed replies)) in Hr.
    apply (getRelayIds_spec _ _ Hnd) in Hr. by rewrite Hr. }
  apply shouldMonitorRelay_spec in Hshould as (_ & Ho & _).
  split_and!; [done | congruence |]. intros d _ Hd. congruence.
Qed.

Lemma X22_witness :
  Switchboard.isRelay (world_of (refreshed [Some sample_reply]) (λ _, false))
    "urn:ocn:polkadot:0" = true
  ∧ "urn:ocn:polkadot:0" ≠ origin sample_subscription.
Proof.
  destruct (X22_the_relay_leg_observes_a_relay [Some sample_reply] (λ _, false)
              sample_subscription "urn:ocn:polkadot:0") as (Hrel & Hne & _).
  - vm_compute. reflexivity.
  - vm_compute. reflexivity.
  - split; [exact Hrel | exact Hne].
Defined.

End IngressFacts.
